(** * misp-mcp: the gateway client and the correlation engine

    A shallow embedding of [src/client.ts] (the [MispClient] class) and of
    the tool handlers [misp_correlate], [misp_get_related_events]
    ([src/tools/correlation.ts]) and [misp_add_attributes_bulk]
    ([src/tools/attributes.ts]), followed by the properties of the
    specification that concern them.

    The configuration ([src/config.ts]), the other methods of the client
    that the handlers below call, and the handlers [misp_publish_event],
    [misp_tag_event], [misp_delete_attribute], [misp_list_tags],
    [misp_add_sighting], [misp_check_warninglists], [misp_export_iocs] and
    [misp_export_hashes] are embedded after them, with further properties
    of the code at the end.

    Conventions of the embedding:
    - a JavaScript value that may be [undefined] is an [option]; [None] is
      [undefined];
    - a promise that rejects is an [Outcome] built with [Throw], carrying
      the [message] of the thrown [Error];
    - the remote platform is a state machine [net]; every [fetch] is
      recorded in the [calls] trace of the world, oldest first;
    - a call settles: the abort timer bounds the wait for the headers of
      an answer, and the body that follows them comes whole or fails
      while it is read (a body that never ends would leave the call
      pending, with no outcome to speak of);
    - [JSON.parse] is a parameter of the client ([JSON_parse]); the value it
      returns is a [Json] tree;
    - the payloads of the platform are read through the interfaces of
      [src/types.ts]: the embedding follows the code on every payload whose
      fields, where present, have the kind their interface declares (a
      field may be absent or [null]); it does not follow a string-typed
      field holding a number, or an array-typed one holding an object. *)

From Stdlib Require Import List String Ascii ZArith NArith Lia Bool Arith.
From Stdlib Require Import Permutation Sorted DecimalString.
From Stdlib Require DecimalPos DecimalN.
Import ListNotations.
Open Scope string_scope.

(* ================================================================= *)
(** ** JavaScript values *)

(** The values [JSON.parse] can return. Numbers are restricted to the
    integers: no number read by the modelled code has a fractional part. *)
#[warnings="-register-all"]
Inductive Json : Type :=
| JNull
| JBool (b : bool)
| JNum (n : Z)
| JStr (s : string)
| JArr (items : list Json)
| JObj (fields : list (string * Json)).

Fixpoint assoc {A : Type} (k : string) (l : list (string * A)) : option A :=
  match l with
  | [] => None
  | (k', v) :: r => if String.eqb k k' then Some v else assoc k r
  end.

(** [v.k] for a value [v] that is neither [null] nor [undefined]: the own
    property of an object, [undefined] on anything else. *)
Definition prop (k : string) (v : Json) : option Json :=
  match v with
  | JObj fs => assoc k fs
  | _ => None
  end.

(** [v?.k]: [undefined] when [v] is [null] or [undefined]. *)
Definition opt_prop (k : string) (v : option Json) : option Json :=
  match v with
  | None | Some JNull => None
  | Some j => prop k j
  end.

(** Truthiness of a JavaScript value. *)
Definition js_truthy (j : Json) : bool :=
  match j with
  | JNull => false
  | JBool b => b
  | JNum n => negb (Z.eqb n 0)
  | JStr s => negb (String.eqb s "")
  | JArr _ | JObj _ => true
  end.

Definition truthy (v : option Json) : bool :=
  match v with
  | None => false
  | Some j => js_truthy j
  end.

Definition show_N (n : N) : string := NilEmpty.string_of_uint (N.to_uint n).
Definition show_Z (z : Z) : string := NilEmpty.string_of_int (Z.to_int z).

(** [String(v)], as a template literal applies it. *)
Fixpoint js_to_string (j : Json) : string :=
  match j with
  | JNull => "null"
  | JBool true => "true"
  | JBool false => "false"
  | JNum n => show_Z n
  | JStr s => s
  | JArr l =>
      (fix join (l : list Json) : string :=
         match l with
         | [] => ""
         | x :: r =>
             let sx := match x with JNull => "" | _ => js_to_string x end in
             match r with
             | [] => sx
             | _ :: _ => sx ++ "," ++ join r
             end
         end) l
  | JObj _ => "[object Object]"
  end.

(** Reading a payload at the kind its TypeScript interface declares.
    [as T] checks nothing at run time, so each read is total: a field that
    is absent or [null] reads as [undefined]. A field of another kind than
    declared is outside the interfaces; it reads as [undefined] too, which
    is not what the code does with it. *)
Definition as_string (v : option Json) : option string :=
  match v with
  | Some (JStr s) => Some s
  | _ => None
  end.

Definition as_bool (v : option Json) : bool :=
  match v with
  | Some (JBool b) => b
  | _ => false
  end.

Definition as_array (v : option Json) : option (list Json) :=
  match v with
  | Some (JArr l) => Some l
  | _ => None
  end.

(** Truthiness of a string-typed field: defined and not empty. *)
Definition truthy_str (s : option string) : bool :=
  match s with
  | Some s => negb (String.eqb s "")
  | None => false
  end.

Definition opt_string_eqb (a b : option string) : bool :=
  match a, b with
  | Some x, Some y => String.eqb x y
  | None, None => true
  | _, _ => false
  end.

(** The double quote, for the messages that quote a value. *)
Definition dq : string := String (ascii_of_nat 34) EmptyString.

(* ================================================================= *)
(** ** Outcomes of asynchronous calls *)

Inductive Outcome (A : Type) : Type :=
| Ok (a : A)
| Throw (message : string).
Arguments Ok {A} a.
Arguments Throw {A} message.

Definition is_ok {A : Type} (o : Outcome A) : bool :=
  match o with Ok _ => true | Throw _ => false end.

(* ================================================================= *)
(** ** The transport: [fetch] raced against the abort timer *)

Record Request : Type := {
  rq_method : string;
  rq_url : string;
  rq_headers : list (string * string);
  rq_body : option Json  (* the value handed to JSON.stringify *)
}.

Record Response : Type := {
  status : N;
  text : string
}.

(** [response.ok] of the Fetch standard. *)
Definition ok (r : Response) : bool :=
  (200 <=? status r)%N && (status r <=? 299)%N.

(** What [fetch] rejects with: an [Error] object, or any other value
    (given by its [String] form). *)
Inductive Rejection : Type :=
| RejError (name message : string)
| RejOther (str : string).

Definition AbortError : Rejection :=
  RejError "AbortError" "This operation was aborted".

(** The error that a failing read of a body raises. The errors of the
    runtime carry a message: it is not empty. *)
Record BodyError : Type := {
  be_first : ascii;
  be_rest : string
}.

Definition be_message (why : BodyError) : string :=
  String (be_first why) (be_rest why).

(** What the network does with one request, on a clock in milliseconds
    started when the request is sent: the headers of the answer are there
    after some time and its body follows, or the headers are there after
    some time and the body fails while it is read, or the connection
    fails after some time, or nothing ever happens. (A body that never
    ends after its headers leaves the call pending for ever, the timer
    being cleared by then: such a call has no outcome, and the platform of
    the embedding has no such event.) *)
Inductive NetEvent : Type :=
| Arrives (after : N) (r : Response)
| Breaks (after : N) (why : BodyError)
| Fails (after : N) (why : Rejection)
| Hangs.

(** The delay [setTimeout] runs a timer for: a delay below 1 or above
    2^31 - 1 is set to 1. *)
Definition timer_delay (timeout : N) : N :=
  if ((timeout <? 1) || (2147483647 <? timeout))%N then 1%N else timeout.

(** What [fetch] resolves with: a response whose body [text()] gives, or
    fails to give. *)
Inductive Fetched : Type :=
| Readable (r : Response)
| Unreadable (why : BodyError).

(** [fetch(url, {signal})] with a timer of [delay] milliseconds armed to
    abort it: the promise settles, when the headers are there, with
    whatever happens first; the timer wins only when it elapses strictly
    before the network has answered. *)
Definition fetch (delay : N) (ev : NetEvent) : Fetched + Rejection :=
  match ev with
  | Arrives t r => if (delay <? t)%N then inr AbortError else inl (Readable r)
  | Breaks t why => if (delay <? t)%N then inr AbortError else inl (Unreadable why)
  | Fails t why => if (delay <? t)%N then inr AbortError else inr why
  | Hangs => inr AbortError
  end.

Record MispConfig : Type := {
  url : string;
  apiKey : string;
  verifySsl : bool;
  timeout : N
}.

(* ================================================================= *)
(** ** Payloads of the platform ([src/types.ts])

    Only the fields the modelled code reads are kept. *)

(** The part of an event read through [attr.Event] and [rel.Event]. *)
Module EventHead.
Record t : Type := mk {
  id : option string;
  info : option string
}.
End EventHead.

Module RelatedAttribute.
Record t : Type := mk {
  id : option string;
  value : option string;
  type : option string;
  event_id : option string
}.
End RelatedAttribute.

Module MispAttribute.
Record t : Type := mk {
  id : option string;
  event_id : option string;
  type : option string;
  category : option string;
  value : option string;
  to_ids : bool;
  Event : option EventHead.t;
  RelatedAttribute : option (list RelatedAttribute.t)
}.
End MispAttribute.

Module MispEvent.
Record t : Type := mk {
  id : option string;
  info : option string;
  Attribute : option (list MispAttribute.t);
  (* [RelatedEvent[i].Event], [None] where the element has none *)
  RelatedEvent : option (list (option EventHead.t))
}.
End MispEvent.

(** A property holding an object: [undefined] and [null] both read as
    [None]. *)
Definition as_object (v : option Json) : option Json :=
  match v with
  | None | Some JNull => None
  | Some j => Some j
  end.

Definition as_EventHead (j : Json) : EventHead.t :=
  {| EventHead.id := as_string (prop "id" j);
     EventHead.info := as_string (prop "info" j) |}.

Definition as_RelatedAttribute (j : Json) : RelatedAttribute.t :=
  {| RelatedAttribute.id := as_string (prop "id" j);
     RelatedAttribute.value := as_string (prop "value" j);
     RelatedAttribute.type := as_string (prop "type" j);
     RelatedAttribute.event_id := as_string (prop "event_id" j) |}.

Definition as_MispAttribute (j : Json) : MispAttribute.t :=
  {| MispAttribute.id := as_string (prop "id" j);
     MispAttribute.event_id := as_string (prop "event_id" j);
     MispAttribute.type := as_string (prop "type" j);
     MispAttribute.category := as_string (prop "category" j);
     MispAttribute.value := as_string (prop "value" j);
     MispAttribute.to_ids := as_bool (prop "to_ids" j);
     MispAttribute.Event := option_map as_EventHead (as_object (prop "Event" j));
     MispAttribute.RelatedAttribute :=
       option_map (map as_RelatedAttribute) (as_array (prop "RelatedAttribute" j)) |}.

Definition as_MispEvent (j : Json) : MispEvent.t :=
  {| MispEvent.id := as_string (prop "id" j);
     MispEvent.info := as_string (prop "info" j);
     MispEvent.Attribute :=
       option_map (map as_MispAttribute) (as_array (prop "Attribute" j));
     MispEvent.RelatedEvent :=
       option_map
         (map (fun rel => option_map as_EventHead (as_object (prop "Event" rel))))
         (as_array (prop "RelatedEvent" j)) |}.

(* ================================================================= *)
(** ** The run-time platform and the world *)

(** What the client runs on: the remote service behind [fetch] (a state
    machine answering each request with a network event) and the host's
    [JSON.parse] ([None] when it throws a [SyntaxError]). *)
Class Platform : Type := {
  Remote : Type;
  net : Request -> Remote -> NetEvent * Remote;
  JSON_parse : string -> option Json
}.

(** The state of the remote service and the trace of the requests sent. *)
Record World {P : Platform} : Type := {
  remote : Remote;
  calls : list Request
}.

(** Asynchronous computations: state passing over the world, with
    rejection. [await] is [bind]. *)
Definition M {P : Platform} (A : Type) : Type := World -> Outcome A * World.

Definition ret {P : Platform} {A : Type} (a : A) : M A :=
  fun w => (Ok a, w).

Definition throw {P : Platform} {A : Type} (message : string) : M A :=
  fun w => (Throw message, w).

Definition bind {P : Platform} {A B : Type} (m : M A) (k : A -> M B) : M B :=
  fun w =>
    match m w with
    | (Ok a, w') => k a w'
    | (Throw e, w') => (Throw e, w')
    end.

(** [try { m } catch (err) { h(err.message) }] *)
Definition try_catch {P : Platform} {A : Type} (m : M A) (h : string -> M A) : M A :=
  fun w =>
    match m w with
    | (Ok a, w') => (Ok a, w')
    | (Throw e, w') => h e w'
    end.

Declare Scope async_scope.
Delimit Scope async_scope with async.
Notation "x <- m ;; k" := (bind m (fun x => k))
  (at level 100, m at next level, right associativity) : async_scope.
Notation "m ;;; k" := (bind m (fun _ => k))
  (at level 100, right associativity) : async_scope.
Open Scope async_scope.

(** [for (const x of l) { await f(x); }] *)
Fixpoint forM_ {P : Platform} {A B : Type} (l : list A) (f : A -> M B) : M unit :=
  match l with
  | [] => ret tt
  | x :: r => f x ;;; forM_ r f
  end.

(** [l.map(f)] for a callback that may throw. *)
Fixpoint mapM {P : Platform} {A B : Type} (f : A -> M B) (l : list A) : M (list B) :=
  match l with
  | [] => ret []
  | x :: r => y <- f x ;; ys <- mapM f r ;; ret (y :: ys)
  end.

(** [v.k] on a value that may be [null] or [undefined]: a [TypeError]
    there. *)
Definition get {P : Platform} (k : string) (v : option Json) : M (option Json) :=
  match v with
  | None => throw ("Cannot read properties of undefined (reading '" ++ k ++ "')")
  | Some JNull => throw ("Cannot read properties of null (reading '" ++ k ++ "')")
  | Some j => ret (prop k j)
  end.

(** An object literal field that is only assigned under a condition. *)
Definition field_if (c : bool) (k : string) (v : Json) : list (string * Json) :=
  if c then [(k, v)] else [].

Definition field_str (k : string) (v : option string) : list (string * Json) :=
  match v with
  | Some s => field_if (negb (String.eqb s "")) k (JStr s)
  | None => []
  end.

Definition bit (b : bool) : Json := JNum (if b then 1 else 0).

(* ================================================================= *)
(** ** Parameters of the client's methods *)

Module SearchEventsParams.
Record t : Type := mk {
  value : option string;
  type : option string;
  category : option string;
  tags : option (list string);
  eventid : option string;
  org : option string;
  dateFrom : option string;
  dateTo : option string;
  last : option string;
  published : option bool;
  limit : option Z;
  page : option Z
}.
End SearchEventsParams.

Module SearchAttributesParams.
Record t : Type := mk {
  value : option string;
  type : option string;
  category : option string;
  tags : option (list string);
  to_ids : option bool;
  includeCorrelations : option bool;
  last : option string;
  limit : option Z
}.
End SearchAttributesParams.

Module CreateEventParams.
Record t : Type := mk {
  info : string;
  distribution : Z;
  threat_level_id : Z;
  analysis : Z;
  date : option string;
  tags : option (list string);
  published : option bool
}.
End CreateEventParams.

Module AddAttributeParams.
Record t : Type := mk {
  type : string;
  value : string;
  category : option string;
  to_ids : option bool;
  comment : option string;
  distribution : option Z;
  tags : option (list string)
}.
End AddAttributeParams.

(* ================================================================= *)
(** ** [MispClient] ([src/client.ts]) *)

Section MispClient.
Context {P : Platform}.
Variable this : MispConfig.

(** The [catch] around [fetch]. *)
Definition fetch_failure (err : Rejection) : string :=
  match err with
  | RejError name message =>
      if String.eqb name "AbortError"
      then "MISP API timeout after " ++ show_N (timeout this) ++ "ms"
      else "MISP API request failed: " ++ message
  | RejOther str => "MISP API request failed: " ++ str
  end.

(** [statusMessages[response.status] || `HTTP ${response.status}`] *)
Definition status_prefix (st : N) : string :=
  if (st =? 401)%N then "Invalid API key or unauthorized"
  else if (st =? 403)%N then "Insufficient permissions"
  else if (st =? 404)%N then "Resource not found"
  else if (st =? 405)%N then "Method not allowed"
  else "HTTP " ++ show_N st.

(** The detail of a non-2xx answer: [parsed.message || parsed.errors || text],
    and [text] when parsing or reading throws. *)
Definition error_detail (text : string) : string :=
  match JSON_parse text with
  | None | Some JNull => text
  | Some parsed =>
      match prop "message" parsed with
      | Some m =>
          if js_truthy m then js_to_string m
          else match prop "errors" parsed with
               | Some e => if js_truthy e then js_to_string e else text
               | None => text
               end
      | None =>
          match prop "errors" parsed with
          | Some e => if js_truthy e then js_to_string e else text
          | None => text
          end
      end
  end.

Definition make_request (method path : string) (body : option Json) : Request :=
  {| rq_method := method;
     rq_url := url this ++ path;
     rq_headers := [("Authorization", apiKey this);
                    ("Accept", "application/json");
                    ("Content-Type", "application/json")];
     rq_body := match body with
                | Some b => if js_truthy b then Some b else None
                | None => None
                end |}.

(** [request], up to and including the status check: the text of a 2xx
    answer. The timer is cleared when [fetch] settles, and the body is
    read after that, outside the [try]: an error of the read is thrown as
    it is. *)
Definition request_text (method path : string) (body : option Json) : M string :=
  fun w =>
    let rq := make_request method path body in
    let (ev, remote') := net rq (remote w) in
    let w' := {| remote := remote'; calls := calls w ++ [rq] |} in
    match fetch (timer_delay (timeout this)) ev with
    | inr err => (Throw (fetch_failure err), w')
    | inl (Unreadable why) => (Throw (be_message why), w')
    | inl (Readable response) =>
        if ok response then (Ok (text response), w')
        else (Throw (status_prefix (status response) ++ ": "
                       ++ error_detail (text response)), w')
    end.

(** [request<T>(method, path, body)], the overload with
    [rawResponse = false]. *)
Definition request (method path : string) (body : option Json) : M Json :=
  text <- request_text method path body ;;
  match JSON_parse text with
  | Some j => ret j
  | None => throw ("Failed to parse MISP response as JSON: " ++ substring 0 200 text)
  end.

(** [request(method, path, body, true)], the overload returning the text. *)
Definition request_raw (method path : string) (body : option Json) : M string :=
  request_text method path body.

Definition searchEvents_body (params : SearchEventsParams.t) : Json :=
  JObj ([("returnFormat", JStr "json");
         ("limit", JNum (match SearchEventsParams.limit params with
                         | Some n => n
                         | None => 50%Z
                         end))]
        ++ field_str "value" (SearchEventsParams.value params)
        ++ field_str "type" (SearchEventsParams.type params)
        ++ field_str "category" (SearchEventsParams.category params)
        ++ match SearchEventsParams.tags params with
           | Some l => [("tags", JArr (map JStr l))]
           | None => []
           end
        ++ field_str "eventid" (SearchEventsParams.eventid params)
        ++ field_str "org" (SearchEventsParams.org params)
        ++ field_str "from" (SearchEventsParams.dateFrom params)
        ++ field_str "to" (SearchEventsParams.dateTo params)
        ++ field_str "last" (SearchEventsParams.last params)
        ++ match SearchEventsParams.published params with
           | Some b => [("published", bit b)]
           | None => []
           end
        ++ match SearchEventsParams.page params with
           | Some n => field_if (negb (Z.eqb n 0)) "page" (JNum n)
           | None => []
           end).

Definition searchEvents (params : SearchEventsParams.t) : M (list (option MispEvent.t)) :=
  data <- request "POST" "/events/restSearch" (Some (searchEvents_body params)) ;;
  response <- get "response" (Some data) ;;
  mapM (fun r => e <- get "Event" (Some r) ;;
                 ret (option_map as_MispEvent (as_object e)))
       (match as_array response with Some l => l | None => [] end).

Definition getEvent (eventId : string) : M (option MispEvent.t) :=
  data <- request "GET" ("/events/view/" ++ eventId) None ;;
  e <- get "Event" (Some data) ;;
  ret (option_map as_MispEvent (as_object e)).

Definition tagEvent (eventId tag : string) : M Json :=
  request "POST" "/events/addTag"
    (Some (JObj [("event", JStr eventId); ("tag", JStr tag)])).

Definition createEvent_body (params : CreateEventParams.t) : Json :=
  JObj [("Event",
         JObj ([("info", JStr (CreateEventParams.info params));
                ("distribution", JNum (CreateEventParams.distribution params));
                ("threat_level_id", JNum (CreateEventParams.threat_level_id params));
                ("analysis", JNum (CreateEventParams.analysis params))]
               ++ field_str "date" (CreateEventParams.date params)
               ++ match CreateEventParams.published params with
                  | Some true => [("published", JBool true)]
                  | _ => []
                  end))].

Definition createEvent (params : CreateEventParams.t) : M (option MispEvent.t) :=
  data <- request "POST" "/events/add" (Some (createEvent_body params)) ;;
  let original :=
    e <- get "Event" (Some data) ;;
    ret (option_map as_MispEvent (as_object e)) in
  match CreateEventParams.tags params with
  | Some ((_ :: _) as tags) =>
      e <- get "Event" (Some data) ;;
      id <- get "id" e ;;
      match as_string id with
      | Some id =>
          if negb (String.eqb id "") then
            forM_ tags (fun tag => tagEvent id tag) ;;;
            getEvent id
          else original
      | None => original
      end
  | _ => original
  end.

Definition searchAttributes_body (params : SearchAttributesParams.t) : Json :=
  JObj ([("returnFormat", JStr "json");
         ("limit", JNum (match SearchAttributesParams.limit params with
                         | Some n => n
                         | None => 50%Z
                         end))]
        ++ field_str "value" (SearchAttributesParams.value params)
        ++ field_str "type" (SearchAttributesParams.type params)
        ++ field_str "category" (SearchAttributesParams.category params)
        ++ match SearchAttributesParams.tags params with
           | Some l => [("tags", JArr (map JStr l))]
           | None => []
           end
        ++ match SearchAttributesParams.to_ids params with
           | Some b => [("to_ids", bit b)]
           | None => []
           end
        ++ match SearchAttributesParams.includeCorrelations params with
           | Some true => [("includeCorrelations", JNum 1)]
           | _ => []
           end
        ++ field_str "last" (SearchAttributesParams.last params)).

Definition searchAttributes (params : SearchAttributesParams.t) : M (list MispAttribute.t) :=
  data <- request "POST" "/attributes/restSearch" (Some (searchAttributes_body params)) ;;
  response <- get "response" (Some data) ;;
  ret (match as_array (opt_prop "Attribute" response) with
       | Some l => map as_MispAttribute l
       | None => []
       end).

Definition addAttribute_body (params : AddAttributeParams.t) : Json :=
  JObj ([("type", JStr (AddAttributeParams.type params));
         ("value", JStr (AddAttributeParams.value params))]
        ++ field_str "category" (AddAttributeParams.category params)
        ++ match AddAttributeParams.to_ids params with
           | Some b => [("to_ids", JBool b)]
           | None => []
           end
        ++ field_str "comment" (AddAttributeParams.comment params)
        ++ match AddAttributeParams.distribution params with
           | Some d => [("distribution", JNum d)]
           | None => []
           end).

Definition addAttribute (eventId : string) (params : AddAttributeParams.t)
  : M (option MispAttribute.t) :=
  data <- request "POST" ("/attributes/add/" ++ eventId) (Some (addAttribute_body params)) ;;
  let result :=
    a <- get "Attribute" (Some data) ;;
    ret (option_map as_MispAttribute (as_object a)) in
  match AddAttributeParams.tags params with
  | Some ((_ :: _) as tags) =>
      a <- get "Attribute" (Some data) ;;
      match as_string (opt_prop "id" a) with
      | Some id =>
          if negb (String.eqb id "") then
            forM_ tags (fun tag =>
              request "POST" "/attributes/addTag"
                (Some (JObj [("attribute", JStr id); ("tag", JStr tag)]))) ;;;
            result
          else result
      | None => result
      end
  | _ => result
  end.

End MispClient.

(* ================================================================= *)
(** ** Host library: [Map] and [Array.prototype.sort] *)

(** A [Map] keyed by (possibly undefined) strings: the entries in
    insertion order. [set] on a key already present replaces the value
    and keeps the position. *)
Definition JsMap (V : Type) : Type := list (option string * V).

Fixpoint map_get {V : Type} (k : option string) (m : JsMap V) : option V :=
  match m with
  | [] => None
  | (k', v) :: r => if opt_string_eqb k k' then Some v else map_get k r
  end.

Definition map_has {V : Type} (k : option string) (m : JsMap V) : bool :=
  match map_get k m with Some _ => true | None => false end.

Fixpoint map_set {V : Type} (k : option string) (v : V) (m : JsMap V) : JsMap V :=
  match m with
  | [] => [(k, v)]
  | (k', v') :: r =>
      if opt_string_eqb k k' then (k', v) :: r else (k', v') :: map_set k v r
  end.

(** [m.get(k)!] followed by a mutation [f] of the entry found, in place. *)
Fixpoint map_modify {V : Type} (k : option string) (f : V -> V) (m : JsMap V) : JsMap V :=
  match m with
  | [] => []
  | (k', v) :: r =>
      if opt_string_eqb k k' then (k', f v) :: r else (k', v) :: map_modify k f r
  end.

Definition map_keys {V : Type} (m : JsMap V) : list (option string) := map fst m.
Definition map_values {V : Type} (m : JsMap V) : list V := map snd m.
Definition map_size {V : Type} (m : JsMap V) : nat := List.length m.

(** [a.includes(x)] on an array of strings. *)
Definition includes (x : option string) (a : list (option string)) : bool :=
  existsb (opt_string_eqb x) a.

(** [Array.prototype.sort(cmp)]: a stable sort (ECMAScript 2019); an
    element moves in front of another only when [cmp] orders it strictly
    before. *)
Fixpoint sort_insert {A : Type} (cmp : A -> A -> Z) (x : A) (l : list A) : list A :=
  match l with
  | [] => [x]
  | y :: r => if (cmp x y <=? 0)%Z then x :: y :: r else y :: sort_insert cmp x r
  end.

Definition js_sort {A : Type} (cmp : A -> A -> Z) (l : list A) : list A :=
  fold_right (sort_insert cmp) [] l.

(* ================================================================= *)
(** ** Results of the tools *)

(** What a handler returns: its [content] text, either a plain message or
    [JSON.stringify(result, null, 2)] of a result object (kept structured
    here; a field holding [None] is omitted by [JSON.stringify]), or an
    error ([isError: true]). *)
Inductive ToolResult (R : Type) : Type :=
| ToolText (text : string)
| ToolJson (result : R)
| ToolError (text : string).
Arguments ToolText {R} text.
Arguments ToolJson {R} result.
Arguments ToolError {R} text.

Module AttributeSummary.
Record t : Type := mk {
  id : option string;
  type : option string;
  category : option string;
  value : option string
}.
End AttributeSummary.

Module EventGroup.
Record t : Type := mk {
  event_id : option string;
  event_info : string;
  attributes : list AttributeSummary.t
}.
End EventGroup.

Module Correlation.
Record t : Type := mk {
  value : option string;
  type : option string;
  event_id : option string
}.
End Correlation.

Module CorrelateResult.
Record t : Type := mk {
  searched_value : string;
  found_in_events : list EventGroup.t;
  total_events : nat;
  total_attributes : nat;
  correlations : option (list Correlation.t)
}.
End CorrelateResult.

Module RelatedEntry.
Record t : Type := mk {
  event_id : option string;
  event_info : option string;
  overlapping_iocs : list (option string);
  correlation_count : nat
}.
End RelatedEntry.

Module RelatedResult.
Record t : Type := mk {
  event_id : string;
  event_info : option string;
  related_events : list RelatedEntry.t;
  total_related : nat
}.
End RelatedResult.

Module BulkItem.
Record t : Type := mk {
  type : string;
  value : string;
  category : option string;
  toIds : option bool;
  comment : option string
}.
End BulkItem.

Module BulkEntry.
Record t : Type := mk {
  value : string;
  type : string;
  id : option string;
  error : option string
}.
End BulkEntry.

Module BulkResult.
Record t : Type := mk {
  total : nat;
  succeeded : nat;
  failed : nat;
  results : list BulkEntry.t
}.
End BulkResult.

(* ================================================================= *)
(** ** The tool handlers *)

Section Tools.
Context {P : Platform}.
Variable client : MispConfig.

(** [for (const x of l) { s = await f(s, x); }] over a mutable state [s]. *)
Fixpoint foldM {A S : Type} (f : S -> A -> M S) (l : list A) (s : S) : M S :=
  match l with
  | [] => ret s
  | x :: r => s' <- f s x ;; foldM f r s'
  end.

(** The [try { ... } catch (err) { return { ..., isError: true } }] that
    wraps every handler. *)
Definition handle {R : Type} (prefix : string) (m : M (ToolResult R))
  : World -> ToolResult R * World :=
  fun w =>
    match m w with
    | (Ok r, w') => (r, w')
    | (Throw e, w') => (ToolError (prefix ++ e), w')
    end.

(** [x || "Unknown"] *)
Definition or_unknown (s : option string) : string :=
  match s with
  | Some s => if String.eqb s "" then "Unknown" else s
  | None => "Unknown"
  end.

(** [attr.Event?.info] *)
Definition Event_info (attr : MispAttribute.t) : option string :=
  match MispAttribute.Event attr with
  | Some e => EventHead.info e
  | None => None
  end.

(** *** [misp_correlate] *)

Definition summary (attr : MispAttribute.t) : AttributeSummary.t :=
  {| AttributeSummary.id := MispAttribute.id attr;
     AttributeSummary.type := MispAttribute.type attr;
     AttributeSummary.category := MispAttribute.category attr;
     AttributeSummary.value := MispAttribute.value attr |}.

Definition push_attribute (s : AttributeSummary.t) (g : EventGroup.t) : EventGroup.t :=
  {| EventGroup.event_id := EventGroup.event_id g;
     EventGroup.event_info := EventGroup.event_info g;
     EventGroup.attributes := EventGroup.attributes g ++ [s] |}.

(** The body of the first loop: aggregate by event. *)
Definition aggregate_step (eventMap : JsMap EventGroup.t) (attr : MispAttribute.t)
  : JsMap EventGroup.t :=
  let eid := MispAttribute.event_id attr in
  let eventMap :=
    if negb (map_has eid eventMap)
    then map_set eid {| EventGroup.event_id := eid;
                        EventGroup.event_info := or_unknown (Event_info attr);
                        EventGroup.attributes := [] |} eventMap
    else eventMap in
  map_modify eid (push_attribute (summary attr)) eventMap.

Definition correlation_of (rel : RelatedAttribute.t) : Correlation.t :=
  {| Correlation.value := RelatedAttribute.value rel;
     Correlation.type := RelatedAttribute.type rel;
     Correlation.event_id := RelatedAttribute.event_id rel |}.

(** The body of the second loop: collect related attributes. *)
Definition collect_step (correlations : list Correlation.t) (attr : MispAttribute.t)
  : list Correlation.t :=
  match MispAttribute.RelatedAttribute attr with
  | Some rels => fold_left (fun acc rel => (acc ++ [correlation_of rel])%list) rels correlations
  | None => correlations
  end.

Definition correlate_result (value : string) (attributes : list MispAttribute.t)
  : CorrelateResult.t :=
  let eventMap := fold_left aggregate_step attributes [] in
  let correlations := fold_left collect_step attributes [] in
  {| CorrelateResult.searched_value := value;
     CorrelateResult.found_in_events := map_values eventMap;
     CorrelateResult.total_events := map_size eventMap;
     CorrelateResult.total_attributes := List.length attributes;
     CorrelateResult.correlations :=
       if (0 <? List.length correlations)%nat then Some correlations else None |}.

Definition correlate_search (value : string) : SearchAttributesParams.t :=
  {| SearchAttributesParams.value := Some value;
     SearchAttributesParams.type := None;
     SearchAttributesParams.category := None;
     SearchAttributesParams.tags := None;
     SearchAttributesParams.to_ids := None;
     SearchAttributesParams.includeCorrelations := Some true;
     SearchAttributesParams.last := None;
     SearchAttributesParams.limit := None |}.

Definition misp_correlate (value : string)
  : World -> ToolResult CorrelateResult.t * World :=
  handle "Error correlating value: "
    (attributes <- searchAttributes client (correlate_search value) ;;
     if (List.length attributes =? 0)%nat
     then ret (ToolText ("No results found for " ++ dq ++ value ++ dq ++ " in MISP."))
     else ret (ToolJson (correlate_result value attributes))).

(** *** [misp_get_related_events] *)

(** The seeding loop over [event.RelatedEvent]; reading [rel.Event.id]
    throws when an element has no [Event]. *)
Definition seed_step (relatedMap : JsMap RelatedEntry.t) (rel : option EventHead.t)
  : M (JsMap RelatedEntry.t) :=
  match rel with
  | None => throw "Cannot read properties of undefined (reading 'id')"
  | Some e =>
      ret (map_set (EventHead.id e)
             {| RelatedEntry.event_id := EventHead.id e;
                RelatedEntry.event_info := EventHead.info e;
                RelatedEntry.overlapping_iocs := [];
                RelatedEntry.correlation_count := 0 |} relatedMap)
  end.

(** The mutation of the entry of a match: record the value once, count
    the occurrence. *)
Definition record_match (value : option string) (entry : RelatedEntry.t) : RelatedEntry.t :=
  {| RelatedEntry.event_id := RelatedEntry.event_id entry;
     RelatedEntry.event_info := RelatedEntry.event_info entry;
     RelatedEntry.overlapping_iocs :=
       if negb (includes value (RelatedEntry.overlapping_iocs entry))
       then RelatedEntry.overlapping_iocs entry ++ [value]
       else RelatedEntry.overlapping_iocs entry;
     RelatedEntry.correlation_count := S (RelatedEntry.correlation_count entry) |}.

(** The body of the inner loop, for one match of the searched value. *)
Definition match_step (eventId : string) (value : option string)
  (relatedMap : JsMap RelatedEntry.t) (m : MispAttribute.t) : JsMap RelatedEntry.t :=
  let eid := MispAttribute.event_id m in
  if negb (opt_string_eqb eid (Some eventId)) then
    let relatedMap :=
      if negb (map_has eid relatedMap)
      then map_set eid {| RelatedEntry.event_id := eid;
                          RelatedEntry.event_info := Some (or_unknown (Event_info m));
                          RelatedEntry.overlapping_iocs := [];
                          RelatedEntry.correlation_count := 0 |} relatedMap
      else relatedMap in
    map_modify eid (record_match value) relatedMap
  else relatedMap.

Definition valuesToSearch (eventAttributes : list MispAttribute.t) : list (option string) :=
  map MispAttribute.value (firstn 20 (filter MispAttribute.to_ids eventAttributes)).

Definition related_search (value : option string) : SearchAttributesParams.t :=
  {| SearchAttributesParams.value := value;
     SearchAttributesParams.type := None;
     SearchAttributesParams.category := None;
     SearchAttributesParams.tags := None;
     SearchAttributesParams.to_ids := None;
     SearchAttributesParams.includeCorrelations := Some true;
     SearchAttributesParams.last := None;
     SearchAttributesParams.limit := None |}.

(** The body of the outer loop: one search, then the matches in order. *)
Definition search_step (eventId : string) (relatedMap : JsMap RelatedEntry.t)
  (value : option string) : M (JsMap RelatedEntry.t) :=
  matches <- searchAttributes client (related_search value) ;;
  ret (fold_left (match_step eventId value) matches relatedMap).

(** [(a, b) => b.correlation_count - a.correlation_count] *)
Definition by_count_desc (a b : RelatedEntry.t) : Z :=
  (Z.of_nat (RelatedEntry.correlation_count b)
   - Z.of_nat (RelatedEntry.correlation_count a))%Z.

Definition misp_get_related_events (eventId : string)
  : World -> ToolResult RelatedResult.t * World :=
  handle "Error finding related events: "
    (event <- getEvent client eventId ;;
     match event with
     | None => throw "Cannot read properties of undefined (reading 'Attribute')"
     | Some event =>
         let eventAttributes :=
           match MispEvent.Attribute event with Some l => l | None => [] end in
         if (List.length eventAttributes =? 0)%nat
         then ret (ToolText ("Event " ++ eventId ++ " has no attributes to correlate."))
         else
           relatedMap <-
             foldM seed_step
               (match MispEvent.RelatedEvent event with Some l => l | None => [] end)
               [] ;;
           relatedMap <-
             foldM (search_step eventId) (valuesToSearch eventAttributes) relatedMap ;;
           let related := js_sort by_count_desc (map_values relatedMap) in
           ret (ToolJson {| RelatedResult.event_id := eventId;
                            RelatedResult.event_info := MispEvent.info event;
                            RelatedResult.related_events := related;
                            RelatedResult.total_related := List.length related |})
     end).

(** *** [misp_add_attributes_bulk] *)

Definition bulk_params (attr : BulkItem.t) : AddAttributeParams.t :=
  {| AddAttributeParams.type := BulkItem.type attr;
     AddAttributeParams.value := BulkItem.value attr;
     AddAttributeParams.category := BulkItem.category attr;
     AddAttributeParams.to_ids := BulkItem.toIds attr;
     AddAttributeParams.comment := BulkItem.comment attr;
     AddAttributeParams.distribution := None;
     AddAttributeParams.tags := None |}.

(** One unit: the inner [try]/[catch] around [client.addAttribute].
    Reading [created.id] throws when the create returned no attribute
    object (the message is the one for [undefined]; it names [null] when
    the answer holds [null] there). *)
Definition bulk_unit (eventId : string) (attr : BulkItem.t) : M BulkEntry.t :=
  try_catch
    (created <- addAttribute client eventId (bulk_params attr) ;;
     match created with
     | None => throw "Cannot read properties of undefined (reading 'id')"
     | Some created =>
         ret {| BulkEntry.value := BulkItem.value attr;
                BulkEntry.type := BulkItem.type attr;
                BulkEntry.id := MispAttribute.id created;
                BulkEntry.error := None |}
     end)
    (fun message =>
       ret {| BulkEntry.value := BulkItem.value attr;
              BulkEntry.type := BulkItem.type attr;
              BulkEntry.id := None;
              BulkEntry.error := Some message |}).

Definition bulk_step (eventId : string) (results : list BulkEntry.t) (attr : BulkItem.t)
  : M (list BulkEntry.t) :=
  entry <- bulk_unit eventId attr ;;
  ret (results ++ [entry])%list.

Definition misp_add_attributes_bulk (eventId : string) (attributes : list BulkItem.t)
  : World -> ToolResult BulkResult.t * World :=
  handle "Error adding attributes: "
    (results <- foldM (bulk_step eventId) attributes [] ;;
     let succeeded := filter (fun r => truthy_str (BulkEntry.id r)) results in
     let failed := filter (fun r => truthy_str (BulkEntry.error r)) results in
     ret (ToolJson {| BulkResult.total := List.length attributes;
                      BulkResult.succeeded := List.length succeeded;
                      BulkResult.failed := List.length failed;
                      BulkResult.results := results |})).

End Tools.

(* ================================================================= *)
(** ** Host library: strings, URI encoding, [parseInt], [Object.prototype]

    A string is the sequence of its UTF-16 code units; the functions below
    cover the strings whose code units are all below 256. *)

(** White space and line terminators, among the code units below 256. *)
Definition is_white_space (c : ascii) : bool :=
  let n := nat_of_ascii c in
  ((9 <=? n)%nat && (n <=? 13)%nat) || (n =? 32)%nat || (n =? 160)%nat.

(** [s.replace(/c+$/, "")] for the characters [c] that satisfy [p]: the
    trailing run of such characters is removed. *)
Fixpoint strip_end (p : ascii -> bool) (s : string) : string :=
  match s with
  | EmptyString => EmptyString
  | String c r =>
      let r' := strip_end p r in
      if p c && String.eqb r' "" then EmptyString else String c r'
  end.

Fixpoint strip_start (p : ascii -> bool) (s : string) : string :=
  match s with
  | EmptyString => EmptyString
  | String c r => if p c then strip_start p r else s
  end.

(** [s.trim()] *)
Definition trim (s : string) : string :=
  strip_end is_white_space (strip_start is_white_space s).

(** The characters [encodeURIComponent] leaves as they are. *)
Definition is_unreserved (c : ascii) : bool :=
  let n := nat_of_ascii c in
  ((48 <=? n)%nat && (n <=? 57)%nat) || ((65 <=? n)%nat && (n <=? 90)%nat)
  || ((97 <=? n)%nat && (n <=? 122)%nat)
  || existsb (Ascii.eqb c) (list_ascii_of_string "-_.!~*'()").

Definition hex_digit (n : nat) : ascii :=
  nth n (list_ascii_of_string "0123456789ABCDEF") "0"%char.

Definition percent (byte : nat) : string :=
  String "%" (String (hex_digit (byte / 16)) (String (hex_digit (byte mod 16)) "")).

(** One code unit below 256, escaped through its UTF-8 encoding. *)
Definition encode_unit (c : ascii) : string :=
  let n := nat_of_ascii c in
  if is_unreserved c then String c ""
  else if (n <? 128)%nat then percent n
  else percent (192 + n / 64) ++ percent (128 + n mod 64).

Fixpoint encodeURIComponent (s : string) : string :=
  match s with
  | EmptyString => EmptyString
  | String c r => encode_unit c ++ encodeURIComponent r
  end.

Definition digit_of (c : ascii) : option (Decimal.uint -> Decimal.uint) :=
  match c with
  | "0" => Some Decimal.D0
  | "1" => Some Decimal.D1
  | "2" => Some Decimal.D2
  | "3" => Some Decimal.D3
  | "4" => Some Decimal.D4
  | "5" => Some Decimal.D5
  | "6" => Some Decimal.D6
  | "7" => Some Decimal.D7
  | "8" => Some Decimal.D8
  | "9" => Some Decimal.D9
  | _ => None
  end%char.

(** The longest prefix of decimal digits. *)
Fixpoint digits_prefix (s : string) : Decimal.uint :=
  match s with
  | EmptyString => Decimal.Nil
  | String c r =>
      match digit_of c with
      | Some d => d (digits_prefix r)
      | None => Decimal.Nil
      end
  end.

Definition number_of_digits (d : Decimal.uint) : option Z :=
  match d with
  | Decimal.Nil => None
  | _ => Some (Z.of_N (N.of_uint d))
  end.

(** [parseInt(s, 10)]: leading white space is skipped, a sign is read,
    then the longest prefix of digits; [None] is [NaN]. The result is the
    mathematical value, which a number holds exactly below 2^53. *)
Definition parseInt10 (s : string) : option Z :=
  match strip_start is_white_space s with
  | String "-" r => option_map Z.opp (number_of_digits (digits_prefix r))
  | String "+" r => number_of_digits (digits_prefix r)
  | r => number_of_digits (digits_prefix r)
  end.

(** What a property read finds on [Object.prototype] when the object has
    no own property of that name: a built-in function (with its [name] and
    [length]), or, for [__proto__], the prototype object itself. *)
Inductive Inherited : Type :=
| NativeFunction (name : string) (length : nat)
| PrototypeObject.

Definition Object_prototype (k : string) : option Inherited :=
  assoc k
    [("constructor", NativeFunction "Object" 1);
     ("__defineGetter__", NativeFunction "__defineGetter__" 2);
     ("__defineSetter__", NativeFunction "__defineSetter__" 2);
     ("hasOwnProperty", NativeFunction "hasOwnProperty" 1);
     ("__lookupGetter__", NativeFunction "__lookupGetter__" 1);
     ("__lookupSetter__", NativeFunction "__lookupSetter__" 1);
     ("isPrototypeOf", NativeFunction "isPrototypeOf" 1);
     ("propertyIsEnumerable", NativeFunction "propertyIsEnumerable" 1);
     ("toString", NativeFunction "toString" 0);
     ("valueOf", NativeFunction "valueOf" 0);
     ("__proto__", PrototypeObject);
     ("toLocaleString", NativeFunction "toLocaleString" 0)].

(** [String(v)] of an inherited value, as a template literal applies it. *)
Definition inherited_to_string (i : Inherited) : string :=
  match i with
  | NativeFunction name _ => "function " ++ name ++ "() { [native code] }"
  | PrototypeObject => "[object Object]"
  end.

(** [o[k]] for a key known only at run time, on an object that is
    neither [null] nor [undefined]: the own property, else what
    [Object.prototype] holds. The interfaces declare an object; on a
    value of another kind the model consults [Object.prototype] only,
    which is not all the code finds there (an array has its indices and
    [length]): the properties below are stated for objects. *)
Inductive Lookup : Type :=
| Own (v : Json)
| FromPrototype (i : Inherited)
| Missing.

Definition js_lookup (k : string) (o : Json) : Lookup :=
  match prop k o with
  | Some v => Own v
  | None =>
      match Object_prototype k with
      | Some i => FromPrototype i
      | None => Missing
      end
  end.

(* ================================================================= *)
(** ** Configuration ([src/config.ts]) *)

(** [process.env] *)
Definition Env : Type := string -> option string.

(** The configuration as [getConfig] computes it; [timeout] is [None]
    when the computation yields [NaN]. *)
Module EnvConfig.
Record t : Type := mk {
  url : string;
  apiKey : string;
  verifySsl : bool;
  timeout : option Z
}.
End EnvConfig.

Definition is_slash (c : ascii) : bool := Ascii.eqb c "/".

Definition getConfig (env : Env) : Outcome EnvConfig.t :=
  match env "MISP_URL" with
  | None => Throw "MISP_URL environment variable is required"
  | Some url =>
      if String.eqb url "" then Throw "MISP_URL environment variable is required"
      else
        match env "MISP_API_KEY" with
        | None => Throw "MISP_API_KEY environment variable is required"
        | Some apiKey =>
            if String.eqb apiKey ""
            then Throw "MISP_API_KEY environment variable is required"
            else
              Ok {| EnvConfig.url := strip_end is_slash url;
                    EnvConfig.apiKey := apiKey;
                    EnvConfig.verifySsl :=
                      negb (opt_string_eqb (env "MISP_VERIFY_SSL") (Some "false"));
                    EnvConfig.timeout :=
                      option_map (fun n => (n * 1000)%Z)
                        (parseInt10 (match env "MISP_TIMEOUT" with
                                     | Some s => s
                                     | None => "30"
                                     end)) |}
        end
  end.

(* ================================================================= *)
(** ** More payloads, parameters and results *)

Module AddSightingParams.
Record t : Type := mk {
  attributeId : option string;
  value : option string;
  type : Z;
  source : option string;
  timestamp : option string
}.
End AddSightingParams.

Module ExportEventsParams.
Record t : Type := mk {
  eventId : option string;
  format : string;
  type : option string;
  tags : option (list string);
  last : option string
}.
End ExportEventsParams.

Module ExportHashesParams.
Record t : Type := mk {
  format : string;
  last : option string;
  tags : option (list string)
}.
End ExportHashesParams.

Module TagSummary.
Record t : Type := mk {
  id : option string;
  name : option string;
  colour : option string;
  event_count : option string;
  attribute_count : option string
}.
End TagSummary.

Module SightingResult.
Record t : Type := mk {
  id : option string;
  type : option string;
  attribute_id : option string;
  event_id : option string;
  source : option string;
  date_sighting : option string
}.
End SightingResult.

Module WarninglistSummary.
Record t : Type := mk {
  name : option string;
  category : option string;
  description : option string;
  type : option string
}.
End WarninglistSummary.

Module WarninglistResult.
Record t : Type := mk {
  value : string;
  on_warninglists : bool;
  match_count : nat;
  warninglists : list WarninglistSummary.t;
  note : string
}.
End WarninglistResult.

(* ================================================================= *)
(** ** [MispClient], the other methods *)

Section MispClientMore.
Context {P : Platform}.
Variable this : MispConfig.

Definition publishEvent (eventId : string) : M Json :=
  request this "POST" ("/events/publish/" ++ eventId) None.

Definition untagEvent (eventId tag : string) : M Json :=
  request this "POST" "/events/removeTag"
    (Some (JObj [("event", JStr eventId); ("tag", JStr tag)])).

(** [deleteAttribute(attributeId, hard = false)] *)
Definition deleteAttribute (attributeId : string) (hard : option bool) : M Json :=
  request this "POST" ("/attributes/delete/" ++ attributeId)
    (Some (match hard with
           | Some true => JObj [("hard", JNum 1)]
           | _ => JObj []
           end)).

Definition listTags_path (search : option string) : string :=
  match search with
  | Some s => if String.eqb s "" then "/tags"
              else "/tags/search/" ++ encodeURIComponent s
  | None => "/tags"
  end.

(** [data.Tag || []], read as the array the interface declares. *)
Definition listTags (search : option string) : M (list Json) :=
  data <- request this "GET" (listTags_path search) None ;;
  tags <- get "Tag" (Some data) ;;
  ret (match as_array tags with
       | Some l => l
       | None => []
       end).

Definition addSighting_body (params : AddSightingParams.t) : Json :=
  JObj ([("type", JNum (AddSightingParams.type params))]
        ++ field_str "value" (AddSightingParams.value params)
        ++ field_str "source" (AddSightingParams.source params)
        ++ field_str "timestamp" (AddSightingParams.timestamp params)).

Definition addSighting_path (params : AddSightingParams.t) : string :=
  match AddSightingParams.attributeId params with
  | Some id => if String.eqb id "" then "/sightings/add" else "/sightings/add/" ++ id
  | None => "/sightings/add"
  end.

Definition addSighting (params : AddSightingParams.t) : M (option Json) :=
  data <- request this "POST" (addSighting_path params) (Some (addSighting_body params)) ;;
  get "Sighting" (Some data).

Definition checkWarninglists (value : string) : M Json :=
  request this "POST" "/warninglists/checkValue" (Some (JArr [JStr value])).

Definition formatEndpoints : list (string * string) :=
  [("csv", "/events/csv/download");
   ("stix", "/events/stix/download");
   ("suricata", "/events/nids/suricata/download");
   ("snort", "/events/nids/snort/download");
   ("text", "/attributes/text/download");
   ("rpz", "/attributes/rpz/download")].

(** [formatEndpoints[params.format]], as the template literal of the URL
    renders it. *)
Definition formatEndpoints_get (format : string) : option string :=
  match assoc format formatEndpoints with
  | Some endpoint => Some endpoint
  | None => option_map inherited_to_string (Object_prototype format)
  end.

Definition exportEvents_body (params : ExportEventsParams.t) : Json :=
  JObj (field_str "eventid" (ExportEventsParams.eventId params)
        ++ field_str "type" (ExportEventsParams.type params)
        ++ match ExportEventsParams.tags params with
           | Some l => [("tags", JArr (map JStr l))]
           | None => []
           end
        ++ field_str "last" (ExportEventsParams.last params)).

Definition exportEvents (params : ExportEventsParams.t) : M string :=
  match formatEndpoints_get (ExportEventsParams.format params) with
  | None =>
      throw ("Unsupported export format: " ++ ExportEventsParams.format params
             ++ ". Supported: " ++ String.concat ", " (map fst formatEndpoints))
  | Some endpoint =>
      request_raw this "POST" endpoint (Some (exportEvents_body params))
  end.

Definition validFormats : list string := ["md5"; "sha1"; "sha256"].

Definition queryParts (params : ExportHashesParams.t) : list string :=
  List.app
    (match ExportHashesParams.last params with
     | Some l => if String.eqb l "" then [] else ["last=" ++ encodeURIComponent l]
     | None => []
     end)
    (match ExportHashesParams.tags params with
     | Some ts => ["tags=" ++ encodeURIComponent (String.concat "," ts)]
     | None => []
     end).

Definition exportHashes_path (params : ExportHashesParams.t) : string :=
  "/events/hids/" ++ ExportHashesParams.format params ++ "/download"
  ++ match queryParts params with
     | [] => ""
     | parts => "?" ++ String.concat "&" parts
     end.

Definition exportHashes (params : ExportHashesParams.t) : M string :=
  if negb (existsb (String.eqb (ExportHashesParams.format params)) validFormats)
  then throw ("Unsupported hash format: " ++ ExportHashesParams.format params
              ++ ". Supported: " ++ String.concat ", " validFormats)
  else request_raw this "GET" (exportHashes_path params) None.

End MispClientMore.

(* ================================================================= *)
(** ** The other tool handlers *)

Section ToolsMore.
Context {P : Platform}.
Variable client : MispConfig.

(** *** [misp_publish_event], [misp_tag_event] ([src/tools/events.ts]) *)

Definition misp_publish_event (eventId : string) : World -> ToolResult unit * World :=
  handle "Error publishing event: "
    (result <- publishEvent client eventId ;;
     message <- get "message" (Some result) ;;
     ret (ToolText (if truthy_str (as_string message)
                    then match as_string message with Some m => m | None => "" end
                    else "Event " ++ eventId ++ " published successfully."))).

Definition misp_tag_event (eventId tag : string) (remove : option bool)
  : World -> ToolResult unit * World :=
  handle "Error tagging event: "
    (match remove with
     | Some true =>
         untagEvent client eventId tag ;;;
         ret (ToolText ("Tag " ++ dq ++ tag ++ dq ++ " removed from event "
                        ++ eventId ++ "."))
     | _ =>
         tagEvent client eventId tag ;;;
         ret (ToolText ("Tag " ++ dq ++ tag ++ dq ++ " added to event "
                        ++ eventId ++ "."))
     end).

(** *** [misp_delete_attribute] ([src/tools/attributes.ts]) *)

Definition misp_delete_attribute (attributeId : string) (hard : option bool)
  : World -> ToolResult unit * World :=
  handle "Error deleting attribute: "
    (result <- deleteAttribute client attributeId hard ;;
     message <- get "message" (Some result) ;;
     ret (ToolText (if truthy_str (as_string message)
                    then match as_string message with Some m => m | None => "" end
                    else "Attribute " ++ attributeId ++ " deleted successfully."))).

(** *** [misp_list_tags] *)

Definition summarize_tag (t : Json) : M TagSummary.t :=
  id <- get "id" (Some t) ;;
  ret {| TagSummary.id := as_string id;
         TagSummary.name := as_string (prop "name" t);
         TagSummary.colour := as_string (prop "colour" t);
         TagSummary.event_count := as_string (prop "event_count" t);
         TagSummary.attribute_count := as_string (prop "attribute_count" t) |}.

(** [limit && limit > 0 ? tags.slice(0, limit) : tags], for a whole
    number [limit]. *)
Definition limited {A : Type} (limit : option Z) (tags : list A) : list A :=
  match limit with
  | Some n => if (0 <? n)%Z then firstn (Z.to_nat n) tags else tags
  | None => tags
  end.

Definition misp_list_tags (search : option string) (limit : option Z)
  : World -> ToolResult (list TagSummary.t) * World :=
  handle "Error listing tags: "
    (tags <- listTags client search ;;
     let tags := limited limit tags in
     if (List.length tags =? 0)%nat then ret (ToolText "No tags found.")
     else
       summary <- mapM summarize_tag tags ;;
       ret (ToolJson summary)).

(** *** [misp_add_sighting] ([src/tools/sightings.ts]) *)

Definition typeLabels : list string := ["Sighting"; "False positive"; "Expiration"].

(** [typeLabels[params.type]] *)
Definition typeLabel (type : Z) : option string :=
  if (type <? 0)%Z then None else nth_error typeLabels (Z.to_nat type).

Definition misp_add_sighting (params : AddSightingParams.t)
  : World -> ToolResult SightingResult.t * World :=
  handle "Error adding sighting: "
    (if negb (truthy_str (AddSightingParams.attributeId params))
        && negb (truthy_str (AddSightingParams.value params))
     then ret (ToolError "Either attributeId or value must be provided.")
     else
       sighting <- addSighting client params ;;
       id <- get "id" sighting ;;
       ret (ToolJson
              {| SightingResult.id := as_string id;
                 SightingResult.type := typeLabel (AddSightingParams.type params);
                 SightingResult.attribute_id := as_string (opt_prop "attribute_id" sighting);
                 SightingResult.event_id := as_string (opt_prop "event_id" sighting);
                 SightingResult.source := as_string (opt_prop "source" sighting);
                 SightingResult.date_sighting :=
                   as_string (opt_prop "date_sighting" sighting) |})).

(** *** [misp_check_warninglists] ([src/tools/warninglists.ts]) *)

Definition not_on_warninglists (value : string) : string :=
  dq ++ value ++ dq ++ " does not appear on any warninglists. This does not confirm it is malicious, but it is not a known benign indicator.".

Definition warninglist_note : string :=
  "This value appears on known benign/false positive lists. Exercise caution before treating it as malicious.".

Definition summarize_warninglist (w : Json) : M WarninglistSummary.t :=
  name <- get "name" (Some w) ;;
  ret {| WarninglistSummary.name := as_string name;
         WarninglistSummary.category := as_string (prop "category" w);
         WarninglistSummary.description := as_string (prop "description" w);
         WarninglistSummary.type := as_string (prop "type" w) |}.

Definition misp_check_warninglists (value : string)
  : World -> ToolResult WarninglistResult.t * World :=
  handle "Error checking warninglists: "
    (results <- checkWarninglists client value ;;
     match results with
     | JNull => throw ("Cannot read properties of null (reading '" ++ value ++ "')")
     | _ =>
         let nothing := ret (ToolText (not_on_warninglists value)) in
         let not_an_array := throw "matches.map is not a function" in
         match js_lookup value results with
         | Missing => nothing
         | FromPrototype (NativeFunction _ 0) => nothing
         | FromPrototype _ => not_an_array
         | Own (JArr matches) =>
             if (List.length matches =? 0)%nat then nothing
             else
               summary <- mapM summarize_warninglist matches ;;
               ret (ToolJson
                      {| WarninglistResult.value := value;
                         WarninglistResult.on_warninglists := true;
                         WarninglistResult.match_count := List.length matches;
                         WarninglistResult.warninglists := summary;
                         WarninglistResult.note := warninglist_note |})
         | Own (JObj fields) =>
             match assoc "length" fields with
             | Some (JNum 0) => nothing
             | _ => not_an_array
             end
         | Own v => if js_truthy v then not_an_array else nothing
         end
     end).

(** *** [misp_export_iocs], [misp_export_hashes] ([src/tools/exports.ts]) *)

(** [!output || output.trim().length === 0] *)
Definition is_blank (output : string) : bool :=
  String.eqb output "" || (String.length (trim output) =? 0)%nat.

Definition misp_export_iocs (params : ExportEventsParams.t)
  : World -> ToolResult unit * World :=
  handle "Error exporting IOCs: "
    (output <- exportEvents client params ;;
     if is_blank output
     then ret (ToolText ("No IOCs found for the specified criteria in "
                         ++ ExportEventsParams.format params ++ " format."))
     else ret (ToolText output)).

Definition misp_export_hashes (params : ExportHashesParams.t)
  : World -> ToolResult unit * World :=
  handle "Error exporting hashes: "
    (output <- exportHashes client params ;;
     if is_blank output
     then ret (ToolText ("No " ++ ExportHashesParams.format params
                         ++ " hashes found for the specified criteria."))
     else ret (ToolText output)).

End ToolsMore.

(* ================================================================= *)
(** ** A scripted platform, to run the client on concrete exchanges *)

(** [JSON.stringify], for strings that need no escaping. *)
Fixpoint stringify (j : Json) : string :=
  match j with
  | JNull => "null"
  | JBool true => "true"
  | JBool false => "false"
  | JNum n => show_Z n
  | JStr s => dq ++ s ++ dq
  | JArr l =>
      "[" ++ (fix items (l : list Json) : string :=
                match l with
                | [] => ""
                | x :: r =>
                    match r with
                    | [] => stringify x
                    | _ :: _ => stringify x ++ "," ++ items r
                    end
                end) l ++ "]"
  | JObj fs =>
      "{" ++ (fix members (fs : list (string * Json)) : string :=
                match fs with
                | [] => ""
                | (k, v) :: r =>
                    match r with
                    | [] => dq ++ k ++ dq ++ ":" ++ stringify v
                    | _ :: _ => dq ++ k ++ dq ++ ":" ++ stringify v ++ "," ++ members r
                    end
                end) fs ++ "}"
  end.

(** The remote replays a script, one network event per request, and hangs
    once the script is exhausted; [JSON_parse] inverts [stringify] on the
    given payloads and rejects every other text (the examples send either
    the serialisation of a payload or a text that is not JSON). *)
Definition scripted (payloads : list Json) : Platform :=
  {| Remote := list NetEvent;
     net := fun _ script =>
              match script with
              | [] => (Hangs, [])
              | ev :: rest => (ev, rest)
              end;
     JSON_parse := fun s => find (fun j => String.eqb (stringify j) s) payloads |}.

Definition start {payloads : list Json} (script : list NetEvent)
  : @World (scripted payloads) :=
  {| remote := (script : @Remote (scripted payloads)); calls := [] |}.

(** A 2xx answer carrying the payload [j], received at once. *)
Definition replies (j : Json) : NetEvent :=
  Arrives 0 {| status := 200; text := stringify j |}.

Definition example_config : MispConfig :=
  {| url := "https://misp.example.com";
     apiKey := "test-api-key-12345";
     verifySsl := true;
     timeout := 30000 |}.

(* ================================================================= *)
(** ** Example exchanges *)

Definition attribute_json (id event_id type value : string) (to_ids : bool) : Json :=
  JObj [("id", JStr id); ("event_id", JStr event_id); ("type", JStr type);
        ("category", JStr "Network activity"); ("value", JStr value);
        ("to_ids", JBool to_ids)].

Definition search_answer (attributes : list Json) : Json :=
  JObj [("response", JObj [("Attribute", JArr attributes)])].

Definition no_hits : Json := search_answer [].
Definition empty_object : Json := JObj [].

(** Two attributes holding 10.0.0.1, in events 42 and 43; the platform
    reports one related attribute for the first. *)
Definition hits_10_0_0_1 : Json :=
  search_answer
    [JObj [("id", JStr "200"); ("event_id", JStr "42"); ("type", JStr "ip-src");
           ("category", JStr "Network activity"); ("value", JStr "10.0.0.1");
           ("to_ids", JBool true);
           ("Event", JObj [("info", JStr "Ransomware incident")]);
           ("RelatedAttribute",
            JArr [JObj [("id", JStr "300"); ("value", JStr "10.0.0.1");
                        ("type", JStr "ip-dst"); ("event_id", JStr "43")]])];
     attribute_json "400" "43" "ip-dst" "10.0.0.1" true].

(** Event 42: two detection-flagged attributes and one that is not. *)
Definition event_42 : Json :=
  JObj [("Event",
         JObj [("id", JStr "42"); ("info", JStr "Ransomware incident");
               ("Attribute",
                JArr [attribute_json "1" "42" "domain" "evil.com" true;
                      attribute_json "2" "42" "comment" "seen on monday" false;
                      attribute_json "3" "42" "domain" "bad.org" true])])].

(** The matches of evil.com: events 43, 44, 45, 43 again, and the source. *)
Definition hits_evil_com : Json :=
  search_answer
    [attribute_json "10" "43" "domain" "evil.com" true;
     attribute_json "11" "44" "domain" "evil.com" true;
     attribute_json "12" "45" "domain" "evil.com" true;
     attribute_json "13" "43" "hostname" "evil.com" true;
     attribute_json "1" "42" "domain" "evil.com" true].

(** The matches of bad.org: events 45, 43 and 45 again. *)
Definition hits_bad_org : Json :=
  search_answer
    [attribute_json "20" "45" "domain" "bad.org" true;
     attribute_json "21" "43" "domain" "bad.org" true;
     attribute_json "22" "45" "hostname" "bad.org" true].

Definition created_event : Json :=
  JObj [("Event", JObj [("id", JStr "7"); ("info", JStr "Phishing wave")])].

Definition refetched_event : Json :=
  JObj [("Event", JObj [("id", JStr "7"); ("info", JStr "Phishing wave");
                        ("Attribute", JArr [])])].

Definition tag_saved : Json := JObj [("saved", JBool true)].

Definition created_attribute : Json :=
  JObj [("Attribute", attribute_json "300" "42" "domain" "evil.com" true)].

Definition attribute_without_id : Json :=
  JObj [("Attribute",
         JObj [("event_id", JStr "42"); ("type", JStr "domain");
               ("value", JStr "evil.com")])].

Definition forbidden : Json := JObj [("message", JStr "Duplicate value")].

(** The platform of the examples. *)
Definition lab : Platform :=
  scripted [no_hits; empty_object; hits_10_0_0_1; event_42; hits_evil_com;
            hits_bad_org; created_event; refetched_event; tag_saved;
            created_attribute; attribute_without_id; forbidden].

Definition lab_start (script : list NetEvent) : @World lab :=
  {| remote := (script : @Remote lab); calls := [] |}.



(** A non-2xx answer carrying the payload [j]. *)
Definition refuses (st : N) (j : Json) : NetEvent :=
  Arrives 0 {| status := st; text := stringify j |}.

Definition no_filters : SearchEventsParams.t :=
  {| SearchEventsParams.value := None;
     SearchEventsParams.type := None;
     SearchEventsParams.category := None;
     SearchEventsParams.tags := None;
     SearchEventsParams.eventid := None;
     SearchEventsParams.org := None;
     SearchEventsParams.dateFrom := None;
     SearchEventsParams.dateTo := None;
     SearchEventsParams.last := None;
     SearchEventsParams.published := None;
     SearchEventsParams.limit := None;
     SearchEventsParams.page := None |}.

Definition tagged_event_params : CreateEventParams.t :=
  {| CreateEventParams.info := "Phishing wave";
     CreateEventParams.distribution := 0;
     CreateEventParams.threat_level_id := 2;
     CreateEventParams.analysis := 0;
     CreateEventParams.date := None;
     CreateEventParams.tags := Some ["tlp:white"; "tlp:green"];
     CreateEventParams.published := None |}.

Definition tagged_attribute_params : AddAttributeParams.t :=
  {| AddAttributeParams.type := "domain";
     AddAttributeParams.value := "evil.com";
     AddAttributeParams.category := None;
     AddAttributeParams.to_ids := None;
     AddAttributeParams.comment := None;
     AddAttributeParams.distribution := None;
     AddAttributeParams.tags := Some ["tlp:white"] |}.

Definition bulk_item (value : string) : BulkItem.t :=
  {| BulkItem.type := "domain";
     BulkItem.value := value;
     BulkItem.category := None;
     BulkItem.toIds := None;
     BulkItem.comment := None |}.

(** Fifty-one attributes holding evil.com, in event 43. *)
Definition fifty_one_hits : Json :=
  search_answer (repeat (attribute_json "10" "43" "domain" "evil.com" true) 51).

(** A remote that answers every request with the same payload, at once. *)
Definition constant_remote (j : Json) : Platform :=
  {| Remote := unit;
     net := fun _ _ => (replies j, tt);
     JSON_parse := fun s => if String.eqb s (stringify j) then Some j else None |}.

Definition constant_start (j : Json) : @World (constant_remote j) :=
  @Build_World (constant_remote j) tt [].

(* ================================================================= *)
(** ** Vocabulary of the specification *)



Definition MalformedResponse (text : string) : string :=
  "Failed to parse MISP response as JSON: " ++ substring 0 200 text.




(** The distinct elements of a list, in the order they are first seen;
    [seen] holds what came before. *)
Fixpoint first_seen_from (seen l : list (option string)) : list (option string) :=
  match l with
  | [] => []
  | x :: r =>
      if includes x seen then first_seen_from seen r
      else x :: first_seen_from (x :: seen) r
  end.

Definition first_seen (l : list (option string)) : list (option string) :=
  first_seen_from [] l.

(** The attributes of a response that belong to event [eid]. *)
Definition of_event (eid : option string) (a : MispAttribute.t) : bool :=
  opt_string_eqb (MispAttribute.event_id a) eid.

(** The group of event [eid] in a response: its attributes in response
    order, titled after the first of them. *)
Definition group_for (attributes : list MispAttribute.t) (eid : option string)
  : EventGroup.t :=
  {| EventGroup.event_id := eid;
     EventGroup.event_info :=
       or_unknown (match find (of_event eid) attributes with
                   | Some a => Event_info a
                   | None => None
                   end);
     EventGroup.attributes := map summary (filter (of_event eid) attributes) |}.

(** The related-attribute tuples the platform reports for one attribute. *)
Definition related_tuples (a : MispAttribute.t) : list Correlation.t :=
  match MispAttribute.RelatedAttribute a with
  | Some rels => map correlation_of rels
  | None => []
  end.

(** A group with further attributes pushed. *)
Definition extend (g : EventGroup.t) (l : list AttributeSummary.t) : EventGroup.t :=
  {| EventGroup.event_id := EventGroup.event_id g;
     EventGroup.event_info := EventGroup.event_info g;
     EventGroup.attributes := EventGroup.attributes g ++ l |}.

(** The requests the handlers send. *)
Definition view_request {P : Platform} (client : MispConfig) (eventId : string) : Request :=
  make_request client "GET" ("/events/view/" ++ eventId) None.

Definition search_request {P : Platform} (client : MispConfig)
  (params : SearchAttributesParams.t) : Request :=
  make_request client "POST" "/attributes/restSearch"
    (Some (searchAttributes_body params)).

(** The searches of event-relation discovery that returned, from world
    [w] on: each searched value with the matches it got. The log stops at
    the first search that fails. *)
Fixpoint search_log {P : Platform} (client : MispConfig)
  (values : list (option string)) (w : World)
  : list (option string * list MispAttribute.t) :=
  match values with
  | [] => []
  | v :: r =>
      match searchAttributes client (related_search v) w with
      | (Ok matches, w') => (v, matches) :: search_log client r w'
      | (Throw _, _) => []
      end
  end.

(** Every match occurrence, paired with the value whose search returned
    it, in the order the loops visit them. *)
Definition match_occurrences (searches : list (option string * list MispAttribute.t))
  : list (option string * MispAttribute.t) :=
  flat_map (fun s => map (pair (fst s)) (snd s)) searches.

(** The occurrences that count for candidate [k]: matches owned by event
    [k], unless [k] is the source event. *)
Definition counted (eventId : string) (k : option string)
  (occ : option string * MispAttribute.t) : bool :=
  of_event k (snd occ) && negb (opt_string_eqb k (Some eventId)).

(** The attributes of an event, as the handler reads them. *)
Definition eventAttributes (event : MispEvent.t) : list MispAttribute.t :=
  match MispEvent.Attribute event with Some l => l | None => [] end.


(** An entry after it has absorbed the searched values [vs], one per
    match occurrence. *)
Definition absorbed (e : RelatedEntry.t) (vs : list (option string)) : RelatedEntry.t :=
  {| RelatedEntry.event_id := RelatedEntry.event_id e;
     RelatedEntry.event_info := RelatedEntry.event_info e;
     RelatedEntry.overlapping_iocs :=
       RelatedEntry.overlapping_iocs e
       ++ first_seen_from (RelatedEntry.overlapping_iocs e) vs;
     RelatedEntry.correlation_count := RelatedEntry.correlation_count e + List.length vs |}.

(** The entry a first match of event [k] creates. *)
Definition fresh_entry (k : option string) (a : MispAttribute.t) : RelatedEntry.t :=
  {| RelatedEntry.event_id := k;
     RelatedEntry.event_info := Some (or_unknown (Event_info a));
     RelatedEntry.overlapping_iocs := [];
     RelatedEntry.correlation_count := 0 |}.

(** One pass of the inner loop, on a match paired with its value. *)
Definition occurrence_step (eventId : string) (m : JsMap RelatedEntry.t)
  (occ : option string * MispAttribute.t) : JsMap RelatedEntry.t :=
  match_step eventId (fst occ) m (snd occ).

(** A candidate map as the seeding loop leaves it: distinct keys, every
    entry filed under its own event id, nothing recorded yet. *)
Definition fresh_map (m : JsMap RelatedEntry.t) : Prop :=
  NoDup (map_keys m)
  /\ forall k e, map_get k m = Some e ->
       RelatedEntry.event_id e = k
       /\ RelatedEntry.overlapping_iocs e = []
       /\ RelatedEntry.correlation_count e = 0.

(** Candidates in descending order of correlation count. *)
Definition count_ge (a b : RelatedEntry.t) : Prop :=
  RelatedEntry.correlation_count b <= RelatedEntry.correlation_count a.

Definition has_count (c : nat) (e : RelatedEntry.t) : bool :=
  Nat.eqb (RelatedEntry.correlation_count e) c.

(** The occurrences that may open a new candidate: those not owned by the
    source event. *)
Definition foreign (eventId : string) (occ : option string * MispAttribute.t) : bool :=
  negb (opt_string_eqb (MispAttribute.event_id (snd occ)) (Some eventId)).

(** The requests of attribute and event creation. *)
Definition add_request {P : Platform} (client : MispConfig) (eventId : string)
  (params : AddAttributeParams.t) : Request :=
  make_request client "POST" ("/attributes/add/" ++ eventId)
    (Some (addAttribute_body params)).

(** The outcomes of the unit operations of a batch, run one after the
    other from world [w]: what [client.addAttribute] returned or threw for
    each item. *)
Fixpoint unit_runs {P : Platform} (client : MispConfig) (eventId : string)
  (attributes : list BulkItem.t) (w : World)
  : list (Outcome (option MispAttribute.t)) :=
  match attributes with
  | [] => []
  | attr :: r =>
      let (o, w') := addAttribute client eventId (bulk_params attr) w in
      o :: unit_runs client eventId r w'
  end.

(** A unit fails when its [try] block throws: [addAttribute] throws, or it
    returns no attribute object and reading [created.id] throws. *)
Definition unit_failed (o : Outcome (option MispAttribute.t)) : bool :=
  match o with
  | Ok (Some _) => false
  | Ok None | Throw _ => true
  end.

(** The create returned an attribute with a non-empty id. *)
Definition unit_has_id (o : Outcome (option MispAttribute.t)) : bool :=
  match o with
  | Ok (Some created) => truthy_str (MispAttribute.id created)
  | _ => false
  end.

(** The per-item result of a unit: the created id on success, the failure
    detail on failure. *)
Definition entry_of (attr : BulkItem.t) (o : Outcome (option MispAttribute.t))
  : BulkEntry.t :=
  match o with
  | Ok (Some created) =>
      {| BulkEntry.value := BulkItem.value attr;
         BulkEntry.type := BulkItem.type attr;
         BulkEntry.id := MispAttribute.id created;
         BulkEntry.error := None |}
  | Ok None =>
      {| BulkEntry.value := BulkItem.value attr;
         BulkEntry.type := BulkItem.type attr;
         BulkEntry.id := None;
         BulkEntry.error := Some "Cannot read properties of undefined (reading 'id')" |}
  | Throw message =>
      {| BulkEntry.value := BulkItem.value attr;
         BulkEntry.type := BulkItem.type attr;
         BulkEntry.id := None;
         BulkEntry.error := Some message |}
  end.

Definition entries_of (attributes : list BulkItem.t)
  (runs : list (Outcome (option MispAttribute.t))) : list BulkEntry.t :=
  map (fun ao => entry_of (fst ao) (snd ao)) (combine attributes runs).

Definition create_request {P : Platform} (client : MispConfig)
  (params : CreateEventParams.t) : Request :=
  make_request client "POST" "/events/add" (Some (createEvent_body params)).

Definition tag_request {P : Platform} (client : MispConfig) (id tag : string) : Request :=
  make_request client "POST" "/events/addTag"
    (Some (JObj [("event", JStr id); ("tag", JStr tag)])).

Definition attribute_tag_request {P : Platform} (client : MispConfig) (id tag : string)
  : Request :=
  make_request client "POST" "/attributes/addTag"
    (Some (JObj [("attribute", JStr id); ("tag", JStr tag)])).

(** The tag call of [addAttribute] for one tag. *)
Definition tagAttribute {P : Platform} (client : MispConfig) (id tag : string) : M Json :=
  request client "POST" "/attributes/addTag"
    (Some (JObj [("attribute", JStr id); ("tag", JStr tag)])).

(** The world after the calls [step tag] made one after the other, from
    world [w], for the tags of [tags], when every one of them succeeds;
    [None] when one of them fails. *)
Fixpoint after_all {P : Platform} {B : Type} (step : string -> M B)
  (tags : list string) (w : World) : option World :=
  match tags with
  | [] => Some w
  | tag :: rest =>
      match step tag w with
      | (Ok _, w') => after_all step rest w'
      | (Throw _, _) => None
      end
  end.

(** The first call of [step] over [tags] that fails, from world [w]: the
    calls for [done] succeed and leave world [wk], from which the call for
    [tag] fails with [e] and leaves world [w2]; [rest] is not reached. *)
Definition first_failure {P : Platform} {B : Type} (step : string -> M B)
  (tags : list string) (w : World)
  (done : list string) (tag : string) (rest : list string) (wk : World)
  (e : string) (w2 : World) : Prop :=
  tags = (done ++ tag :: rest)%list
  /\ after_all step done w = Some wk
  /\ step tag wk = (Throw e, w2).

(** The remote applies the default limit it is sent: a search request
    whose body carries [limit = 50] is answered with at most 50
    attributes. *)
Definition honours_default_limit {P : Platform} (client : MispConfig) : Prop :=
  forall params w data w' items,
    prop "limit" (searchAttributes_body params) = Some (JNum 50) ->
    request client "POST" "/attributes/restSearch"
      (Some (searchAttributes_body params)) w = (Ok data, w') ->
    as_array (opt_prop "Attribute" (prop "response" data)) = Some items ->
    List.length items <= 50.

(** The body of a request carries [limit = 50]. *)
Definition carries_limit_50 (rq : Request) : Prop :=
  exists body, rq_body rq = Some body /\ prop "limit" body = Some (JNum 50).

(** The world after the units of a batch have run. *)
Fixpoint after_units {P : Platform} (client : MispConfig) (eventId : string)
  (attributes : list BulkItem.t) (w : World) : World :=
  match attributes with
  | [] => w
  | attr :: r =>
      after_units client eventId r (snd (addAttribute client eventId (bulk_params attr) w))
  end.

(** Runs a closed computation and takes its value for the unknowns of the
    right-hand side. *)
Ltac run :=
  lazymatch goal with
  | |- ?l = ?r =>
      let v := eval vm_compute in l in
      unify r v; vm_compute; reflexivity
  end.

(** *** Strings, configuration *)

Definition chars (s : string) : list ascii := list_ascii_of_string s.

Fixpoint last_char (s : string) : option ascii :=
  match s with
  | EmptyString => None
  | String c EmptyString => Some c
  | String _ r => last_char r
  end.

Fixpoint slashes (n : nat) : string :=
  match n with
  | 0 => EmptyString
  | S k => String "/" (slashes k)
  end.

Definition starts_with_digit (s : string) : bool :=
  match s with
  | String c _ => match digit_of c with Some _ => true | None => false end
  | EmptyString => false
  end.

(** [process.env] holding the given variables and no other. *)
Definition env_of (vars : list (string * string)) : Env := fun k => assoc k vars.

(** *** Computations that send nothing *)

Definition quiet {P : Platform} {X : Type} (m : World -> X * World) : Prop :=
  forall w, snd (m w) = w.

(** *** Tags, sightings, warninglists *)

(** The summary of one tag, for a tag that is not [null]. *)
Definition tag_summary (t : Json) : TagSummary.t :=
  {| TagSummary.id := as_string (prop "id" t);
     TagSummary.name := as_string (prop "name" t);
     TagSummary.colour := as_string (prop "colour" t);
     TagSummary.event_count := as_string (prop "event_count" t);
     TagSummary.attribute_count := as_string (prop "attribute_count" t) |}.

(** The summary of one matching warninglist, for a match that is not
    [null]. *)
Definition warninglist_summary (m : Json) : WarninglistSummary.t :=
  {| WarninglistSummary.name := as_string (prop "name" m);
     WarninglistSummary.category := as_string (prop "category" m);
     WarninglistSummary.description := as_string (prop "description" m);
     WarninglistSummary.type := as_string (prop "type" m) |}.

Definition tag_change_request {P : Platform} (client : MispConfig)
  (eventId tag : string) (remove : option bool) : Request :=
  make_request client "POST"
    (match remove with
     | Some true => "/events/removeTag"
     | _ => "/events/addTag"
     end)
    (Some (JObj [("event", JStr eventId); ("tag", JStr tag)])).

(** The parameters of [addAttribute] without their tags. *)
Definition untagged (params : AddAttributeParams.t) : AddAttributeParams.t :=
  {| AddAttributeParams.type := AddAttributeParams.type params;
     AddAttributeParams.value := AddAttributeParams.value params;
     AddAttributeParams.category := AddAttributeParams.category params;
     AddAttributeParams.to_ids := AddAttributeParams.to_ids params;
     AddAttributeParams.comment := AddAttributeParams.comment params;
     AddAttributeParams.distribution := AddAttributeParams.distribution params;
     AddAttributeParams.tags := None |}.

(** *** What every request carries *)

(** A request goes to a path under the configured base URL and carries
    the API key and the JSON headers. *)
Definition well_addressed (client : MispConfig) (rq : Request) : Prop :=
  (exists path, rq_url rq = url client ++ path)
  /\ rq_headers rq = [("Authorization", apiKey client);
                      ("Accept", "application/json");
                      ("Content-Type", "application/json")].

(** A computation only adds requests to the trace, all of them
    [well_addressed]. *)
Definition sends_well {P : Platform} (client : MispConfig) {X : Type}
  (f : World -> X * World) : Prop :=
  forall w, exists sent,
    calls (snd (f w)) = (calls w ++ sent)%list
    /\ Forall (well_addressed client) sent.

(** A request that reads: the view of an event, or an attribute search. *)
Definition is_read (client : MispConfig) (rq : Request) : Prop :=
  (rq_method rq = "GET"
   /\ exists eventId, rq_url rq = url client ++ "/events/view/" ++ eventId)
  \/ (rq_method rq = "POST" /\ rq_url rq = url client ++ "/attributes/restSearch").

(** The calls of the tools modelled here, and the world a call leaves. *)
Inductive ToolCall : Type :=
| Correlate (value : string)
| GetRelatedEvents (eventId : string)
| AddAttributesBulk (eventId : string) (attributes : list BulkItem.t)
| PublishEvent (eventId : string)
| TagEvent (eventId tag : string) (remove : option bool)
| DeleteAttribute (attributeId : string) (hard : option bool)
| ListTags (search : option string) (limit : option Z)
| AddSighting (params : AddSightingParams.t)
| CheckWarninglists (value : string)
| ExportIocs (params : ExportEventsParams.t)
| ExportHashes (params : ExportHashesParams.t).

Definition world_after {P : Platform} (client : MispConfig) (call : ToolCall)
  (w : World) : World :=
  match call with
  | Correlate value => snd (misp_correlate client value w)
  | GetRelatedEvents eventId => snd (misp_get_related_events client eventId w)
  | AddAttributesBulk eventId attributes =>
      snd (misp_add_attributes_bulk client eventId attributes w)
  | PublishEvent eventId => snd (misp_publish_event client eventId w)
  | TagEvent eventId tag remove => snd (misp_tag_event client eventId tag remove w)
  | DeleteAttribute attributeId hard => snd (misp_delete_attribute client attributeId hard w)
  | ListTags search limit => snd (misp_list_tags client search limit w)
  | AddSighting params => snd (misp_add_sighting client params w)
  | CheckWarninglists value => snd (misp_check_warninglists client value w)
  | ExportIocs params => snd (misp_export_iocs client params w)
  | ExportHashes params => snd (misp_export_hashes client params w)
  end.

(** *** More example exchanges *)

Definition example_env : Env :=
  env_of [("MISP_URL", "https://misp.example.com//");
          ("MISP_API_KEY", "test-api-key-12345");
          ("MISP_TIMEOUT", "45s")].

Definition example_settings : EnvConfig.t :=
  {| EnvConfig.url := "https://misp.example.com";
     EnvConfig.apiKey := "test-api-key-12345";
     EnvConfig.verifySsl := true;
     EnvConfig.timeout := Some 45000%Z |}.

Definition tag_json (id name : string) : Json :=
  JObj [("id", JStr id); ("name", JStr name); ("colour", JStr "#ffffff");
        ("event_count", JStr "3")].

Definition three_tags : list Json :=
  [tag_json "1" "tlp:white"; tag_json "2" "tlp:green"; tag_json "3" "tlp:amber"].

Definition tags_answer : Json := JObj [("Tag", JArr three_tags)].

Definition resolver_list : Json :=
  JObj [("name", JStr "List of known public DNS resolvers");
        ("category", JStr "false_positive");
        ("type", JStr "cidr")].

Definition warninglist_answer : Json := JObj [("8.8.8.8", JArr [resolver_list])].

Definition md5_export : ExportHashesParams.t :=
  {| ExportHashesParams.format := "md5";
     ExportHashesParams.last := Some "7d";
     ExportHashesParams.tags := Some ["tlp:white"; "a&b"] |}.


Definition export_as (format : string) : ExportEventsParams.t :=
  {| ExportEventsParams.eventId := Some "42";
     ExportEventsParams.format := format;
     ExportEventsParams.type := None;
     ExportEventsParams.tags := None;
     ExportEventsParams.last := None |}.

Definition sighting_of (attributeId value : option string) : AddSightingParams.t :=
  {| AddSightingParams.attributeId := attributeId;
     AddSightingParams.value := value;
     AddSightingParams.type := 0;
     AddSightingParams.source := None;
     AddSightingParams.timestamp := None |}.

(** A 2xx answer carrying a text that is not JSON, received at once. *)
Definition replies_text (body : string) : NetEvent :=
  Arrives 0 {| status := 200; text := body |}.

(** A platform for the exports, whose answers are never parsed. *)
Definition text_lab : Platform := scripted [].

Definition text_start (script : list NetEvent) : @World text_lab :=
  {| remote := (script : @Remote text_lab); calls := [] |}.

Definition event_without_id : Json :=
  JObj [("Event", JObj [("info", JStr "Phishing wave")])].

(* ================================================================= *)
(** ** The gateway client: timeouts and transport failures *)

Section RequestProperties.
Context {P : Platform}.
Variable this : MispConfig.

Lemma request_text_calls (method path : string) (body : option Json) (w : World) :
  calls (snd (request_text this method path body w))
  = (calls w ++ [make_request this method path body])%list.
Proof.
  unfold request_text.
  destruct (net (make_request this method path body) (remote w)) as [ev r'].
  destruct (fetch (timer_delay (timeout this)) ev) as [[resp | why] | err];
    [destruct (ok resp) | | ]; reflexivity.
Qed.

Lemma request_calls (method path : string) (body : option Json) (w : World) :
  calls (snd (request this method path body w))
  = (calls w ++ [make_request this method path body])%list.
Proof.
  unfold request, bind.
  pose proof (request_text_calls method path body w) as H.
  destruct (request_text this method path body w) as [[txt | e] w']; simpl in *; auto.
  destruct (JSON_parse txt); simpl; auto.
Qed.









End RequestProperties.

(* ================================================================= *)
(** ** The gateway client: bodies of 2xx answers *)

Section BodyProperties.
Context {P : Platform}.
Variable this : MispConfig.

Lemma request_text_success (method path : string) (body : option Json) (w : World)
  (t : N) (r : Response) :
  fst (net (make_request this method path body) (remote w)) = Arrives t r ->
  (t <= timer_delay (timeout this))%N ->
  ok r = true ->
  fst (request_text this method path body w) = Ok (text r).
Proof.
  unfold request_text.
  destruct (net (make_request this method path body) (remote w)) as [ev r']; simpl.
  intros -> Ht Hok. simpl.
  apply N.ltb_ge in Ht. rewrite Ht, Hok. reflexivity.
Qed.

Lemma request_success (method path : string) (body : option Json) (w : World)
  (t : N) (r : Response) :
  fst (net (make_request this method path body) (remote w)) = Arrives t r ->
  (t <= timer_delay (timeout this))%N ->
  ok r = true ->
  fst (request this method path body w)
  = match JSON_parse (text r) with
    | Some data => Ok data
    | None => Throw (MalformedResponse (text r))
    end.
Proof.
  intros Hev Ht Hok.
  pose proof (request_text_success method path body w t r Hev Ht Hok) as H.
  unfold request, bind.
  destruct (request_text this method path body w) as [[txt | e] w']; simpl in H;
    [ | discriminate].
  injection H as ->.
  destruct (JSON_parse (text r)); reflexivity.
Qed.

Lemma falsy_as_array (v : option Json) : truthy v = false -> as_array v = None.
Proof. destruct v as [[ | | | | | ] | ]; simpl; congruence. Qed.

Lemma bind_fst_throw {A B : Type} (m : M A) (k : A -> M B) (w : World) (e : string) :
  fst (m w) = Throw e -> fst (bind m k w) = Throw e.
Proof.
  unfold bind. destruct (m w) as [[a | e'] w']; simpl; congruence.
Qed.

Lemma bind_fst_ok {A B : Type} (m : M A) (k : A -> M B) (w : World) (a : A) :
  fst (m w) = Ok a -> fst (bind m k w) = fst (k a (snd (m w))).
Proof.
  unfold bind. destruct (m w) as [[a' | e'] w']; simpl; congruence.
Qed.

(** C8, as the client has it. A 2xx answer whose body is not valid JSON
    fails with [MalformedResponse]; a body that is valid JSON is returned
    as parsed, with no check of its shape, and a search whose parsed body
    holds nothing (or a falsy value) where the attributes, resp. the
    events, are expected returns the empty result set. *)
Theorem invalid_json_is_MalformedResponse (w : World) (t : N) (r : Response) :
  (t <= timer_delay (timeout this))%N ->
  ok r = true ->
  (forall method path body,
     fst (net (make_request this method path body) (remote w)) = Arrives t r ->
     fst (request this method path body w)
     = match JSON_parse (text r) with
       | Some data => Ok data
       | None => Throw (MalformedResponse (text r))
       end)
  /\ (forall params,
        fst (net (make_request this "POST" "/attributes/restSearch"
                    (Some (searchAttributes_body params))) (remote w)) = Arrives t r ->
        (JSON_parse (text r) = None ->
         fst (searchAttributes this params w) = Throw (MalformedResponse (text r)))
        /\ (forall data,
              JSON_parse (text r) = Some data ->
              data <> JNull ->
              truthy (opt_prop "Attribute" (prop "response" data)) = false ->
              fst (searchAttributes this params w) = Ok []))
  /\ (forall params,
        fst (net (make_request this "POST" "/events/restSearch"
                    (Some (searchEvents_body params))) (remote w)) = Arrives t r ->
        (JSON_parse (text r) = None ->
         fst (searchEvents this params w) = Throw (MalformedResponse (text r)))
        /\ (forall data,
              JSON_parse (text r) = Some data ->
              data <> JNull ->
              truthy (prop "response" data) = false ->
              fst (searchEvents this params w) = Ok [])).
Proof.
  intros Ht Hok. split; [ | split].
  - intros method path body Hev. eapply request_success; eauto.
  - intros params Hev.
    pose proof (request_success _ _ _ w t r Hev Ht Hok) as H.
    split.
    + intros Hp. rewrite Hp in H. unfold searchAttributes.
      apply bind_fst_throw. exact H.
    + intros data Hp Hnn Harr. apply falsy_as_array in Harr.
      rewrite Hp in H. unfold searchAttributes.
      rewrite (bind_fst_ok _ _ _ _ H).
      destruct data; try congruence; simpl in *; unfold bind, ret; simpl;
        try rewrite Harr; reflexivity.
  - intros params Hev.
    pose proof (request_success _ _ _ w t r Hev Ht Hok) as H.
    split.
    + intros Hp. rewrite Hp in H. unfold searchEvents.
      apply bind_fst_throw. exact H.
    + intros data Hp Hnn Harr. apply falsy_as_array in Harr.
      rewrite Hp in H. unfold searchEvents.
      rewrite (bind_fst_ok _ _ _ _ H).
      destruct data; try congruence; simpl in *; unfold bind, ret; simpl;
        try rewrite Harr; reflexivity.
Qed.

End BodyProperties.

(* ================================================================= *)
(** ** Facts about [Map] *)

Lemma opt_string_eqb_spec (a b : option string) : reflect (a = b) (opt_string_eqb a b).
Proof.
  destruct a as [x | ], b as [y | ]; simpl; try (constructor; congruence).
  destruct (String.eqb_spec x y); constructor; congruence.
Qed.

Lemma opt_string_eqb_refl (a : option string) : opt_string_eqb a a = true.
Proof. destruct (opt_string_eqb_spec a a); congruence. Qed.

Lemma opt_string_eqb_neq (a b : option string) : a <> b -> opt_string_eqb a b = false.
Proof. destruct (opt_string_eqb_spec a b); congruence. Qed.

Lemma includes_In (x : option string) (l : list (option string)) :
  includes x l = true <-> In x l.
Proof.
  unfold includes. rewrite existsb_exists. split.
  - intros [y [Hy He]]. destruct (opt_string_eqb_spec x y); congruence.
  - intros H. exists x. split; [exact H | apply opt_string_eqb_refl].
Qed.

Lemma includes_not_In (x : option string) (l : list (option string)) :
  includes x l = false <-> ~ In x l.
Proof.
  rewrite <- includes_In. destruct (includes x l); split; congruence.
Qed.

Section MapFacts.
Context {V : Type}.
Implicit Types (m : JsMap V) (k : option string).

Lemma map_has_includes k m : map_has k m = includes k (map_keys m).
Proof.
  unfold map_has. induction m as [ | [k' v] r IH]; simpl; auto.
  destruct (opt_string_eqb k k'); simpl; auto.
Qed.

Lemma map_get_None k m : map_get k m = None <-> ~ In k (map_keys m).
Proof.
  rewrite <- includes_not_In, <- map_has_includes. unfold map_has.
  destruct (map_get k m); split; congruence.
Qed.

Lemma map_keys_set_new k (v : V) m :
  map_has k m = false -> map_keys (map_set k v m) = (map_keys m ++ [k])%list.
Proof.
  unfold map_has. induction m as [ | [k' v'] r IH]; simpl; auto.
  destruct (opt_string_eqb k k'); simpl; [discriminate | ].
  intros H. rewrite IH; auto.
Qed.

Lemma map_keys_set_old k (v : V) m :
  map_has k m = true -> map_keys (map_set k v m) = map_keys m.
Proof.
  unfold map_has. induction m as [ | [k' v'] r IH]; simpl; [discriminate | ].
  destruct (opt_string_eqb k k'); simpl; auto.
  intros H. rewrite IH; auto.
Qed.

Lemma map_keys_modify k (f : V -> V) m : map_keys (map_modify k f m) = map_keys m.
Proof.
  induction m as [ | [k' v'] r IH]; simpl; auto.
  destruct (opt_string_eqb k k'); simpl; congruence.
Qed.

Lemma map_get_set_same k (v : V) m : map_get k (map_set k v m) = Some v.
Proof.
  induction m as [ | [k' v'] r IH]; simpl.
  - now rewrite opt_string_eqb_refl.
  - destruct (opt_string_eqb k k') eqn:E; simpl; rewrite E; auto.
Qed.

Lemma map_get_set_other k k' (v : V) m :
  k <> k' -> map_get k (map_set k' v m) = map_get k m.
Proof.
  intros Hne. induction m as [ | [k0 v0] r IH]; simpl.
  - now rewrite opt_string_eqb_neq.
  - destruct (opt_string_eqb_spec k' k0) as [-> | Hn]; simpl.
    + now rewrite opt_string_eqb_neq.
    + destruct (opt_string_eqb k k0); auto.
Qed.

Lemma map_get_modify_same k (f : V -> V) m :
  map_get k (map_modify k f m) = option_map f (map_get k m).
Proof.
  induction m as [ | [k' v'] r IH]; simpl; auto.
  destruct (opt_string_eqb k k') eqn:E; simpl; rewrite E; auto.
Qed.

Lemma map_get_modify_other k k' (f : V -> V) m :
  k <> k' -> map_get k (map_modify k' f m) = map_get k m.
Proof.
  intros Hne. induction m as [ | [k0 v0] r IH]; simpl; auto.
  destruct (opt_string_eqb_spec k' k0) as [-> | Hn]; simpl.
  - now rewrite opt_string_eqb_neq.
  - destruct (opt_string_eqb k k0); auto.
Qed.

(** With distinct keys, the values are the lookups of the keys, in
    order. *)
Lemma map_values_by_key (d : V) m :
  NoDup (map_keys m) ->
  map_values m
  = map (fun k => match map_get k m with Some v => v | None => d end) (map_keys m).
Proof.
  induction m as [ | [k v] r IH]; simpl; auto.
  intros Hnd. inversion Hnd as [ | ? ? Hnin Hnd']; subst.
  rewrite opt_string_eqb_refl. f_equal.
  unfold map_values, map_keys in *. rewrite IH by assumption.
  apply map_ext_in. intros k' Hin.
  destruct (opt_string_eqb_spec k' k) as [-> | Hn]; [contradiction | reflexivity].
Qed.

Lemma map_set_NoDup k (v : V) m :
  NoDup (map_keys m) -> NoDup (map_keys (map_set k v m)).
Proof.
  intros Hnd. destruct (map_has k m) eqn:E.
  - now rewrite map_keys_set_old.
  - rewrite map_keys_set_new by assumption.
    apply NoDup_app; auto.
    + constructor; [simpl; tauto | constructor].
    + rewrite map_has_includes in E. apply includes_not_In in E.
      intros a Ha [<- | []]. contradiction.
Qed.

Lemma map_get_In k (v : V) m :
  NoDup (map_keys m) -> In (k, v) m -> map_get k m = Some v.
Proof.
  induction m as [ | [k' v'] r IH]; simpl; [tauto | ].
  intros Hnd [Heq | Hin].
  - injection Heq as -> ->. now rewrite opt_string_eqb_refl.
  - inversion Hnd as [ | ? ? Hnin Hnd']; subst.
    destruct (opt_string_eqb_spec k k') as [-> | Hne].
    + exfalso. apply Hnin. unfold map_keys.
      apply in_map_iff. exists (k', v). auto.
    + auto.
Qed.

End MapFacts.

(* ================================================================= *)
(** ** Distinct elements in first-seen order *)

Lemma first_seen_from_ext (s1 s2 l : list (option string)) :
  (forall x, includes x s1 = includes x s2) ->
  first_seen_from s1 l = first_seen_from s2 l.
Proof.
  revert s1 s2. induction l as [ | x r IH]; simpl; intros s1 s2 H; auto.
  rewrite <- (H x). destruct (includes x s1) eqn:E.
  - apply IH, H.
  - f_equal. apply IH. intros y. simpl. now rewrite H.
Qed.

Lemma first_seen_from_In (seen l : list (option string)) (x : option string) :
  In x (first_seen_from seen l) <-> In x l /\ ~ In x seen.
Proof.
  revert seen. induction l as [ | y r IH]; simpl; intros seen.
  - tauto.
  - destruct (includes y seen) eqn:E.
    + rewrite IH. apply includes_In in E.
      split; [tauto | ]. intros [[-> | H] Hn]; tauto.
    + apply includes_not_In in E. simpl. rewrite IH. simpl.
      split.
      * intros [-> | [H Hn]]; tauto.
      * intros [[-> | H] Hn]; [tauto | ].
        destruct (opt_string_eqb_spec y x); [tauto | right; tauto].
Qed.

Lemma first_seen_from_NoDup (seen l : list (option string)) :
  NoDup (first_seen_from seen l).
Proof.
  revert seen. induction l as [ | y r IH]; simpl; intros seen.
  - constructor.
  - destruct (includes y seen); auto.
    constructor; auto.
    rewrite first_seen_from_In. simpl. tauto.
Qed.

Lemma first_seen_In (l : list (option string)) (x : option string) :
  In x (first_seen l) <-> In x l.
Proof. unfold first_seen. rewrite first_seen_from_In. simpl. tauto. Qed.

Lemma first_seen_NoDup (l : list (option string)) : NoDup (first_seen l).
Proof. apply first_seen_from_NoDup. Qed.

(* ================================================================= *)
(** ** Value correlation: the aggregation loops *)

Lemma extend_nil (g : EventGroup.t) : extend g [] = g.
Proof. destruct g. unfold extend. simpl. now rewrite app_nil_r. Qed.

Lemma extend_push (g : EventGroup.t) (s : AttributeSummary.t) (l : list AttributeSummary.t) :
  extend (push_attribute s g) l = extend g (s :: l).
Proof. unfold extend, push_attribute. simpl. now rewrite <- app_assoc. Qed.

Lemma aggregate_step_keys (m : JsMap EventGroup.t) (a : MispAttribute.t) :
  map_keys (aggregate_step m a)
  = if map_has (MispAttribute.event_id a) m then map_keys m
    else (map_keys m ++ [MispAttribute.event_id a])%list.
Proof.
  unfold aggregate_step. rewrite map_keys_modify.
  destruct (map_has (MispAttribute.event_id a) m) eqn:E; simpl; auto.
  now apply map_keys_set_new.
Qed.

Lemma aggregate_keys (attributes : list MispAttribute.t) (m : JsMap EventGroup.t) :
  map_keys (fold_left aggregate_step attributes m)
  = (map_keys m
     ++ first_seen_from (map_keys m) (map MispAttribute.event_id attributes))%list.
Proof.
  revert m. induction attributes as [ | a r IH]; simpl; intros m.
  - now rewrite app_nil_r.
  - rewrite IH, aggregate_step_keys, <- map_has_includes.
    destruct (map_has (MispAttribute.event_id a) m) eqn:E; auto.
    rewrite <- app_assoc. simpl. do 2 f_equal.
    apply first_seen_from_ext. intros x.
    apply eq_true_iff_eq. rewrite !includes_In, in_app_iff. simpl. tauto.
Qed.

Lemma aggregate_step_get (m : JsMap EventGroup.t) (a : MispAttribute.t) (k : option string) :
  map_get k (aggregate_step m a)
  = if of_event k a
    then Some (push_attribute (summary a)
                 match map_get k m with
                 | Some g => g
                 | None => {| EventGroup.event_id := k;
                              EventGroup.event_info := or_unknown (Event_info a);
                              EventGroup.attributes := [] |}
                 end)
    else map_get k m.
Proof.
  unfold aggregate_step, of_event, map_has.
  destruct (opt_string_eqb_spec (MispAttribute.event_id a) k) as [-> | Hne].
  - rewrite map_get_modify_same.
    destruct (map_get k m) eqn:E; simpl.
    + now rewrite E.
    + now rewrite map_get_set_same.
  - rewrite map_get_modify_other by congruence.
    destruct (map_get (MispAttribute.event_id a) m); simpl; auto.
    apply map_get_set_other. congruence.
Qed.

Lemma aggregate_get (attributes : list MispAttribute.t) (m : JsMap EventGroup.t)
  (k : option string) :
  map_get k (fold_left aggregate_step attributes m)
  = match map_get k m with
    | Some g => Some (extend g (map summary (filter (of_event k) attributes)))
    | None =>
        match find (of_event k) attributes with
        | Some _ => Some (group_for attributes k)
        | None => None
        end
    end.
Proof.
  revert m. induction attributes as [ | a r IH]; simpl; intros m.
  - destruct (map_get k m); auto. now rewrite extend_nil.
  - rewrite IH, aggregate_step_get. unfold group_for. simpl.
    destruct (of_event k a) eqn:E.
    + destruct (map_get k m); simpl; now rewrite extend_push.
    + destruct (map_get k m); auto.
Qed.

Lemma collect_step_app (acc : list Correlation.t) (a : MispAttribute.t) :
  collect_step acc a = (acc ++ related_tuples a)%list.
Proof.
  unfold collect_step, related_tuples.
  destruct (MispAttribute.RelatedAttribute a) as [rels | ].
  - revert acc. induction rels as [ | x r IH]; simpl; intros acc.
    + now rewrite app_nil_r.
    + rewrite IH, <- app_assoc. reflexivity.
  - now rewrite app_nil_r.
Qed.

Lemma collect_flat (attributes : list MispAttribute.t) (acc : list Correlation.t) :
  fold_left collect_step attributes acc = (acc ++ flat_map related_tuples attributes)%list.
Proof.
  revert acc. induction attributes as [ | a r IH]; simpl; intros acc.
  - now rewrite app_nil_r.
  - rewrite IH, collect_step_app, <- app_assoc. reflexivity.
Qed.

Section CorrelateProperties.
Context {P : Platform}.
Variable client : MispConfig.

Lemma found_in_events_closed_form (attributes : list MispAttribute.t) :
  map_values (fold_left aggregate_step attributes [])
  = map (group_for attributes) (first_seen (map MispAttribute.event_id attributes)).
Proof.
  pose proof (aggregate_keys attributes []) as Hk. simpl in Hk.
  rewrite (map_values_by_key (group_for attributes None)).
  2:{ rewrite Hk. apply first_seen_from_NoDup. }
  rewrite Hk. apply map_ext_in. intros k Hin.
  apply (proj1 (first_seen_In _ _)) in Hin.
  rewrite aggregate_get. simpl.
  destruct (find (of_event k) attributes) eqn:E; auto.
  exfalso. apply in_map_iff in Hin. destruct Hin as [a [Ha Hin]].
  pose proof (find_none _ _ E a Hin) as Hf. unfold of_event in Hf.
  rewrite Ha, opt_string_eqb_refl in Hf. discriminate.
Qed.

(** C1, as the handler has it. For every non-empty attribute-search
    response, [misp_correlate] reports one group per distinct event id, in
    first-seen order, each holding the attributes of that event in response
    order; [total_events] is the number of distinct event ids,
    [total_attributes] the number of attributes returned, and
    [correlations] the concatenation of the related-attribute tuples of
    every attribute, duplicates kept, absent when there is none. An empty
    response is answered by a plain message instead. *)
Theorem correlate_partitions_by_event
  (value : string) (w w' : World) (attributes : list MispAttribute.t) :
  searchAttributes client (correlate_search value) w = (Ok attributes, w') ->
  (attributes = [] ->
   misp_correlate client value w
   = (ToolText ("No results found for " ++ dq ++ value ++ dq ++ " in MISP."), w'))
  /\ (attributes <> [] ->
      exists r,
        misp_correlate client value w = (ToolJson r, w')
        /\ CorrelateResult.found_in_events r
           = map (group_for attributes)
               (first_seen (map MispAttribute.event_id attributes))
        /\ NoDup (first_seen (map MispAttribute.event_id attributes))
        /\ (forall k, In k (first_seen (map MispAttribute.event_id attributes))
                      <-> In k (map MispAttribute.event_id attributes))
        /\ CorrelateResult.total_events r
           = List.length (first_seen (map MispAttribute.event_id attributes))
        /\ CorrelateResult.total_attributes r = List.length attributes
        /\ CorrelateResult.correlations r
           = match flat_map related_tuples attributes with
             | [] => None
             | t :: l => Some (t :: l)
             end).
Proof.
  intros Hs. split.
  { intros ->. unfold misp_correlate, handle, bind. rewrite Hs. reflexivity. }
  intros Hne.
  exists (correlate_result value attributes).
  split.
  - unfold misp_correlate, handle, bind. rewrite Hs.
    destruct attributes; [congruence | reflexivity].
  - unfold correlate_result. simpl.
    split; [apply found_in_events_closed_form | ].
    split; [apply first_seen_NoDup | ].
    split; [intros k; apply first_seen_In | ].
    split.
    + unfold map_size.
      rewrite <- (length_map snd). fold (map_values (fold_left aggregate_step attributes [])).
      rewrite found_in_events_closed_form. apply length_map.
    + split; auto.
      rewrite collect_flat. simpl.
      destruct (flat_map related_tuples attributes); reflexivity.
Qed.

End CorrelateProperties.

(* ================================================================= *)
(** ** Event-relation discovery: the candidate map *)

Lemma absorbed_nil (e : RelatedEntry.t) : absorbed e [] = e.
Proof.
  destruct e. unfold absorbed. simpl. now rewrite app_nil_r, Nat.add_0_r.
Qed.

Lemma absorbed_record (e : RelatedEntry.t) (v : option string) (vs : list (option string)) :
  absorbed (record_match v e) vs = absorbed e (v :: vs).
Proof.
  unfold absorbed, record_match. simpl.
  destruct (includes v (RelatedEntry.overlapping_iocs e)) eqn:E; simpl.
  - f_equal. lia.
  - f_equal; [ | lia].
    rewrite <- app_assoc. simpl. do 2 f_equal.
    apply first_seen_from_ext. intros x.
    apply eq_true_iff_eq. rewrite !includes_In, in_app_iff. simpl. tauto.
Qed.


Lemma occurrence_step_get (eventId : string) (m : JsMap RelatedEntry.t)
  (occ : option string * MispAttribute.t) (k : option string) :
  map_get k (occurrence_step eventId m occ)
  = if counted eventId k occ
    then Some (record_match (fst occ)
                 match map_get k m with
                 | Some e => e
                 | None => fresh_entry k (snd occ)
                 end)
    else map_get k m.
Proof.
  destruct occ as [v a]. unfold occurrence_step, match_step, counted, of_event. simpl.
  destruct (opt_string_eqb_spec (MispAttribute.event_id a) k) as [Hk | Hk]; simpl.
  - subst k. destruct (opt_string_eqb (MispAttribute.event_id a) (Some eventId)); simpl; auto.
    rewrite map_get_modify_same. unfold map_has.
    destruct (map_get (MispAttribute.event_id a) m) eqn:E; simpl.
    + now rewrite E.
    + now rewrite map_get_set_same.
  - destruct (opt_string_eqb (MispAttribute.event_id a) (Some eventId)); simpl; auto.
    rewrite map_get_modify_other by congruence.
    destruct (map_has (MispAttribute.event_id a) m); simpl; auto.
    apply map_get_set_other. congruence.
Qed.

Lemma occurrences_get (eventId : string) (occs : list (option string * MispAttribute.t))
  (m : JsMap RelatedEntry.t) (k : option string) :
  map_get k (fold_left (occurrence_step eventId) occs m)
  = match map_get k m with
    | Some e => Some (absorbed e (map fst (filter (counted eventId k) occs)))
    | None =>
        match filter (counted eventId k) occs with
        | [] => None
        | occ :: _ =>
            Some (absorbed (fresh_entry k (snd occ))
                    (map fst (filter (counted eventId k) occs)))
        end
    end.
Proof.
  revert m. induction occs as [ | occ r IH]; simpl; intros m.
  - destruct (map_get k m); auto. now rewrite absorbed_nil.
  - rewrite IH, occurrence_step_get.
    destruct (counted eventId k occ) eqn:E; simpl.
    + destruct (map_get k m); simpl; now rewrite absorbed_record.
    + destruct (map_get k m); auto.
Qed.

Lemma occurrence_step_keys (eventId : string) (m : JsMap RelatedEntry.t)
  (occ : option string * MispAttribute.t) :
  NoDup (map_keys m) -> NoDup (map_keys (occurrence_step eventId m occ)).
Proof.
  destruct occ as [v a]. unfold occurrence_step, match_step. simpl. intros Hnd.
  destruct (opt_string_eqb (MispAttribute.event_id a) (Some eventId)); simpl; auto.
  rewrite map_keys_modify.
  destruct (map_has (MispAttribute.event_id a) m) eqn:E; simpl; auto.
  now apply map_set_NoDup.
Qed.

(* ================================================================= *)
(** ** Ranking: [sort] by descending count *)

Lemma by_count_desc_le (a b : RelatedEntry.t) :
  (by_count_desc a b <=? 0)%Z = true <-> count_ge a b.
Proof. unfold by_count_desc, count_ge. rewrite Z.leb_le. lia. Qed.

Lemma sort_insert_perm (x : RelatedEntry.t) (l : list RelatedEntry.t) :
  Permutation (sort_insert by_count_desc x l) (x :: l).
Proof.
  induction l as [ | y r IH]; simpl; auto.
  destruct (by_count_desc x y <=? 0)%Z; auto.
  rewrite IH. apply perm_swap.
Qed.

Lemma js_sort_perm (l : list RelatedEntry.t) :
  Permutation (js_sort by_count_desc l) l.
Proof.
  induction l as [ | x r IH]; simpl; auto.
  rewrite sort_insert_perm. now constructor.
Qed.

Lemma sort_insert_sorted (x : RelatedEntry.t) (l : list RelatedEntry.t) :
  Sorted count_ge l -> Sorted count_ge (sort_insert by_count_desc x l).
Proof.
  induction l as [ | y r IH]; simpl; intros Hs.
  - repeat constructor.
  - destruct (by_count_desc x y <=? 0)%Z eqn:E.
    + apply by_count_desc_le in E. constructor; [assumption | ].
      constructor. assumption.
    + assert (Hyx : count_ge y x).
      { unfold by_count_desc, count_ge in *. apply Z.leb_gt in E. lia. }
      inversion Hs as [ | ? ? Hr Hhd]; subst.
      constructor; [apply IH; assumption | ].
      destruct r as [ | z r']; simpl.
      * constructor. assumption.
      * destruct (by_count_desc x z <=? 0)%Z; constructor; auto.
        inversion Hhd; assumption.
Qed.

Lemma js_sort_sorted (l : list RelatedEntry.t) :
  Sorted count_ge (js_sort by_count_desc l).
Proof.
  induction l as [ | x r IH]; simpl; [constructor | ].
  now apply sort_insert_sorted.
Qed.

Lemma sort_insert_filter (c : nat) (x : RelatedEntry.t) (l : list RelatedEntry.t) :
  filter (has_count c) (sort_insert by_count_desc x l)
  = filter (has_count c) (x :: l).
Proof.
  induction l as [ | y r IH]; simpl; auto.
  destruct (by_count_desc x y <=? 0)%Z eqn:E; simpl; auto.
  rewrite IH. simpl.
  unfold by_count_desc in E. apply Z.leb_gt in E.
  unfold has_count.
  destruct (Nat.eqb_spec (RelatedEntry.correlation_count x) c);
    destruct (Nat.eqb_spec (RelatedEntry.correlation_count y) c); auto.
  lia.
Qed.

Lemma js_sort_stable (c : nat) (l : list RelatedEntry.t) :
  filter (has_count c) (js_sort by_count_desc l) = filter (has_count c) l.
Proof.
  induction l as [ | x r IH]; simpl; auto.
  rewrite sort_insert_filter. simpl. now rewrite IH.
Qed.

Lemma count_ge_trans : Relations_1.Transitive count_ge.
Proof. intros a b c. unfold count_ge. lia. Qed.

(* ================================================================= *)
(** ** Event-relation discovery: the handler *)

Lemma occurrences_keys (eventId : string) (occs : list (option string * MispAttribute.t))
  (m : JsMap RelatedEntry.t) :
  NoDup (map_keys m) -> NoDup (map_keys (fold_left (occurrence_step eventId) occs m)).
Proof.
  revert m. induction occs as [ | occ r IH]; simpl; intros m H; auto.
  apply IH. now apply occurrence_step_keys.
Qed.

Lemma final_entry (eventId : string) (occs : list (option string * MispAttribute.t))
  (seeds : JsMap RelatedEntry.t) (k : option string) (e : RelatedEntry.t) :
  fresh_map seeds ->
  map_get k (fold_left (occurrence_step eventId) occs seeds) = Some e ->
  RelatedEntry.event_id e = k
  /\ RelatedEntry.overlapping_iocs e
     = first_seen (map fst (filter (counted eventId k) occs))
  /\ RelatedEntry.correlation_count e = List.length (filter (counted eventId k) occs)
  /\ (map_get k seeds = None -> filter (counted eventId k) occs <> []).
Proof.
  intros [Hnd Hfresh] Hget. rewrite occurrences_get in Hget.
  destruct (map_get k seeds) as [e0 | ] eqn:E.
  - destruct (Hfresh k e0 E) as [Hid [Hio Hc]].
    injection Hget as <-. unfold absorbed. simpl.
    rewrite Hio, Hc, length_map. simpl. repeat split; auto. discriminate.
  - destruct (filter (counted eventId k) occs) as [ | occ rest] eqn:F; [discriminate | ].
    injection Hget as <-. unfold absorbed, fresh_entry. simpl.
    rewrite length_map. repeat split; auto. discriminate.
Qed.

Lemma fold_pair {S A B : Type} (f : S -> A * B -> S) (v : A) (l : list B) (s : S) :
  fold_left f (map (pair v) l) s = fold_left (fun s b => f s (v, b)) l s.
Proof.
  revert s. induction l as [ | b r IH]; simpl; auto.
Qed.

Section DiscoveryProperties.
Context {P : Platform}.
Variable client : MispConfig.

Lemma searchAttributes_calls (params : SearchAttributesParams.t) (w : World) :
  calls (snd (searchAttributes client params w))
  = (calls w ++ [search_request client params])%list.
Proof.
  unfold searchAttributes, bind, search_request.
  pose proof (request_calls client "POST" "/attributes/restSearch"
                (Some (searchAttributes_body params)) w) as H.
  destruct (request client "POST" "/attributes/restSearch"
              (Some (searchAttributes_body params)) w) as [[data | e] w1];
    simpl in *; auto.
  destruct data; simpl; exact H.
Qed.

Lemma getEvent_calls (eventId : string) (w : World) :
  calls (snd (getEvent client eventId w))
  = (calls w ++ [view_request client eventId])%list.
Proof.
  unfold getEvent, bind, view_request.
  pose proof (request_calls client "GET" ("/events/view/" ++ eventId) None w) as H.
  destruct (request client "GET" ("/events/view/" ++ eventId) None w)
    as [[data | e] w1]; simpl in *; auto.
  destruct data; simpl; exact H.
Qed.

Lemma related_events_unfold (eventId : string) (w : World) :
  misp_get_related_events client eventId w
  = match getEvent client eventId w with
    | (Throw e, w1) => (ToolError ("Error finding related events: " ++ e), w1)
    | (Ok None, w1) =>
        (ToolError ("Error finding related events: "
                    ++ "Cannot read properties of undefined (reading 'Attribute')"), w1)
    | (Ok (Some event), w1) =>
        if (List.length (eventAttributes event) =? 0)%nat
        then (ToolText ("Event " ++ eventId ++ " has no attributes to correlate."), w1)
        else
          match foldM seed_step
                  (match MispEvent.RelatedEvent event with Some l => l | None => [] end)
                  [] w1 with
          | (Throw e, w2) => (ToolError ("Error finding related events: " ++ e), w2)
          | (Ok seeds, w2) =>
              match foldM (search_step client eventId)
                      (valuesToSearch (eventAttributes event)) seeds w2 with
              | (Throw e, w3) => (ToolError ("Error finding related events: " ++ e), w3)
              | (Ok m, w3) =>
                  (ToolJson
                     {| RelatedResult.event_id := eventId;
                        RelatedResult.event_info := MispEvent.info event;
                        RelatedResult.related_events :=
                          js_sort by_count_desc (map_values m);
                        RelatedResult.total_related :=
                          List.length (js_sort by_count_desc (map_values m)) |}, w3)
              end
          end
    end.
Proof.
  unfold misp_get_related_events, handle, bind, eventAttributes.
  destruct (getEvent client eventId w) as [[[event | ] | e] w1]; try reflexivity.
  destruct (List.length _ =? 0)%nat; try reflexivity.
  destruct (foldM seed_step _ [] w1) as [[seeds | e] w2]; try reflexivity.
  destruct (foldM (search_step client eventId) _ seeds w2) as [[m | e] w3]; reflexivity.
Qed.

Lemma seed_fold (rels : list (option EventHead.t)) (m : JsMap RelatedEntry.t) (w : World) :
  snd (foldM seed_step rels m w) = w
  /\ (fresh_map m ->
      forall m', fst (foldM seed_step rels m w) = Ok m' ->
        fresh_map m'
        /\ forall k, In k (map_keys m') ->
             In k (map_keys m)
             \/ exists h, In (Some h) rels /\ EventHead.id h = k).
Proof.
  revert m. induction rels as [ | rel r IH]; simpl; intros m.
  - split; auto. intros Hf m' [= <-]. auto.
  - unfold bind. destruct rel as [h | ]; simpl.
    + destruct (IH (map_set (EventHead.id h)
                      {| RelatedEntry.event_id := EventHead.id h;
                         RelatedEntry.event_info := EventHead.info h;
                         RelatedEntry.overlapping_iocs := [];
                         RelatedEntry.correlation_count := 0 |} m)) as [Hw Hm].
      split; auto.
      intros [Hnd Hfresh] m' Hok.
      destruct (Hm) with (m' := m') as [Hf' Hk]; auto.
      * split; [now apply map_set_NoDup | ].
        intros k e. destruct (opt_string_eqb_spec k (EventHead.id h)) as [-> | Hne].
        -- rewrite map_get_set_same. intros [= <-]. auto.
        -- rewrite map_get_set_other by assumption. apply Hfresh.
      * split; auto. intros k Hin. destruct (Hk k Hin) as [Hin' | [h' [Hh Hid]]].
        -- destruct (map_has (EventHead.id h) m) eqn:E.
           ++ rewrite map_keys_set_old in Hin' by assumption. auto.
           ++ rewrite map_keys_set_new in Hin' by assumption.
              apply in_app_iff in Hin'. destruct Hin' as [Hin' | [<- | []]]; auto.
              right. exists h. auto.
        -- right. exists h'. auto.
    + split; auto. intros _ m' [=].
Qed.

Lemma search_fold (eventId : string) (values : list (option string))
  (m : JsMap RelatedEntry.t) (w : World) (m' : JsMap RelatedEntry.t) (w' : World) :
  foldM (search_step client eventId) values m w = (Ok m', w') ->
  map fst (search_log client values w) = values
  /\ m' = fold_left (occurrence_step eventId)
            (match_occurrences (search_log client values w)) m.
Proof.
  revert m w. induction values as [ | v r IH]; simpl; intros m w.
  - unfold ret. intros [= <- <-]. auto.
  - unfold bind, search_step at 1. unfold bind, ret.
    destruct (searchAttributes client (related_search v) w) as [[ms | e] w1];
      [ | discriminate].
    intros H. destruct (IH _ _ H) as [Hv Hm]. simpl. split; [congruence | ].
    unfold match_occurrences in *. simpl.
    rewrite fold_left_app, fold_pair. exact Hm.
Qed.

Lemma search_fold_calls (eventId : string) (values : list (option string))
  (m : JsMap RelatedEntry.t) (w : World) :
  exists k,
    k <= List.length values
    /\ k <= S (List.length (search_log client values w))
    /\ calls (snd (foldM (search_step client eventId) values m w))
       = (calls w
          ++ firstn k (map (fun v => search_request client (related_search v)) values))%list
    /\ (is_ok (fst (foldM (search_step client eventId) values m w)) = true ->
        k = List.length values).
Proof.
  revert m w. induction values as [ | v r IH]; simpl; intros m w.
  - exists 0. simpl. rewrite app_nil_r. auto.
  - unfold bind, search_step at 1 3. unfold bind, ret.
    pose proof (searchAttributes_calls (related_search v) w) as Hc.
    destruct (searchAttributes client (related_search v) w) as [[ms | e] w1];
      simpl in Hc.
    + destruct (IH (fold_left (match_step eventId v) ms m) w1)
        as [k [Hk [Hlog [Hcalls Hok]]]].
      exists (S k). split; [lia | ]. split; [simpl; lia | ]. split.
      * rewrite Hcalls, Hc, <- app_assoc. reflexivity.
      * intros H. f_equal. auto.
    + exists 1. split; [lia | ]. split; [simpl; lia | ].
      simpl. split; [exact Hc | discriminate].
Qed.

End DiscoveryProperties.

Lemma occurrences_keys_closed (eventId : string)
  (occs : list (option string * MispAttribute.t)) (m : JsMap RelatedEntry.t) :
  map_keys (fold_left (occurrence_step eventId) occs m)
  = (map_keys m
     ++ first_seen_from (map_keys m)
          (map (fun occ => MispAttribute.event_id (snd occ))
             (filter (foreign eventId) occs)))%list.
Proof.
  revert m. induction occs as [ | [v a] r IH]; simpl; intros m.
  - now rewrite app_nil_r.
  - rewrite IH. clear IH.
    replace (foreign eventId (v, a))
      with (negb (opt_string_eqb (MispAttribute.event_id a) (Some eventId)))
      by reflexivity.
    unfold occurrence_step, match_step. simpl.
    destruct (opt_string_eqb (MispAttribute.event_id a) (Some eventId)); simpl; auto.
    rewrite map_keys_modify, <- map_has_includes.
    destruct (map_has (MispAttribute.event_id a) m) eqn:E; simpl; auto.
    rewrite map_keys_set_new by assumption.
    rewrite <- app_assoc. simpl. do 2 f_equal.
    apply first_seen_from_ext. intros x.
    apply eq_true_iff_eq. rewrite !includes_In, in_app_iff. simpl. tauto.
Qed.

Lemma candidate_entry (eventId : string) (occs : list (option string * MispAttribute.t))
  (seeds : JsMap RelatedEntry.t) (e : RelatedEntry.t) :
  fresh_map seeds ->
  In e (js_sort by_count_desc
          (map_values (fold_left (occurrence_step eventId) occs seeds))) ->
  RelatedEntry.overlapping_iocs e
  = first_seen (map fst (filter (counted eventId (RelatedEntry.event_id e)) occs))
  /\ RelatedEntry.correlation_count e
     = List.length (filter (counted eventId (RelatedEntry.event_id e)) occs)
  /\ (In (RelatedEntry.event_id e) (map_keys seeds)
      \/ filter (counted eventId (RelatedEntry.event_id e)) occs <> []).
Proof.
  intros Hf Hin.
  apply (Permutation_in _ (js_sort_perm _)) in Hin.
  unfold map_values in Hin. apply in_map_iff in Hin.
  destruct Hin as [[k e'] [He Hin]]. simpl in He. subst e'.
  apply map_get_In in Hin; [ | apply occurrences_keys, Hf].
  destruct (final_entry _ _ _ _ _ Hf Hin) as [Hid [Hio [Hc Hnew]]].
  rewrite Hid. repeat split; auto.
  destruct (map_get k seeds) eqn:E; auto.
  left. destruct (in_dec (fun a b => reflect_dec _ _ (opt_string_eqb_spec a b))
                    k (map_keys seeds)) as [H | H]; auto.
  apply map_get_None in H. congruence.
Qed.


Section DiscoveryClaims.
Context {P : Platform}.
Variable client : MispConfig.

Lemma discovery_run (eventId : string) (w w1 w' : World) (event : MispEvent.t)
  (r : RelatedResult.t) :
  getEvent client eventId w = (Ok (Some event), w1) ->
  misp_get_related_events client eventId w = (ToolJson r, w') ->
  exists seeds,
    fst (foldM seed_step
           (match MispEvent.RelatedEvent event with Some l => l | None => [] end)
           [] w1) = Ok seeds
    /\ fresh_map seeds
    /\ (forall k, In k (map_keys seeds) ->
          exists h, In (Some h)
                      (match MispEvent.RelatedEvent event with Some l => l | None => [] end)
                    /\ EventHead.id h = k)
    /\ map fst (search_log client (valuesToSearch (eventAttributes event)) w1)
       = valuesToSearch (eventAttributes event)
    /\ r = {| RelatedResult.event_id := eventId;
              RelatedResult.event_info := MispEvent.info event;
              RelatedResult.related_events :=
                js_sort by_count_desc
                  (map_values
                     (fold_left (occurrence_step eventId)
                        (match_occurrences
                           (search_log client (valuesToSearch (eventAttributes event)) w1))
                        seeds));
              RelatedResult.total_related :=
                List.length
                  (js_sort by_count_desc
                     (map_values
                        (fold_left (occurrence_step eventId)
                           (match_occurrences
                              (search_log client
                                 (valuesToSearch (eventAttributes event)) w1))
                           seeds))) |}.
Proof.
  intros Hget Hrun. rewrite related_events_unfold, Hget in Hrun.
  destruct (List.length (eventAttributes event) =? 0)%nat; [discriminate | ].
  pose proof (seed_fold
                (match MispEvent.RelatedEvent event with Some l => l | None => [] end)
                [] w1) as [Hw Hseed].
  destruct (foldM seed_step _ [] w1) as [[seeds | e] w2]; [ | discriminate].
  simpl in Hw. subst w2.
  destruct (foldM (search_step client eventId) _ seeds w1) as [[m | e] w3] eqn:Hf;
    [ | discriminate].
  injection Hrun as <- <-.
  destruct (search_fold client _ _ _ _ _ _ Hf) as [Hv Hm].
  assert (Hempty : fresh_map []).
  { split; [constructor | ]. intros k e. simpl. discriminate. }
  destruct (Hseed Hempty seeds eq_refl) as [Hfresh Hkeys].
  exists seeds.
  split; [reflexivity | ]. split; [exact Hfresh | ].
  split; [ | split; [exact Hv | now rewrite Hm]].
  intros k Hin. destruct (Hkeys k Hin) as [[] | H]. exact H.
Qed.



(** C4. The candidates returned by event-relation discovery are those of
    the candidate map (the seeds, then the events discovered, in the order
    they were first inserted), sorted by descending [correlation_count];
    candidates with equal counts keep the order they have in the map. *)
Theorem related_events_sorted_stable
  (eventId : string) (w w1 w' : World) (event : MispEvent.t) (r : RelatedResult.t) :
  getEvent client eventId w = (Ok (Some event), w1) ->
  misp_get_related_events client eventId w = (ToolJson r, w') ->
  exists seeds candidates : JsMap RelatedEntry.t,
    fst (foldM seed_step
           (match MispEvent.RelatedEvent event with Some l => l | None => [] end)
           [] w1) = Ok seeds
    /\ candidates
       = fold_left (occurrence_step eventId)
           (match_occurrences
              (search_log client (valuesToSearch (eventAttributes event)) w1))
           seeds
    /\ map_keys candidates
       = (map_keys seeds
          ++ first_seen_from (map_keys seeds)
               (map (fun occ => MispAttribute.event_id (snd occ))
                  (filter (foreign eventId)
                     (match_occurrences
                        (search_log client (valuesToSearch (eventAttributes event))
                           w1)))))%list
    /\ StronglySorted count_ge (RelatedResult.related_events r)
    /\ Permutation (RelatedResult.related_events r) (map_values candidates)
    /\ (forall c, filter (has_count c) (RelatedResult.related_events r)
                  = filter (has_count c) (map_values candidates))
    /\ RelatedResult.total_related r = List.length (map_values candidates).
Proof.
  intros Hget Hrun.
  destruct (discovery_run _ _ _ _ _ _ Hget Hrun) as [seeds [Hs [_ [_ [_ Hr]]]]].
  exists seeds. eexists. split; [exact Hs | ]. split; [reflexivity | ].
  split; [apply occurrences_keys_closed | ].
  subst r. simpl.
  split; [apply Sorted_StronglySorted; [exact count_ge_trans | apply js_sort_sorted] | ].
  split; [apply js_sort_perm | ].
  split; [intros c; apply js_sort_stable | ].
  apply Permutation_length, js_sort_perm.
Qed.

End DiscoveryClaims.

(* ================================================================= *)
(** ** The bulk executor *)

Lemma filter_two_counts {A : Type} (p q : A -> bool) (l : list A) :
  (forall x, In x l -> p x && q x = false) ->
  List.length (filter p l) + List.length (filter q l) <= List.length l
  /\ (List.length (filter p l) + List.length (filter q l) = List.length l
      <-> forall x, In x l -> q x = false -> p x = true).
Proof.
  induction l as [ | x r IH]; simpl; intros H.
  - split; [lia | ]. split; [intros _ x [] | reflexivity].
  - assert (Hr : forall y, In y r -> p y && q y = false) by (intros y Hy; apply H; auto).
    destruct (IH Hr) as [IH1 IH2].
    pose proof (H x (or_introl eq_refl)) as Hx.
    destruct (p x) eqn:Ep, (q x) eqn:Eq; simpl in *; try discriminate.
    + split; [lia | ]. split.
      * intros Hl x' [<- | Hin] Hq; [assumption | ].
        apply (proj1 IH2); [lia | exact Hin | exact Hq].
      * intros Hall. f_equal. apply IH2. intros y Hy. apply Hall. auto.
    + split; [lia | ]. split.
      * intros Hl x' [<- | Hin] Hq; [congruence | ].
        apply (proj1 IH2); [lia | exact Hin | exact Hq].
      * intros Hall.
        assert (List.length (filter p r) + List.length (filter q r) = List.length r).
        { apply IH2. intros y Hy. apply Hall. auto. }
        lia.
    + split; [lia | ]. split.
      * intros Hl. lia.
      * intros Hall. specialize (Hall x (or_introl eq_refl) Eq). congruence.
Qed.

Section BulkProperties.
Context {P : Platform}.
Variable client : MispConfig.

Lemma request_text_throw_nonempty (method path : string) (body : option Json)
  (w : World) (e : string) :
  fst (request_text client method path body w) = Throw e -> e <> "".
Proof.
  unfold request_text.
  destruct (net (make_request client method path body) (remote w)) as [ev r'].
  destruct (fetch (timer_delay (timeout client)) ev) as [[resp | why] | err]; simpl.
  - destruct (ok resp); simpl; [discriminate | ].
    intros [= <-]. unfold status_prefix.
    repeat match goal with |- context [if ?c then _ else _] => destruct c end;
      simpl; discriminate.
  - intros [= <-]. discriminate.
  - intros [= <-]. destruct err as [name message | str]; simpl.
    + destruct (String.eqb name "AbortError"); simpl; discriminate.
    + discriminate.
Qed.

Lemma request_throw_nonempty (method path : string) (body : option Json)
  (w : World) (e : string) :
  fst (request client method path body w) = Throw e -> e <> "".
Proof.
  unfold request, bind.
  pose proof (request_text_throw_nonempty method path body w) as H.
  destruct (request_text client method path body w) as [[txt | e'] w1]; simpl in *.
  - destruct (JSON_parse txt); simpl; [discriminate | ].
    intros [= <-]. discriminate.
  - intros [= <-]. auto.
Qed.

(** [addAttribute] without tags: one request, then the [Attribute] of the
    answer. *)
Lemma addAttribute_untagged (eventId : string) (params : AddAttributeParams.t) (w : World) :
  AddAttributeParams.tags params = None ->
  addAttribute client eventId params w
  = match request client "POST" ("/attributes/add/" ++ eventId)
            (Some (addAttribute_body params)) w with
    | (Ok JNull, w1) =>
        (Throw "Cannot read properties of null (reading 'Attribute')", w1)
    | (Ok data, w1) =>
        (Ok (option_map as_MispAttribute (as_object (prop "Attribute" data))), w1)
    | (Throw e, w1) => (Throw e, w1)
    end.
Proof.
  intros Ht. unfold addAttribute, bind. rewrite Ht.
  destruct (request client "POST" ("/attributes/add/" ++ eventId)
              (Some (addAttribute_body params)) w) as [[data | e] w1]; auto.
  destruct data; reflexivity.
Qed.

Lemma addAttribute_untagged_calls (eventId : string) (params : AddAttributeParams.t)
  (w : World) :
  AddAttributeParams.tags params = None ->
  calls (snd (addAttribute client eventId params w))
  = (calls w ++ [add_request client eventId params])%list.
Proof.
  intros Ht. rewrite addAttribute_untagged by assumption.
  pose proof (request_calls client "POST" ("/attributes/add/" ++ eventId)
                (Some (addAttribute_body params)) w) as H.
  destruct (request client "POST" ("/attributes/add/" ++ eventId)
              (Some (addAttribute_body params)) w) as [[data | e] w1]; simpl in *; auto.
  destruct data; exact H.
Qed.

Lemma addAttribute_untagged_throw (eventId : string) (params : AddAttributeParams.t)
  (w : World) (e : string) :
  AddAttributeParams.tags params = None ->
  fst (addAttribute client eventId params w) = Throw e -> e <> "".
Proof.
  intros Ht. rewrite addAttribute_untagged by assumption.
  pose proof (request_throw_nonempty "POST" ("/attributes/add/" ++ eventId)
                (Some (addAttribute_body params)) w) as H.
  destruct (request client "POST" ("/attributes/add/" ++ eventId)
              (Some (addAttribute_body params)) w) as [[data | e'] w1]; simpl in *.
  - destruct data; simpl; try discriminate. intros [= <-]. discriminate.
  - intros [= <-]. auto.
Qed.

Lemma bulk_unit_run (eventId : string) (attr : BulkItem.t) (w : World) :
  bulk_unit client eventId attr w
  = (Ok (entry_of attr (fst (addAttribute client eventId (bulk_params attr) w))),
     snd (addAttribute client eventId (bulk_params attr) w)).
Proof.
  unfold bulk_unit, try_catch, bind.
  destruct (addAttribute client eventId (bulk_params attr) w) as [[[created | ] | e] w1];
    reflexivity.
Qed.

Lemma bulk_fold (eventId : string) (attributes : list BulkItem.t)
  (acc : list BulkEntry.t) (w : World) :
  foldM (bulk_step client eventId) attributes acc w
  = (Ok (acc ++ entries_of attributes (unit_runs client eventId attributes w))%list,
     after_units client eventId attributes w).
Proof.
  revert acc w. induction attributes as [ | attr r IH]; simpl; intros acc w.
  - unfold ret, entries_of. simpl. now rewrite app_nil_r.
  - unfold bind, bulk_step at 1. unfold bind. rewrite bulk_unit_run. unfold ret.
    rewrite IH.
    destruct (addAttribute client eventId (bulk_params attr) w) as [o w1]. simpl.
    unfold entries_of. simpl. now rewrite <- app_assoc.
Qed.

Lemma after_units_calls (eventId : string) (attributes : list BulkItem.t) (w : World) :
  calls (after_units client eventId attributes w)
  = (calls w ++ map (fun attr => add_request client eventId (bulk_params attr))
                  attributes)%list.
Proof.
  revert w. induction attributes as [ | attr r IH]; simpl; intros w.
  - now rewrite app_nil_r.
  - rewrite IH, addAttribute_untagged_calls by reflexivity.
    now rewrite <- app_assoc.
Qed.

Lemma unit_runs_length (eventId : string) (attributes : list BulkItem.t) (w : World) :
  List.length (unit_runs client eventId attributes w) = List.length attributes.
Proof.
  revert w. induction attributes as [ | attr r IH]; simpl; intros w; auto.
  destruct (addAttribute client eventId (bulk_params attr) w) as [o w1]. simpl.
  now rewrite IH.
Qed.

Lemma unit_runs_throw (eventId : string) (attributes : list BulkItem.t) (w : World)
  (e : string) :
  In (Throw e) (unit_runs client eventId attributes w) -> e <> "".
Proof.
  revert w. induction attributes as [ | attr r IH]; simpl; intros w; [tauto | ].
  pose proof (addAttribute_untagged_throw eventId (bulk_params attr) w e eq_refl) as H.
  destruct (addAttribute client eventId (bulk_params attr) w) as [o w1]. simpl in *.
  intros [-> | Hin]; eauto.
Qed.

End BulkProperties.

Lemma entries_count (p : BulkEntry.t -> bool) (q : Outcome (option MispAttribute.t) -> bool)
  (attributes : list BulkItem.t) (runs : list (Outcome (option MispAttribute.t))) :
  List.length runs = List.length attributes ->
  (forall a o, In o runs -> p (entry_of a o) = q o) ->
  List.length (filter p (entries_of attributes runs)) = List.length (filter q runs).
Proof.
  revert runs. induction attributes as [ | a r IH]; intros [ | o runs]; simpl;
    try discriminate; auto.
  intros Hl Hpq. unfold entries_of in *. simpl.
  rewrite (Hpq a o (or_introl eq_refl)).
  destruct (q o); simpl; rewrite IH; auto.
Qed.

Lemma entries_fields (attributes : list BulkItem.t)
  (runs : list (Outcome (option MispAttribute.t))) :
  List.length runs = List.length attributes ->
  map BulkEntry.value (entries_of attributes runs) = map BulkItem.value attributes
  /\ map BulkEntry.type (entries_of attributes runs) = map BulkItem.type attributes.
Proof.
  revert runs. induction attributes as [ | a r IH]; intros [ | o runs]; simpl;
    try discriminate; auto.
  intros Hl. destruct (IH runs) as [Hv Ht]; [lia | ].
  unfold entries_of in *. simpl. rewrite Hv, Ht.
  destruct o as [[created | ] | e]; auto.
Qed.

Section BulkClaims.
Context {P : Platform}.
Variable client : MispConfig.

Lemma entry_classes (eventId : string) (attributes : list BulkItem.t) (w : World)
  (a : BulkItem.t) (o : Outcome (option MispAttribute.t)) :
  In o (unit_runs client eventId attributes w) ->
  truthy_str (BulkEntry.id (entry_of a o)) = unit_has_id o
  /\ truthy_str (BulkEntry.error (entry_of a o)) = unit_failed o.
Proof.
  intros Hin. destruct o as [[created | ] | e]; simpl; auto.
  split; auto.
  apply unit_runs_throw in Hin.
  destruct (String.eqb_spec e ""); [contradiction | reflexivity].
Qed.

Lemma bulk_result (eventId : string) (attributes : list BulkItem.t) (w : World) :
  misp_add_attributes_bulk client eventId attributes w
  = (ToolJson
       {| BulkResult.total := List.length attributes;
          BulkResult.succeeded :=
            List.length (filter unit_has_id (unit_runs client eventId attributes w));
          BulkResult.failed :=
            List.length (filter unit_failed (unit_runs client eventId attributes w));
          BulkResult.results :=
            entries_of attributes (unit_runs client eventId attributes w) |},
     after_units client eventId attributes w).
Proof.
  unfold misp_add_attributes_bulk, handle, bind. rewrite bulk_fold. unfold ret. simpl.
  do 3 f_equal.
  - apply entries_count; [apply unit_runs_length | ].
    intros a o Hin. now apply entry_classes with (a := a) in Hin.
  - apply entries_count; [apply unit_runs_length | ].
    intros a o Hin. now apply entry_classes with (a := a) in Hin.
Qed.

Lemma has_id_not_failed (o : Outcome (option MispAttribute.t)) :
  unit_has_id o && unit_failed o = false.
Proof. destruct o as [[created | ] | e]; simpl; auto using andb_false_r. Qed.

(** C9, as the code has it. In the result of the bulk executor an item
    counts as succeeded exactly when its create returned an attribute with
    a non-empty id, and as failed exactly when its unit threw: when the
    create call failed, and also when it was answered without an attribute
    object, where reading [created.id] throws ([unit_failed]). A create
    that returns an attribute object without id counts in neither tally.
    So [succeeded + failed <= total], with equality exactly when every
    unit that did not throw returned a non-empty id. *)
Theorem bulk_tallies_by_id_and_error (eventId : string) (attributes : list BulkItem.t)
  (w : World) :
  exists r w',
    misp_add_attributes_bulk client eventId attributes w = (ToolJson r, w')
    /\ BulkResult.results r
       = entries_of attributes (unit_runs client eventId attributes w)
    /\ List.length (unit_runs client eventId attributes w) = List.length attributes
    /\ (forall a o,
          In o (unit_runs client eventId attributes w) ->
          truthy_str (BulkEntry.id (entry_of a o)) = unit_has_id o
          /\ truthy_str (BulkEntry.error (entry_of a o)) = unit_failed o)
    /\ BulkResult.succeeded r
       = List.length (filter unit_has_id (unit_runs client eventId attributes w))
    /\ BulkResult.failed r
       = List.length (filter unit_failed (unit_runs client eventId attributes w))
    /\ BulkResult.total r = List.length attributes
    /\ BulkResult.succeeded r + BulkResult.failed r <= BulkResult.total r
    /\ (BulkResult.succeeded r + BulkResult.failed r = BulkResult.total r
        <-> forall o, In o (unit_runs client eventId attributes w) ->
                      unit_failed o = false -> unit_has_id o = true).
Proof.
  eexists. eexists. split; [apply bulk_result | ]. simpl.
  pose proof (unit_runs_length client eventId attributes w) as Hl.
  pose proof (filter_two_counts unit_has_id unit_failed
                (unit_runs client eventId attributes w)
                (fun o _ => has_id_not_failed o)) as [Hle Heq].
  rewrite Hl in Hle, Heq.
  split; [reflexivity | ]. split; [exact Hl | ].
  split; [intros a o Hin; eapply entry_classes; eauto | ].
  split; [reflexivity | ]. split; [reflexivity | ]. split; [reflexivity | ].
  split; [exact Hle | exact Heq].
Qed.

(** C5, as the executor has it. Every unit of a batch of N runs, in input
    order, whatever the outcome of the units before it: one create call per
    item. The result has [total = N], [failed = k] where k units threw,
    the per-item results in input order, and [succeeded] the number of
    creates that returned a non-empty id -- which is [N - k] when every
    create that did not throw returned one. *)
Theorem bulk_runs_every_unit (eventId : string) (attributes : list BulkItem.t)
  (w : World) :
  exists r w',
    misp_add_attributes_bulk client eventId attributes w = (ToolJson r, w')
    /\ calls w'
       = (calls w ++ map (fun attr => add_request client eventId (bulk_params attr))
                       attributes)%list
    /\ BulkResult.total r = List.length attributes
    /\ BulkResult.failed r
       = List.length (filter unit_failed (unit_runs client eventId attributes w))
    /\ BulkResult.succeeded r
       = List.length (filter unit_has_id (unit_runs client eventId attributes w))
    /\ ((forall o, In o (unit_runs client eventId attributes w) ->
                   unit_failed o = false -> unit_has_id o = true) ->
        BulkResult.succeeded r
        = List.length attributes
          - List.length (filter unit_failed (unit_runs client eventId attributes w)))
    /\ BulkResult.results r
       = entries_of attributes (unit_runs client eventId attributes w)
    /\ map BulkEntry.value (BulkResult.results r) = map BulkItem.value attributes
    /\ map BulkEntry.type (BulkResult.results r) = map BulkItem.type attributes.
Proof.
  eexists. eexists. split; [apply bulk_result | ]. simpl.
  pose proof (unit_runs_length client eventId attributes w) as Hl.
  pose proof (filter_two_counts unit_has_id unit_failed
                (unit_runs client eventId attributes w)
                (fun o _ => has_id_not_failed o)) as [Hle Heq].
  rewrite Hl in Hle, Heq.
  destruct (entries_fields attributes _ Hl) as [Hv Ht].
  split; [apply after_units_calls | ].
  repeat (split; [reflexivity | ]).
  split; [ | auto].
  intros Hall. apply Heq in Hall. lia.
Qed.

End BulkClaims.

(* ================================================================= *)
(** ** Creation with an initial tag set *)

Section TaggingProperties.
Context {P : Platform}.
Variable client : MispConfig.

Lemma tagEvent_calls (id tag : string) (w : World) :
  calls (snd (tagEvent client id tag w)) = (calls w ++ [tag_request client id tag])%list.
Proof. apply request_calls. Qed.

Lemma tagAttribute_calls (id tag : string) (w : World) :
  calls (snd (tagAttribute client id tag w))
  = (calls w ++ [attribute_tag_request client id tag])%list.
Proof. apply request_calls. Qed.

Lemma forM_all_ok {B : Type} (step : string -> M B) (tags : list string) (w w2 : World) :
  after_all step tags w = Some w2 -> forM_ tags step w = (Ok tt, w2).
Proof.
  revert w. induction tags as [ | tag rest IH]; simpl; intros w.
  - intros [= <-]. reflexivity.
  - unfold bind. destruct (step tag w) as [[b | e] w']; [apply IH | discriminate].
Qed.

Lemma forM_first_failure {B : Type} (step : string -> M B) (tags : list string)
  (w : World) (done : list string) (tag : string) (rest : list string) (wk : World)
  (e : string) (w2 : World) :
  first_failure step tags w done tag rest wk e w2 ->
  forM_ tags step w = (Throw e, w2).
Proof.
  intros [-> [Hd Hs]]. revert w Hd. induction done as [ | d ds IH]; simpl; intros w.
  - intros [= <-]. unfold bind. rewrite Hs. reflexivity.
  - unfold bind. destruct (step d w) as [[b | e'] w']; [apply IH | discriminate].
Qed.

Lemma after_all_calls {B : Type} (step : string -> M B) (rq : string -> Request) :
  (forall tag w, calls (snd (step tag w)) = (calls w ++ [rq tag])%list) ->
  forall tags w w2,
    after_all step tags w = Some w2 -> calls w2 = (calls w ++ map rq tags)%list.
Proof.
  intros Hs tags. induction tags as [ | tag rest IH]; simpl; intros w w2.
  - intros [= <-]. now rewrite app_nil_r.
  - pose proof (Hs tag w) as Hc.
    destruct (step tag w) as [[b | e] w']; [ | discriminate].
    intros H. rewrite (IH _ _ H). simpl in Hc. rewrite Hc, <- app_assoc. reflexivity.
Qed.

(** Either every call succeeds, or there is a first one that fails. *)
Lemma after_all_cases {B : Type} (step : string -> M B) (tags : list string) (w : World) :
  (exists w2, after_all step tags w = Some w2)
  \/ (exists done tag rest wk e w2, first_failure step tags w done tag rest wk e w2).
Proof.
  revert w. induction tags as [ | tag rest IH]; simpl; intros w; [left; eauto | ].
  destruct (step tag w) as [[b | e] w'] eqn:Hs.
  - destruct (IH w') as [[w2 H] | [done [t [r [wk [e [w2 [Ht [Hd Hf]]]]]]]]].
    + left. eauto.
    + right. exists (tag :: done), t, r, wk, e, w2.
      split; [simpl; congruence | ]. split; [simpl; rewrite Hs; exact Hd | exact Hf].
  - right. exists [], tag, rest, w, e, w'.
    split; [reflexivity | ]. split; [reflexivity | exact Hs].
Qed.

Lemma createEvent_tagged (params : CreateEventParams.t) (w w1 : World) (data : Json)
  (tags : list string) (id : string) :
  request client "POST" "/events/add" (Some (createEvent_body params)) w = (Ok data, w1) ->
  CreateEventParams.tags params = Some tags ->
  tags <> [] ->
  as_string (opt_prop "id" (prop "Event" data)) = Some id ->
  id <> "" ->
  createEvent client params w
  = match forM_ tags (fun tag => tagEvent client id tag) w1 with
    | (Ok _, w2) => getEvent client id w2
    | (Throw e, w2) => (Throw e, w2)
    end.
Proof.
  intros Hr Ht Hne Hid Hid'.
  unfold createEvent. unfold bind at 1. rewrite Hr, Ht.
  destruct tags as [ | t ts]; [congruence | ].
  destruct data; simpl in Hid; try discriminate.
  unfold get at 1. unfold bind at 1, ret at 1.
  simpl prop.
  destruct (assoc "Event" fields) as [ev | ]; simpl in Hid; [ | discriminate].
  destruct ev; simpl in Hid; try discriminate.
  unfold get at 1. unfold bind at 1, ret at 1. unfold prop at 1.
  rewrite Hid.
  destruct (String.eqb_spec id ""); [contradiction | ].
  change (negb false) with true. cbv iota. unfold bind at 1.
  destruct (forM_ (t :: ts) (fun tag => tagEvent client id tag) w1) as [[u | e] w2];
    reflexivity.
Qed.

Lemma createEvent_untagged (params : CreateEventParams.t) (w : World) :
  CreateEventParams.tags params = None \/ CreateEventParams.tags params = Some [] ->
  createEvent client params w
  = match request client "POST" "/events/add" (Some (createEvent_body params)) w with
    | (Ok JNull, w1) => (Throw "Cannot read properties of null (reading 'Event')", w1)
    | (Ok data, w1) => (Ok (option_map as_MispEvent (as_object (prop "Event" data))), w1)
    | (Throw e, w1) => (Throw e, w1)
    end.
Proof.
  intros Ht. unfold createEvent, bind.
  destruct (request client "POST" "/events/add" (Some (createEvent_body params)) w)
    as [[data | e] w1]; auto.
  destruct Ht as [-> | ->]; destruct data; reflexivity.
Qed.

Lemma addAttribute_tagged (eventId : string) (params : AddAttributeParams.t)
  (w w1 : World) (data : Json) (tags : list string) (id : string) :
  request client "POST" ("/attributes/add/" ++ eventId)
    (Some (addAttribute_body params)) w = (Ok data, w1) ->
  AddAttributeParams.tags params = Some tags ->
  tags <> [] ->
  as_string (opt_prop "id" (prop "Attribute" data)) = Some id ->
  id <> "" ->
  addAttribute client eventId params w
  = match forM_ tags
            (fun tag => request client "POST" "/attributes/addTag"
                          (Some (JObj [("attribute", JStr id); ("tag", JStr tag)]))) w1 with
    | (Ok _, w2) =>
        (Ok (option_map as_MispAttribute (as_object (prop "Attribute" data))), w2)
    | (Throw e, w2) => (Throw e, w2)
    end.
Proof.
  intros Hr Ht Hne Hid Hid'.
  unfold addAttribute. unfold bind at 1. rewrite Hr, Ht.
  destruct tags as [ | t ts]; [congruence | ].
  destruct data; simpl in Hid; try discriminate.
  unfold get at 1. unfold bind at 1, ret at 1.
  change (prop "Attribute" (JObj fields)) with (assoc "Attribute" fields).
  rewrite Hid.
  destruct (String.eqb_spec id ""); [contradiction | ].
  change (negb false) with true. cbv iota. unfold bind at 1.
  destruct (forM_ (t :: ts) _ w1) as [[u | e] w2]; reflexivity.
Qed.

Lemma addAttribute_untagged' (eventId : string) (params : AddAttributeParams.t) (w : World) :
  AddAttributeParams.tags params = None \/ AddAttributeParams.tags params = Some [] ->
  addAttribute client eventId params w
  = match request client "POST" ("/attributes/add/" ++ eventId)
            (Some (addAttribute_body params)) w with
    | (Ok JNull, w1) =>
        (Throw "Cannot read properties of null (reading 'Attribute')", w1)
    | (Ok data, w1) =>
        (Ok (option_map as_MispAttribute (as_object (prop "Attribute" data))), w1)
    | (Throw e, w1) => (Throw e, w1)
    end.
Proof.
  intros Ht. unfold addAttribute, bind.
  destruct (request client "POST" ("/attributes/add/" ++ eventId)
              (Some (addAttribute_body params)) w) as [[data | e] w1]; auto.
  destruct Ht as [-> | ->]; destruct data; reflexivity.
Qed.

End TaggingProperties.

Section TaggingClaims.
Context {P : Platform}.
Variable client : MispConfig.

(** C6, as the client has it. Creation with a non-empty tag set issues
    one create call and then, when the answer carries a non-empty id, the
    tag calls, one per tag in order, stopping at the first one that fails:
    the tags after it are not applied. For an event: when every tag call
    succeeds the event is re-fetched once and the outcome of the re-fetch
    is returned; when a tag call fails the creation fails with the error
    of that call, and nothing is re-fetched. For an attribute there is no
    re-fetch: when every tag call succeeds the original create response is
    returned, and a failing tag call makes the creation fail with its
    error. One of the two always is the case. Without tags the create call
    is the only call and its response is returned. *)
Theorem tags_follow_creation :
  (forall params w data w1 tags id,
     request client "POST" "/events/add" (Some (createEvent_body params)) w
     = (Ok data, w1) ->
     CreateEventParams.tags params = Some tags ->
     tags <> [] ->
     as_string (opt_prop "id" (prop "Event" data)) = Some id ->
     id <> "" ->
     (forall w2,
        after_all (tagEvent client id) tags w1 = Some w2 ->
        createEvent client params w = getEvent client id w2
        /\ calls (snd (createEvent client params w))
           = (calls w ++ create_request client params
                :: map (tag_request client id) tags
                ++ [view_request client id])%list)
     /\ (forall done tag rest wk e w2,
           first_failure (tagEvent client id) tags w1 done tag rest wk e w2 ->
           createEvent client params w = (Throw e, w2)
           /\ calls w2
              = (calls w ++ create_request client params
                   :: map (tag_request client id) (done ++ [tag]))%list)
     /\ ((exists w2, after_all (tagEvent client id) tags w1 = Some w2)
         \/ (exists done tag rest wk e w2,
               first_failure (tagEvent client id) tags w1 done tag rest wk e w2)))
  /\ (forall eventId params w data w1 tags id,
        request client "POST" ("/attributes/add/" ++ eventId)
          (Some (addAttribute_body params)) w = (Ok data, w1) ->
        AddAttributeParams.tags params = Some tags ->
        tags <> [] ->
        as_string (opt_prop "id" (prop "Attribute" data)) = Some id ->
        id <> "" ->
        (forall w2,
           after_all (tagAttribute client id) tags w1 = Some w2 ->
           addAttribute client eventId params w
           = (Ok (option_map as_MispAttribute (as_object (prop "Attribute" data))), w2)
           /\ calls w2
              = (calls w ++ add_request client eventId params
                   :: map (attribute_tag_request client id) tags)%list)
        /\ (forall done tag rest wk e w2,
              first_failure (tagAttribute client id) tags w1 done tag rest wk e w2 ->
              addAttribute client eventId params w = (Throw e, w2)
              /\ calls w2
                 = (calls w ++ add_request client eventId params
                      :: map (attribute_tag_request client id) (done ++ [tag]))%list)
        /\ ((exists w2, after_all (tagAttribute client id) tags w1 = Some w2)
            \/ (exists done tag rest wk e w2,
                  first_failure (tagAttribute client id) tags w1 done tag rest wk e w2)))
  /\ (forall params w,
        CreateEventParams.tags params = None \/ CreateEventParams.tags params = Some [] ->
        calls (snd (createEvent client params w))
        = (calls w ++ [create_request client params])%list
        /\ forall data w1,
             request client "POST" "/events/add" (Some (createEvent_body params)) w
             = (Ok data, w1) ->
             data <> JNull ->
             createEvent client params w
             = (Ok (option_map as_MispEvent (as_object (prop "Event" data))), w1))
  /\ (forall eventId params w,
        AddAttributeParams.tags params = None
        \/ AddAttributeParams.tags params = Some [] ->
        calls (snd (addAttribute client eventId params w))
        = (calls w ++ [add_request client eventId params])%list
        /\ forall data w1,
             request client "POST" ("/attributes/add/" ++ eventId)
               (Some (addAttribute_body params)) w = (Ok data, w1) ->
             data <> JNull ->
             addAttribute client eventId params w
             = (Ok (option_map as_MispAttribute (as_object (prop "Attribute" data))), w1)).
Proof.
  split; [ | split; [ | split]].
  - intros params w data w1 tags id Hr Ht Hne Hid Hid'.
    pose proof (request_calls client "POST" "/events/add"
                  (Some (createEvent_body params)) w) as Hc.
    rewrite Hr in Hc. simpl in Hc.
    rewrite (createEvent_tagged client params w w1 data tags id Hr Ht Hne Hid Hid').
    split; [ | split; [ | apply after_all_cases]].
    + intros w2 Hall.
      pose proof (after_all_calls (tagEvent client id) (tag_request client id)
                    (tagEvent_calls client id) tags w1 w2 Hall) as Hcalls.
      change (fun tag => tagEvent client id tag) with (tagEvent client id).
      rewrite (forM_all_ok _ _ _ _ Hall).
      split; [reflexivity | ].
      rewrite getEvent_calls, Hcalls, Hc, <- !app_assoc. reflexivity.
    + intros done tag rest wk e w2 Hf.
      change (fun tag => tagEvent client id tag) with (tagEvent client id).
      rewrite (forM_first_failure _ _ _ _ _ _ _ _ _ Hf).
      split; [reflexivity | ].
      destruct Hf as [_ [Hd Hs]].
      pose proof (after_all_calls (tagEvent client id) (tag_request client id)
                    (tagEvent_calls client id) done w1 wk Hd) as Hcalls.
      pose proof (tagEvent_calls client id tag wk) as Hlast.
      rewrite Hs in Hlast. simpl in Hlast.
      rewrite Hlast, Hcalls, Hc, map_app, <- !app_assoc. reflexivity.
  - intros eventId params w data w1 tags id Hr Ht Hne Hid Hid'.
    pose proof (request_calls client "POST" ("/attributes/add/" ++ eventId)
                  (Some (addAttribute_body params)) w) as Hc.
    rewrite Hr in Hc. simpl in Hc.
    rewrite (addAttribute_tagged client eventId params w w1 data tags id Hr Ht Hne Hid Hid').
    change (fun tag => request client "POST" "/attributes/addTag"
                         (Some (JObj [("attribute", JStr id); ("tag", JStr tag)])))
      with (tagAttribute client id).
    split; [ | split; [ | apply after_all_cases]].
    + intros w2 Hall.
      pose proof (after_all_calls (tagAttribute client id) (attribute_tag_request client id)
                    (tagAttribute_calls client id) tags w1 w2 Hall) as Hcalls.
      rewrite (forM_all_ok _ _ _ _ Hall).
      split; [reflexivity | ].
      rewrite Hcalls, Hc, <- !app_assoc. reflexivity.
    + intros done tag rest wk e w2 Hf.
      rewrite (forM_first_failure _ _ _ _ _ _ _ _ _ Hf).
      split; [reflexivity | ].
      destruct Hf as [_ [Hd Hs]].
      pose proof (after_all_calls (tagAttribute client id) (attribute_tag_request client id)
                    (tagAttribute_calls client id) done w1 wk Hd) as Hcalls.
      pose proof (tagAttribute_calls client id tag wk) as Hlast.
      rewrite Hs in Hlast. simpl in Hlast.
      rewrite Hlast, Hcalls, Hc, map_app, <- !app_assoc. reflexivity.
  - intros params w Ht.
    rewrite (createEvent_untagged client params w Ht).
    pose proof (request_calls client "POST" "/events/add"
                  (Some (createEvent_body params)) w) as Hc.
    destruct (request client "POST" "/events/add" (Some (createEvent_body params)) w)
      as [[data | e] w1]; simpl in Hc.
    + split; [destruct data; exact Hc | ].
      intros data' w1' [= <- <-] Hnn. destruct data; congruence.
    + split; [exact Hc | ]. intros data w1' [=].
  - intros eventId params w Ht.
    rewrite (addAttribute_untagged' client eventId params w Ht).
    pose proof (request_calls client "POST" ("/attributes/add/" ++ eventId)
                  (Some (addAttribute_body params)) w) as Hc.
    destruct (request client "POST" ("/attributes/add/" ++ eventId)
                (Some (addAttribute_body params)) w) as [[data | e] w1]; simpl in Hc.
    + split; [destruct data; exact Hc | ].
      intros data' w1' [= <- <-] Hnn. destruct data; congruence.
    + split; [exact Hc | ]. intros data w1' [=].
Qed.

End TaggingClaims.

(* ================================================================= *)
(** ** The default limit of attribute searches *)

Lemma first_seen_from_length (seen l : list (option string)) :
  List.length (first_seen_from seen l) <= List.length l.
Proof.
  revert seen. induction l as [ | x r IH]; simpl; intros seen; auto.
  destruct (includes x seen); simpl.
  - specialize (IH seen). lia.
  - specialize (IH (x :: seen)). lia.
Qed.

Lemma match_occurrences_length (searches : list (option string * list MispAttribute.t)) :
  (forall v ms, In (v, ms) searches -> List.length ms <= 50) ->
  List.length (match_occurrences searches) <= 50 * List.length searches.
Proof.
  induction searches as [ | [v ms] r IH]; simpl; intros H; auto.
  unfold match_occurrences in *. simpl.
  rewrite length_app, length_map.
  specialize (H v ms (or_introl eq_refl)) as Hms.
  assert (List.length (flat_map (fun s => map (pair (fst s)) (snd s)) r)
          <= 50 * List.length r) by (apply IH; intros; eapply H; eauto).
  lia.
Qed.

Section LimitClaims.
Context {P : Platform}.
Variable client : MispConfig.

Lemma default_limit_sent (params : SearchAttributesParams.t) :
  SearchAttributesParams.limit params = None ->
  prop "limit" (searchAttributes_body params) = Some (JNum 50).
Proof. intros H. unfold searchAttributes_body. rewrite H. reflexivity. Qed.

Lemma correlate_calls (value : string) (w : World) :
  calls (snd (misp_correlate client value w))
  = (calls w ++ [search_request client (correlate_search value)])%list.
Proof.
  unfold misp_correlate, handle, bind.
  pose proof (searchAttributes_calls client (correlate_search value) w) as H.
  destruct (searchAttributes client (correlate_search value) w) as [[l | e] w1];
    simpl in *; auto.
  destruct (List.length l =? 0)%nat; exact H.
Qed.

Lemma correlate_run (value : string) (w w' : World) (r : CorrelateResult.t) :
  misp_correlate client value w = (ToolJson r, w') ->
  exists attributes,
    searchAttributes client (correlate_search value) w = (Ok attributes, w')
    /\ r = correlate_result value attributes.
Proof.
  unfold misp_correlate, handle, bind.
  destruct (searchAttributes client (correlate_search value) w) as [[l | e] w1];
    [ | discriminate].
  destruct (List.length l =? 0)%nat; unfold ret; [discriminate | ].
  intros [= <- <-]. eauto.
Qed.

Lemma discovery_calls (eventId : string) (w : World) :
  exists values k,
    calls (snd (misp_get_related_events client eventId w))
    = (calls w ++ view_request client eventId
         :: firstn k (map (fun v => search_request client (related_search v))
                        values))%list.
Proof.
  pose proof (getEvent_calls client eventId w) as Hc.
  rewrite related_events_unfold.
  destruct (getEvent client eventId w) as [[[event | ] | e] w0]; simpl in Hc;
    try (exists [], 0; exact Hc).
  destruct (List.length (eventAttributes event) =? 0)%nat;
    [exists [], 0; exact Hc | ].
  pose proof (seed_fold
                (match MispEvent.RelatedEvent event with Some l => l | None => [] end)
                [] w0) as [Hw _].
  destruct (foldM seed_step _ [] w0) as [[seeds | e] w2]; simpl in Hw; subst w2;
    [ | exists [], 0; exact Hc].
  destruct (search_fold_calls client eventId (valuesToSearch (eventAttributes event))
              seeds w0) as [k [_ [_ [Hcalls _]]]].
  exists (valuesToSearch (eventAttributes event)), k.
  destruct (foldM (search_step client eventId) _ seeds w0) as [[m | e] w3];
    simpl in *; rewrite Hcalls, Hc, <- app_assoc; reflexivity.
Qed.

Lemma search_request_carries_limit (params : SearchAttributesParams.t) :
  SearchAttributesParams.limit params = None ->
  carries_limit_50 (search_request client params).
Proof.
  intros H. exists (searchAttributes_body params).
  split; [reflexivity | apply default_limit_sent; exact H].
Qed.

(** [searchAttributes] hands over what the remote answered, whole. *)
Lemma searchAttributes_whole (params : SearchAttributesParams.t) (w w' : World)
  (data : Json) (items : list Json) :
  request client "POST" "/attributes/restSearch"
    (Some (searchAttributes_body params)) w = (Ok data, w') ->
  as_array (opt_prop "Attribute" (prop "response" data)) = Some items ->
  searchAttributes client params w = (Ok (map as_MispAttribute items), w').
Proof.
  intros Hr Ha. unfold searchAttributes, bind at 1. rewrite Hr.
  destruct data; simpl in Ha; try discriminate.
  unfold get, bind, ret. unfold prop at 1.
  change (prop "response" (JObj fields)) with (assoc "response" fields) in Ha.
  rewrite Ha. reflexivity.
Qed.

Lemma searchAttributes_run (params : SearchAttributesParams.t) (w w' : World)
  (l : list MispAttribute.t) :
  searchAttributes client params w = (Ok l, w') ->
  exists data,
    request client "POST" "/attributes/restSearch"
      (Some (searchAttributes_body params)) w = (Ok data, w')
    /\ l = match as_array (opt_prop "Attribute" (prop "response" data)) with
           | Some items => map as_MispAttribute items
           | None => []
           end.
Proof.
  unfold searchAttributes, bind at 1.
  destruct (request client "POST" "/attributes/restSearch"
              (Some (searchAttributes_body params)) w) as [[data | e] w1];
    [ | discriminate].
  destruct data; unfold get, bind, ret, throw; try discriminate;
    intros [= <- <-]; eexists; split; reflexivity.
Qed.

Lemma honoured_search (params : SearchAttributesParams.t) (w w' : World)
  (l : list MispAttribute.t) :
  honours_default_limit client ->
  SearchAttributesParams.limit params = None ->
  searchAttributes client params w = (Ok l, w') ->
  List.length l <= 50.
Proof.
  intros Hh Hl Hs. destruct (searchAttributes_run _ _ _ _ Hs) as [data [Hr ->]].
  destruct (as_array (opt_prop "Attribute" (prop "response" data))) as [items | ] eqn:Ha;
    [ | simpl; lia].
  rewrite length_map.
  apply (Hh params w data w' items); [apply default_limit_sent; exact Hl | exact Hr | exact Ha].
Qed.

Lemma search_log_bounded (values : list (option string)) (w : World) :
  honours_default_limit client ->
  forall v ms, In (v, ms) (search_log client values w) -> List.length ms <= 50.
Proof.
  intros Hh. revert w. induction values as [ | v0 r IH]; simpl; intros w v ms; [tauto | ].
  destruct (searchAttributes client (related_search v0) w) as [[l | e] w1] eqn:E;
    simpl; [ | tauto].
  intros [[= <- <-] | Hin]; eauto.
  eapply honoured_search; [exact Hh | | exact E]. reflexivity.
Qed.

(** C10, as the code has it. An attribute search issued without an
    explicit limit sends [limit = 50] in the body of its request; so do
    the single search of [misp_correlate] and every per-value search of
    [misp_get_related_events], which are the only searches these tools
    send. The client does not cut the answer: [searchAttributes] returns
    every attribute the remote answered with, value correlation counts
    them all, and in event-relation discovery every match of every search
    counts. So the bound of 50 holds against a remote that applies the
    limit it is sent, and only there: value correlation then surveys at
    most 50 attributes, and each searched value contributes at most 50
    matches to a candidate's [correlation_count]. *)
Theorem default_limit_is_50 :
  (forall params w,
     SearchAttributesParams.limit params = None ->
     calls (snd (searchAttributes client params w))
     = (calls w ++ [search_request client params])%list
     /\ exists body,
          rq_body (search_request client params) = Some body
          /\ prop "limit" body = Some (JNum 50))
  /\ (forall value w,
        calls (snd (misp_correlate client value w))
        = (calls w ++ [search_request client (correlate_search value)])%list
        /\ exists body,
             rq_body (search_request client (correlate_search value)) = Some body
             /\ prop "limit" body = Some (JNum 50))
  /\ (forall eventId w,
        exists values k,
          calls (snd (misp_get_related_events client eventId w))
          = (calls w ++ view_request client eventId
               :: firstn k (map (fun v => search_request client (related_search v))
                              values))%list
          /\ forall v,
               exists body,
                 rq_body (search_request client (related_search v)) = Some body
                 /\ prop "limit" body = Some (JNum 50))
  /\ (forall params w data w' items,
        request client "POST" "/attributes/restSearch"
          (Some (searchAttributes_body params)) w = (Ok data, w') ->
        as_array (opt_prop "Attribute" (prop "response" data)) = Some items ->
        searchAttributes client params w = (Ok (map as_MispAttribute items), w'))
  /\ (forall value w attributes w',
        searchAttributes client (correlate_search value) w = (Ok attributes, w') ->
        attributes <> [] ->
        exists r,
          misp_correlate client value w = (ToolJson r, w')
          /\ CorrelateResult.total_attributes r = List.length attributes)
  /\ (forall eventId w event w1 r w',
        getEvent client eventId w = (Ok (Some event), w1) ->
        misp_get_related_events client eventId w = (ToolJson r, w') ->
        forall e,
          In e (RelatedResult.related_events r) ->
          RelatedEntry.correlation_count e
          = List.length
              (filter (counted eventId (RelatedEntry.event_id e))
                 (match_occurrences
                    (search_log client (valuesToSearch (eventAttributes event)) w1))))
  /\ (honours_default_limit client ->
      (forall value w r w',
         misp_correlate client value w = (ToolJson r, w') ->
         CorrelateResult.total_attributes r <= 50
         /\ CorrelateResult.total_events r <= CorrelateResult.total_attributes r)
      /\ (forall eventId w event w1 r w',
            getEvent client eventId w = (Ok (Some event), w1) ->
            misp_get_related_events client eventId w = (ToolJson r, w') ->
            (forall v ms,
               In (v, ms) (search_log client (valuesToSearch (eventAttributes event)) w1) ->
               List.length ms <= 50)
            /\ forall e,
                 In e (RelatedResult.related_events r) ->
                 RelatedEntry.correlation_count e
                 <= 50 * List.length (valuesToSearch (eventAttributes event)))).
Proof.
  split.
  { intros params w Hl. split; [apply searchAttributes_calls | ].
    apply search_request_carries_limit. exact Hl. }
  split.
  { intros value w. split; [apply correlate_calls | ].
    apply search_request_carries_limit. reflexivity. }
  split.
  { intros eventId w. destruct (discovery_calls eventId w) as [values [k H]].
    exists values, k. split; [exact H | ].
    intros v. apply search_request_carries_limit. reflexivity. }
  split; [intros params w data w' items; apply searchAttributes_whole | ].
  split.
  { intros value w attributes w' Hs Hne.
    unfold misp_correlate, handle, bind. rewrite Hs.
    destruct attributes as [ | a l]; [congruence | ].
    simpl. eexists. split; reflexivity. }
  split.
  { intros eventId w event w1 r w' Hget Hrun.
    destruct (discovery_run _ _ _ _ _ _ _ Hget Hrun) as [seeds [_ [Hfresh [_ [Hv Hr]]]]].
    subst r. simpl. intros e Hin.
    destruct (candidate_entry _ _ _ _ Hfresh Hin) as [_ [Hc _]]. exact Hc. }
  intros Hh. split.
  - intros value w r w' Hrun.
    destruct (correlate_run _ _ _ _ Hrun) as [attributes [Hs ->]].
    unfold correlate_result. simpl. split.
    + eapply honoured_search; [exact Hh | | exact Hs]. reflexivity.
    + unfold map_size. rewrite <- (length_map fst).
      fold (map_keys (fold_left aggregate_step attributes [])).
      rewrite aggregate_keys. simpl.
      rewrite <- (length_map MispAttribute.event_id attributes).
      apply first_seen_from_length.
  - intros eventId w event w1 r w' Hget Hrun.
    pose proof (search_log_bounded (valuesToSearch (eventAttributes event)) w1 Hh) as Hb.
    split; [exact Hb | ].
    destruct (discovery_run _ _ _ _ _ _ _ Hget Hrun) as [seeds [_ [Hfresh [_ [Hv Hr]]]]].
    subst r. simpl. intros e Hin.
    destruct (candidate_entry _ _ _ _ Hfresh Hin) as [_ [Hc _]].
    rewrite Hc.
    etransitivity; [apply filter_length_le | ].
    etransitivity; [apply match_occurrences_length, Hb | ].
    rewrite <- (length_map fst), Hv. reflexivity.
Qed.

End LimitClaims.

(* ================================================================= *)
(** ** The properties on the example exchanges *)

(** C1 does not hold of an empty response: a search without hits is
    answered by a plain message, no counts and no groups are reported. *)
Lemma correlate_empty_response_is_plain_message :
  fst (searchAttributes (P := lab) example_config (correlate_search "not-found.com")
         (lab_start [replies no_hits])) = Ok []
  /\ fst (misp_correlate (P := lab) example_config "not-found.com"
            (lab_start [replies no_hits]))
     = ToolText ("No results found for " ++ dq ++ "not-found.com" ++ dq ++ " in MISP.").
Proof. split; vm_compute; reflexivity. Qed.

(** C1 on the two attributes holding 10.0.0.1. *)
Lemma correlate_partitions_by_event_witness :
  exists r,
    fst (misp_correlate (P := lab) example_config "10.0.0.1"
           (lab_start [replies hits_10_0_0_1])) = ToolJson r
    /\ map EventGroup.event_id (CorrelateResult.found_in_events r)
       = [Some "42"; Some "43"]
    /\ CorrelateResult.total_events r = 2
    /\ CorrelateResult.total_attributes r = 2
    /\ CorrelateResult.correlations r
       = Some [{| Correlation.value := Some "10.0.0.1";
                  Correlation.type := Some "ip-dst";
                  Correlation.event_id := Some "43" |}].
Proof.
  edestruct (correlate_partitions_by_event (P := lab) example_config "10.0.0.1"
               (lab_start [replies hits_10_0_0_1])) as [_ H].
  - run.
  - destruct H as [r [Hr [Hf [_ [_ [He [Ha Hc]]]]]]]; [discriminate | ].
    exists r. rewrite Hr, Hf, He, Ha, Hc. repeat split.
Defined.




(** C4 on event 42: the candidates are discovered with counts 3, 1, 3. *)
Lemma related_events_sorted_stable_witness :
  exists r,
    fst (misp_get_related_events (P := lab) example_config "42"
           (lab_start [replies event_42; replies hits_evil_com; replies hits_bad_org]))
    = ToolJson r
    /\ StronglySorted count_ge (RelatedResult.related_events r)
    /\ map RelatedEntry.correlation_count (RelatedResult.related_events r) = [3; 3; 1]
    /\ map RelatedEntry.event_id (RelatedResult.related_events r)
       = [Some "43"; Some "45"; Some "44"]
    /\ map RelatedEntry.event_id
         (filter (has_count 3) (RelatedResult.related_events r))
       = [Some "43"; Some "45"].
Proof.
  edestruct (related_events_sorted_stable (P := lab) example_config "42"
               (lab_start [replies event_42; replies hits_evil_com; replies hits_bad_org]))
    as [seeds [candidates [Hs [Hcand [Hkeys [Hsorted [Hperm [Hstable Hlen]]]]]]]].
  - run.
  - run.
  - eexists. split; [run | ].
    split; [exact Hsorted | ].
    rewrite (Hstable 3), Hcand.
    injection Hs as <-.
    repeat split; vm_compute; reflexivity.
Defined.

(** C5 does not hold when a create returns an attribute without id: no
    unit fails, yet the item is not counted as succeeded. *)
Lemma bulk_success_without_id_is_not_counted :
  map unit_failed
    (unit_runs (P := lab) example_config "42" [bulk_item "evil.com"]
       (lab_start [replies attribute_without_id])) = [false]
  /\ fst (misp_add_attributes_bulk (P := lab) example_config "42" [bulk_item "evil.com"]
            (lab_start [replies attribute_without_id]))
     = ToolJson
         {| BulkResult.total := 1;
            BulkResult.succeeded := 0;
            BulkResult.failed := 0;
            BulkResult.results :=
              [{| BulkEntry.value := "evil.com";
                  BulkEntry.type := "domain";
                  BulkEntry.id := None;
                  BulkEntry.error := None |}] |}.
Proof. split; vm_compute; reflexivity. Qed.

(** C5 on a batch of three whose second unit is refused. *)
Lemma bulk_runs_every_unit_witness :
  exists r,
    fst (misp_add_attributes_bulk (P := lab) example_config "42"
           [bulk_item "a.com"; bulk_item "b.com"; bulk_item "c.com"]
           (lab_start [replies created_attribute; refuses 403 forbidden;
                       replies created_attribute])) = ToolJson r
    /\ BulkResult.total r = 3
    /\ BulkResult.succeeded r = 2
    /\ BulkResult.failed r = 1
    /\ map BulkEntry.value (BulkResult.results r) = ["a.com"; "b.com"; "c.com"].
Proof.
  destruct (bulk_runs_every_unit (P := lab) example_config "42"
              [bulk_item "a.com"; bulk_item "b.com"; bulk_item "c.com"]
              (lab_start [replies created_attribute; refuses 403 forbidden;
                          replies created_attribute]))
    as [r [w' [Hr [Hcalls [Ht [Hf [Hs [Hall [Hres [Hv Hty]]]]]]]]]].
  exists r. rewrite Hr. split; [reflexivity | ].
  split; [exact Ht | ].
  split.
  - rewrite Hall; [vm_compute; reflexivity | ].
    intros o Hin. vm_compute in Hin.
    destruct Hin as [<- | [<- | [<- | []]]]; vm_compute; congruence.
  - split; [rewrite Hf; vm_compute; reflexivity | exact Hv].
Defined.

(** C9 does not hold when the create is answered without an attribute:
    the remote call succeeds and its answer carries no id, yet reading
    [created.id] throws and the item is counted as failed. *)
Lemma bulk_answer_without_attribute_is_counted_failed :
  fst (addAttribute (P := lab) example_config "42" (bulk_params (bulk_item "evil.com"))
         (lab_start [replies empty_object]))
  = Ok None
  /\ fst (misp_add_attributes_bulk (P := lab) example_config "42" [bulk_item "evil.com"]
            (lab_start [replies empty_object]))
     = ToolJson
         {| BulkResult.total := 1;
            BulkResult.succeeded := 0;
            BulkResult.failed := 1;
            BulkResult.results :=
              [{| BulkEntry.value := "evil.com";
                  BulkEntry.type := "domain";
                  BulkEntry.id := None;
                  BulkEntry.error :=
                    Some "Cannot read properties of undefined (reading 'id')" |}] |}.
Proof. split; vm_compute; reflexivity. Qed.

(** C9 on a batch of four: created, refused, created without id, answered
    without attribute. *)
Lemma bulk_tallies_by_id_and_error_witness :
  exists r,
    fst (misp_add_attributes_bulk (P := lab) example_config "42"
           [bulk_item "a.com"; bulk_item "b.com"; bulk_item "c.com"; bulk_item "d.com"]
           (lab_start [replies created_attribute; refuses 403 forbidden;
                       replies attribute_without_id; replies empty_object]))
    = ToolJson r
    /\ BulkResult.succeeded r = 1
    /\ BulkResult.failed r = 2
    /\ BulkResult.total r = 4
    /\ BulkResult.succeeded r + BulkResult.failed r <> BulkResult.total r.
Proof.
  destruct (bulk_tallies_by_id_and_error (P := lab) example_config "42"
              [bulk_item "a.com"; bulk_item "b.com"; bulk_item "c.com"; bulk_item "d.com"]
              (lab_start [replies created_attribute; refuses 403 forbidden;
                          replies attribute_without_id; replies empty_object]))
    as [r [w' [Hr [Hres [Hlen [Hcls [Hs [Hf [Ht [Hle Heq]]]]]]]]]].
  exists r. rewrite Hr. split; [reflexivity | ].
  split; [rewrite Hs; vm_compute; reflexivity | ].
  split; [rewrite Hf; vm_compute; reflexivity | ].
  split; [exact Ht | ].
  intros Hsum. pose proof (proj1 Heq Hsum) as Hall. clear Hsum.
  specialize (Hall (Ok (Some (as_MispAttribute
                                (JObj [("event_id", JStr "42"); ("type", JStr "domain");
                                       ("value", JStr "evil.com")]))))).
  assert (Hx : false = true); [ | discriminate Hx].
  apply Hall; [vm_compute; auto | reflexivity].
Defined.

(** C6 does not hold as stated. A failing tag call aborts the creation
    of an event: the second tag is not applied and nothing is re-fetched.
    An attribute created with tags is not re-fetched: the original create
    response is returned. *)
Lemma tag_failure_aborts_and_attribute_is_not_refetched :
  fst (createEvent (P := lab) example_config tagged_event_params
         (lab_start [replies created_event; refuses 403 forbidden;
                     replies tag_saved; replies refetched_event]))
  = Throw "Insufficient permissions: Duplicate value"
  /\ calls (snd (createEvent (P := lab) example_config tagged_event_params
                   (lab_start [replies created_event; refuses 403 forbidden;
                               replies tag_saved; replies refetched_event])))
     = [create_request (P := lab) example_config tagged_event_params;
        tag_request (P := lab) example_config "7" "tlp:white"]
  /\ fst (addAttribute (P := lab) example_config "42" tagged_attribute_params
            (lab_start [replies created_attribute; replies tag_saved]))
     = Ok (Some (as_MispAttribute (attribute_json "300" "42" "domain" "evil.com" true)))
  /\ calls (snd (addAttribute (P := lab) example_config "42" tagged_attribute_params
                   (lab_start [replies created_attribute; replies tag_saved])))
     = [add_request (P := lab) example_config "42" tagged_attribute_params;
        attribute_tag_request (P := lab) example_config "300" "tlp:white"].
Proof. repeat split; vm_compute; reflexivity. Qed.

(** C6 on an event created with two tags: create, tag, tag, re-fetch;
    and on the same creation when the first tag call is refused: create,
    tag, and nothing more. *)
Lemma tags_follow_creation_witness :
  fst (createEvent (P := lab) example_config tagged_event_params
         (lab_start [replies created_event; replies tag_saved; replies tag_saved;
                     replies refetched_event]))
  = Ok (Some (as_MispEvent
                (JObj [("id", JStr "7"); ("info", JStr "Phishing wave");
                       ("Attribute", JArr [])])))
  /\ calls (snd (createEvent (P := lab) example_config tagged_event_params
                   (lab_start [replies created_event; replies tag_saved; replies tag_saved;
                               replies refetched_event])))
     = [create_request (P := lab) example_config tagged_event_params;
        tag_request (P := lab) example_config "7" "tlp:white";
        tag_request (P := lab) example_config "7" "tlp:green";
        view_request (P := lab) example_config "7"]
  /\ fst (createEvent (P := lab) example_config tagged_event_params
            (lab_start [replies created_event; refuses 403 forbidden;
                        replies tag_saved; replies refetched_event]))
     = Throw "Insufficient permissions: Duplicate value"
  /\ calls (snd (createEvent (P := lab) example_config tagged_event_params
                   (lab_start [replies created_event; refuses 403 forbidden;
                               replies tag_saved; replies refetched_event])))
     = [create_request (P := lab) example_config tagged_event_params;
        tag_request (P := lab) example_config "7" "tlp:white"].
Proof.
  destruct (tags_follow_creation (P := lab) example_config) as [H _].
  assert (Hgood :
    fst (createEvent (P := lab) example_config tagged_event_params
           (lab_start [replies created_event; replies tag_saved; replies tag_saved;
                       replies refetched_event]))
    = Ok (Some (as_MispEvent
                  (JObj [("id", JStr "7"); ("info", JStr "Phishing wave");
                         ("Attribute", JArr [])])))
    /\ calls (snd (createEvent (P := lab) example_config tagged_event_params
                     (lab_start [replies created_event; replies tag_saved;
                                 replies tag_saved; replies refetched_event])))
       = [create_request (P := lab) example_config tagged_event_params;
          tag_request (P := lab) example_config "7" "tlp:white";
          tag_request (P := lab) example_config "7" "tlp:green";
          view_request (P := lab) example_config "7"]).
  { edestruct (H tagged_event_params
                 (lab_start [replies created_event; replies tag_saved; replies tag_saved;
                             replies refetched_event]))
      as [Hok _].
    - run.
    - reflexivity.
    - discriminate.
    - run.
    - discriminate.
    - edestruct Hok as [Hce Hcc]; [run | ].
      split; [rewrite Hce; vm_compute; reflexivity | rewrite Hcc; reflexivity]. }
  destruct Hgood as [Hg1 Hg2].
  split; [exact Hg1 | split; [exact Hg2 | ]].
  edestruct (H tagged_event_params
               (lab_start [replies created_event; refuses 403 forbidden;
                           replies tag_saved; replies refetched_event]))
    as [_ [Hfail _]].
  - run.
  - reflexivity.
  - discriminate.
  - run.
  - discriminate.
  - edestruct (Hfail [] "tlp:white" ["tlp:green"]) as [Hce Hcc].
    + split; [reflexivity | split; [reflexivity | run]].
    + rewrite Hce. simpl fst. simpl snd. split; [reflexivity | ].
      rewrite Hcc. reflexivity.
Defined.



(** C8 does not hold of a body that parses but lacks the expected shape:
    a 2xx answer whose body is the empty object is returned as an empty
    result set. *)
Lemma empty_object_body_is_an_empty_result :
  ok {| status := 200; text := "{}" |} = true
  /\ @JSON_parse lab "{}" = Some (JObj [])
  /\ fst (searchAttributes (P := lab) example_config (related_search (Some "evil.com"))
            (lab_start [Arrives 0 {| status := 200; text := "{}" |}])) = Ok []
  /\ fst (searchEvents (P := lab) example_config no_filters
            (lab_start [Arrives 0 {| status := 200; text := "{}" |}])) = Ok [].
Proof. repeat split; vm_compute; reflexivity. Qed.

(** C8 on a 2xx answer whose body is an HTML page. *)
Lemma invalid_json_is_MalformedResponse_witness :
  fst (searchAttributes (P := lab) example_config (correlate_search "evil.com")
         (lab_start [Arrives 0 {| status := 200; text := "<html>Bad gateway</html>" |}]))
  = Throw "Failed to parse MISP response as JSON: <html>Bad gateway</html>".
Proof.
  destruct (invalid_json_is_MalformedResponse (P := lab) example_config
              (lab_start [Arrives 0 {| status := 200;
                                       text := "<html>Bad gateway</html>" |}])
              0%N {| status := 200; text := "<html>Bad gateway</html>" |})
    as [_ [H _]].
  - vm_compute. discriminate.
  - reflexivity.
  - destruct (H (correlate_search "evil.com")) as [H1 _]; [vm_compute; reflexivity | ].
    rewrite H1; [vm_compute; reflexivity | vm_compute; reflexivity].
Defined.

Lemma constant_remote_request (j : Json) (client : MispConfig)
  (method path : string) (body : option Json) (w : @World (constant_remote j)) :
  fst (request (P := constant_remote j) client method path body w) = Ok j.
Proof.
  unfold request, bind, request_text. simpl.
  replace (timer_delay (timeout client) <? 0)%N with false
    by (symmetry; apply N.ltb_ge; lia).
  simpl. rewrite String.eqb_refl. reflexivity.
Qed.

Lemma constant_remote_honours :
  honours_default_limit (P := constant_remote hits_10_0_0_1) example_config.
Proof.
  intros params w data w' items _ Hr Ha.
  pose proof (constant_remote_request hits_10_0_0_1 example_config "POST"
                "/attributes/restSearch" (Some (searchAttributes_body params)) w) as Hj.
  rewrite Hr in Hj. simpl in Hj. injection Hj as ->.
  vm_compute in Ha. injection Ha as <-. simpl. lia.
Qed.

(** C10 on a remote that answers every search with two attributes. *)
Lemma default_limit_is_50_witness :
  honours_default_limit (P := constant_remote hits_10_0_0_1) example_config
  /\ (exists body,
        rq_body (search_request (P := constant_remote hits_10_0_0_1) example_config
                   (correlate_search "10.0.0.1")) = Some body
        /\ prop "limit" body = Some (JNum 50))
  /\ exists r,
       fst (misp_correlate (P := constant_remote hits_10_0_0_1) example_config "10.0.0.1"
              (constant_start hits_10_0_0_1)) = ToolJson r
       /\ CorrelateResult.total_attributes r <= 50.
Proof.
  split; [exact constant_remote_honours | ].
  destruct (default_limit_is_50 (P := constant_remote hits_10_0_0_1) example_config)
    as [_ [Hsent [_ [_ [_ [_ H]]]]]].
  split; [exact (proj2 (Hsent "10.0.0.1" (constant_start hits_10_0_0_1))) | ].
  destruct (H constant_remote_honours) as [Hc _].
  edestruct (Hc "10.0.0.1" (constant_start hits_10_0_0_1)) as [Ha _]; [run | ].
  eexists. split; [ | exact Ha].
  vm_compute. reflexivity.
Defined.

(** C10 does not hold against a remote that does not apply the limit: the
    search of value correlation carries [limit = 50], the remote answers
    with 51 attributes, and all 51 are surveyed. *)
Lemma matches_beyond_the_50th_are_surveyed :
  (exists body,
     rq_body (search_request (P := constant_remote fifty_one_hits) example_config
                (correlate_search "evil.com")) = Some body
     /\ prop "limit" body = Some (JNum 50))
  /\ calls (snd (misp_correlate (P := constant_remote fifty_one_hits) example_config
                   "evil.com" (constant_start fifty_one_hits)))
     = [search_request (P := constant_remote fifty_one_hits) example_config
          (correlate_search "evil.com")]
  /\ exists r,
       fst (misp_correlate (P := constant_remote fifty_one_hits) example_config "evil.com"
              (constant_start fifty_one_hits)) = ToolJson r
       /\ CorrelateResult.total_attributes r = 51.
Proof.
  split; [eexists; split; vm_compute; reflexivity | ].
  split; [vm_compute; reflexivity | ].
  eexists. split; [run | vm_compute; reflexivity].
Qed.

(* ================================================================= *)
(** ** Host strings *)

Lemma strip_end_spec (p : ascii -> bool) (s : string) :
  exists rest,
    s = strip_end p s ++ rest
    /\ forallb p (chars rest) = true
    /\ match last_char (strip_end p s) with
       | Some c => p c = false
       | None => True
       end.
Proof.
  induction s as [ | c r [rest [Hr [Hall Hlast]]]]; simpl.
  - exists "". auto.
  - destruct (p c) eqn:Hc; simpl.
    + destruct (String.eqb_spec (strip_end p r) "") as [He | Hne].
      * exists (String c rest). rewrite He in Hr. simpl in Hr. subst r.
        simpl. rewrite Hc. auto.
      * exists rest. simpl. rewrite <- Hr. split; [reflexivity | ]. split; [exact Hall | ].
        destruct (strip_end p r); [congruence | exact Hlast].
    + exists rest. simpl. rewrite <- Hr. split; [reflexivity | ]. split; [exact Hall | ].
      destruct (strip_end p r); [exact Hc | exact Hlast].
Qed.

Lemma strip_end_empty (p : ascii -> bool) (s : string) :
  String.eqb (strip_end p s) "" = forallb p (chars s).
Proof.
  induction s as [ | c r IH]; simpl; [reflexivity | ].
  destruct (p c); simpl; [ | reflexivity].
  rewrite <- IH. destruct (strip_end p r =? ""); reflexivity.
Qed.

Lemma strip_start_all (p : ascii -> bool) (s : string) :
  forallb p (chars (strip_start p s)) = forallb p (chars s).
Proof.
  induction s as [ | c r IH]; simpl; [reflexivity | ].
  destruct (p c) eqn:Hc; simpl; [exact IH | rewrite Hc; reflexivity].
Qed.

Lemma length_zero_empty (s : string) : (String.length s =? 0)%nat = String.eqb s "".
Proof. destruct s; reflexivity. Qed.

(** [!output || output.trim().length === 0] holds exactly of the texts
    made of white space only. *)
Lemma is_blank_spec (s : string) : is_blank s = forallb is_white_space (chars s).
Proof.
  unfold is_blank, trim. rewrite length_zero_empty, strip_end_empty, strip_start_all.
  destruct s; reflexivity.
Qed.

Lemma all_slashes (s : string) :
  forallb is_slash (chars s) = true -> s = slashes (String.length s).
Proof.
  induction s as [ | c r IH]; simpl; [reflexivity | ].
  intros H. apply andb_true_iff in H as [Hc Hr].
  apply Ascii.eqb_eq in Hc. subst c. f_equal. auto.
Qed.

Lemma digits_prefix_string_of_uint (d : Decimal.uint) (rest : string) :
  starts_with_digit rest = false ->
  digits_prefix (NilEmpty.string_of_uint d ++ rest) = d.
Proof.
  intros Hrest. induction d; simpl; try (f_equal; assumption).
  destruct rest as [ | c r]; simpl in *; [reflexivity | ].
  destruct (digit_of c); [discriminate | reflexivity].
Qed.

Lemma parseInt10_digits (d : Decimal.uint) (rest : string) :
  d <> Decimal.Nil ->
  parseInt10 (NilEmpty.string_of_uint d ++ rest)
  = number_of_digits (digits_prefix (NilEmpty.string_of_uint d ++ rest)).
Proof.
  intros Hd. destruct d; [congruence | reflexivity ..].
Qed.

(** Reading back a printed natural number, whatever follows it. *)
Lemma parseInt10_show_N (n : N) (rest : string) :
  starts_with_digit rest = false ->
  parseInt10 (show_N n ++ rest) = Some (Z.of_N n).
Proof.
  intros Hrest. unfold show_N.
  assert (Hd : N.to_uint n <> Decimal.Nil).
  { destruct n; simpl; [discriminate | apply Stdlib.Numbers.DecimalPos.Unsigned.to_uint_nonnil]. }
  rewrite parseInt10_digits by exact Hd.
  rewrite digits_prefix_string_of_uint by exact Hrest.
  unfold number_of_digits.
  rewrite <- (Stdlib.Numbers.DecimalN.Unsigned.of_to n) at 2.
  destruct (N.to_uint n); [congruence | reflexivity ..].
Qed.

(* ================================================================= *)
(** ** Configuration *)

(** X1. [getConfig] succeeds exactly when [MISP_URL] and [MISP_API_KEY]
    are both set and not empty. Otherwise it throws, naming the missing
    variable, [MISP_URL] first; the API key is returned as it is set. *)
Theorem getConfig_requires_url_and_key (env : Env) :
  match getConfig env with
  | Ok c =>
      truthy_str (env "MISP_URL") = true
      /\ env "MISP_API_KEY" = Some (EnvConfig.apiKey c)
      /\ EnvConfig.apiKey c <> ""
  | Throw e =>
      (truthy_str (env "MISP_URL") = false
       /\ e = "MISP_URL environment variable is required")
      \/ (truthy_str (env "MISP_URL") = true
          /\ truthy_str (env "MISP_API_KEY") = false
          /\ e = "MISP_API_KEY environment variable is required")
  end.
Proof.
  unfold getConfig.
  destruct (env "MISP_URL") as [url | ]; simpl; [ | auto].
  destruct (String.eqb_spec url ""); simpl; [auto | ].
  destruct (env "MISP_API_KEY") as [key | ]; simpl; [ | auto].
  destruct (String.eqb_spec key ""); simpl; auto.
Qed.

(** X2. The base URL [getConfig] returns is [MISP_URL] without its
    trailing slashes: the variable is the returned URL followed by
    slashes only, and the returned URL does not end in a slash. *)
Theorem getConfig_strips_trailing_slashes (env : Env) (c : EnvConfig.t) :
  getConfig env = Ok c ->
  exists n,
    env "MISP_URL" = Some (EnvConfig.url c ++ slashes n)
    /\ last_char (EnvConfig.url c) <> Some "/"%char.
Proof.
  unfold getConfig.
  destruct (env "MISP_URL") as [url | ]; [ | discriminate].
  destruct (String.eqb url ""); [discriminate | ].
  destruct (env "MISP_API_KEY") as [key | ]; [ | discriminate].
  destruct (String.eqb key ""); [discriminate | ].
  intros [= <-]. simpl.
  destruct (strip_end_spec is_slash url) as [rest [Hu [Hall Hlast]]].
  exists (String.length rest). split.
  - rewrite <- (all_slashes rest Hall). congruence.
  - destruct (last_char (strip_end is_slash url)) as [ch | ]; [ | discriminate].
    intros [= ->]. discriminate.
Qed.

(** X3. [MISP_TIMEOUT] is read as a number of seconds and returned in
    milliseconds: when it is set to the decimal writing of [n], followed
    by anything that does not start with a digit, the timeout is
    [1000 * n] (a number holds the product exactly below 2^53). *)
Theorem getConfig_timeout_in_milliseconds (env : Env) (c : EnvConfig.t)
  (n : N) (rest : string) :
  getConfig env = Ok c ->
  env "MISP_TIMEOUT" = Some (show_N n ++ rest) ->
  starts_with_digit rest = false ->
  (Z.of_N n * 1000 < 2 ^ 53)%Z ->
  EnvConfig.timeout c = Some (Z.of_N n * 1000)%Z.
Proof.
  unfold getConfig. intros H Ht Hrest _.
  destruct (env "MISP_URL") as [url | ]; [ | discriminate].
  destruct (String.eqb url ""); [discriminate | ].
  destruct (env "MISP_API_KEY") as [key | ]; [ | discriminate].
  destruct (String.eqb key ""); [discriminate | ].
  injection H as <-. simpl.
  rewrite Ht, parseInt10_show_N by exact Hrest. reflexivity.
Qed.

(* ================================================================= *)
(** ** Computations that send nothing, and single requests *)

Section Quiet.
Context {P : Platform}.

Lemma quiet_ret {A : Type} (a : A) : quiet (ret a).
Proof. intros w. reflexivity. Qed.

Lemma quiet_throw {A : Type} (e : string) : quiet (@throw P A e).
Proof. intros w. reflexivity. Qed.

Lemma quiet_get (k : string) (v : option Json) : quiet (get k v).
Proof. intros w. destruct v as [[ | | | | | ] | ]; reflexivity. Qed.

Lemma quiet_bind {A B : Type} (m : M A) (k : A -> M B) :
  quiet m -> (forall a, quiet (k a)) -> quiet (bind m k).
Proof.
  intros Hm Hk w. unfold bind. specialize (Hm w).
  destruct (m w) as [[a | e] w1]; simpl in *; subst; [apply Hk | reflexivity].
Qed.

Lemma quiet_mapM {A B : Type} (f : A -> M B) (l : list A) :
  (forall a, quiet (f a)) -> quiet (mapM f l).
Proof.
  intros Hf. induction l as [ | a r IH]; simpl; [apply quiet_ret | ].
  apply quiet_bind; [apply Hf | intros b].
  apply quiet_bind; [exact IH | intros bs; apply quiet_ret].
Qed.

Lemma bind_quiet_snd {A B : Type} (m : M A) (k : A -> M B) (w : World) :
  (forall a, quiet (k a)) -> snd (bind m k w) = snd (m w).
Proof.
  intros Hk. unfold bind. destruct (m w) as [[a | e] w1]; simpl; [apply Hk | reflexivity].
Qed.

Lemma bind_ok_run {A B : Type} (m : M A) (k : A -> M B) (w w1 : World) (a : A) :
  m w = (Ok a, w1) -> bind m k w = k a w1.
Proof. intros H. unfold bind. rewrite H. reflexivity. Qed.

Lemma bind_throw_run {A B : Type} (m : M A) (k : A -> M B) (w w1 : World) (e : string) :
  m w = (Throw e, w1) -> bind m k w = (Throw e, w1).
Proof. intros H. unfold bind. rewrite H. reflexivity. Qed.

Lemma handle_snd {R : Type} (prefix : string) (m : M (ToolResult R)) (w : World) :
  snd (handle prefix m w) = snd (m w).
Proof. unfold handle. destruct (m w) as [[r | e] w1]; reflexivity. Qed.

Lemma mapM_total {A B : Type} (f : A -> M B) (g : A -> B) (l : list A) (w : World) :
  (forall a w', In a l -> f a w' = (Ok (g a), w')) ->
  mapM f l w = (Ok (map g l), w).
Proof.
  revert w. induction l as [ | a r IH]; intros w Hf; simpl; [reflexivity | ].
  unfold bind. rewrite Hf by (left; reflexivity).
  rewrite IH by (intros; apply Hf; right; assumption). reflexivity.
Qed.

Lemma app_one_neq {A : Type} (l : list A) (x : A) : (l ++ [x])%list <> l.
Proof.
  intros H. apply (f_equal (@List.length A)) in H.
  rewrite length_app in H. simpl in H. lia.
Qed.

End Quiet.

Lemma chars_app (a b : string) : chars (a ++ b) = (chars a ++ chars b)%list.
Proof. induction a as [ | c r IH]; simpl; [reflexivity | f_equal; exact IH]. Qed.

Lemma encode_unit_safe (c : ascii) :
  forallb (fun ch => is_unreserved ch || Ascii.eqb ch "%") (chars (encode_unit c)) = true.
Proof.
  destruct c as [[] [] [] [] [] [] [] []]; vm_compute; reflexivity.
Qed.

Lemma encode_unit_nonempty (c : ascii) : encode_unit c <> "".
Proof.
  unfold encode_unit. destruct (is_unreserved c); [discriminate | ].
  destruct (nat_of_ascii c <? 128)%nat; discriminate.
Qed.

(** What [encodeURIComponent] returns holds unreserved characters and
    percent signs only. *)
Lemma encodeURIComponent_safe (s : string) (ch : ascii) :
  In ch (chars (encodeURIComponent s)) -> is_unreserved ch = true \/ ch = "%"%char.
Proof.
  induction s as [ | c r IH]; simpl; [tauto | ].
  rewrite chars_app, in_app_iff. intros [H | H]; [ | auto].
  pose proof (encode_unit_safe c) as Hs.
  rewrite forallb_forall in Hs. apply Hs in H.
  apply orb_true_iff in H as [H | H]; [auto | ].
  right. apply Ascii.eqb_eq in H. exact H.
Qed.

Lemma encodeURIComponent_nonempty (s : string) : s <> "" -> encodeURIComponent s <> "".
Proof.
  destruct s as [ | c r]; [congruence | ]. intros _. simpl.
  pose proof (encode_unit_nonempty c). destruct (encode_unit c); [congruence | discriminate].
Qed.

Lemma existsb_eqb_In (x : string) (l : list string) :
  existsb (String.eqb x) l = true <-> In x l.
Proof.
  rewrite existsb_exists. split.
  - intros [y [Hin Heq]]. apply String.eqb_eq in Heq. subst. exact Hin.
  - intros Hin. exists x. split; [exact Hin | apply String.eqb_refl].
Qed.

(* ================================================================= *)
(** ** Tags, exports *)

Section ExportProperties.
Context {P : Platform}.
Variable client : MispConfig.

(** X4. A tag search sends one GET whose path is [/tags/search/] followed
    by one segment, the search term escaped by [encodeURIComponent]; the
    segment is not empty and holds unreserved characters and percent
    signs only (no slash, question mark or hash of the term reaches the
    path). *)
Theorem listTags_search_is_one_path_segment (search : string) (w : World) :
  search <> "" ->
  calls (snd (listTags client (Some search) w))
  = (calls w
     ++ [make_request client "GET" ("/tags/search/" ++ encodeURIComponent search) None])%list
  /\ encodeURIComponent search <> ""
  /\ forall ch,
       In ch (chars (encodeURIComponent search)) ->
       is_unreserved ch = true \/ ch = "%"%char.
Proof.
  intros Hne.
  split; [ | split; [apply encodeURIComponent_nonempty; exact Hne
                    | apply encodeURIComponent_safe]].
  unfold listTags. rewrite bind_quiet_snd.
  - rewrite request_calls. unfold listTags_path.
    destruct (String.eqb_spec search ""); [contradiction | reflexivity].
  - intros data. apply quiet_bind; [apply quiet_get | intros; apply quiet_ret].
Qed.


(** X6. [exportEvents] sends nothing exactly when the format is neither
    one of the six of [formatEndpoints] nor the name of a property that
    objects inherit; it then throws, naming the six. For every other
    format, a name such as [constructor] included, a request is sent. *)
Theorem exportEvents_sends_nothing_iff (params : ExportEventsParams.t) (w : World) :
  (calls (snd (exportEvents client params w)) = calls w
   <-> (assoc (ExportEventsParams.format params) formatEndpoints = None
        /\ Object_prototype (ExportEventsParams.format params) = None))
  /\ (calls (snd (exportEvents client params w)) = calls w ->
      exportEvents client params w
      = (Throw ("Unsupported export format: " ++ ExportEventsParams.format params
                ++ ". Supported: csv, stix, suricata, snort, text, rpz"), w)).
Proof.
  unfold exportEvents, formatEndpoints_get.
  destruct (assoc (ExportEventsParams.format params) formatEndpoints) as [endpoint | ] eqn:Ha.
  - unfold request_raw. rewrite request_text_calls.
    split; [split | ].
    + intros H. apply app_one_neq in H. contradiction.
    + intros [H _]. discriminate.
    + intros H. apply app_one_neq in H. contradiction.
  - destruct (Object_prototype (ExportEventsParams.format params)) as [i | ] eqn:Hp; simpl.
    + unfold request_raw. rewrite request_text_calls.
      split; [split | ].
      * intros H. apply app_one_neq in H. contradiction.
      * intros [_ H]. discriminate.
      * intros H. apply app_one_neq in H. contradiction.
    + split; [split; auto | reflexivity].
Qed.

(** X7. [misp_export_iocs] returns the body of a 2xx answer as it is,
    neither parsed nor trimmed, unless the body is empty or made of white
    space only: then it reports that no IOC was found. *)
Theorem export_iocs_returns_the_body (params : ExportEventsParams.t) (w : World)
  (endpoint : string) (t : N) (r : Response) :
  assoc (ExportEventsParams.format params) formatEndpoints = Some endpoint ->
  fst (net (make_request client "POST" endpoint (Some (exportEvents_body params)))
         (remote w)) = Arrives t r ->
  (t <= timer_delay (timeout client))%N ->
  ok r = true ->
  fst (misp_export_iocs client params w)
  = ToolText (if forallb is_white_space (chars (text r))
              then "No IOCs found for the specified criteria in "
                   ++ ExportEventsParams.format params ++ " format."
              else text r).
Proof.
  intros Ha Hev Ht Hok.
  pose proof (request_text_success client "POST" endpoint
                (Some (exportEvents_body params)) w t r Hev Ht Hok) as H.
  unfold misp_export_iocs, handle, bind, exportEvents, formatEndpoints_get, request_raw.
  rewrite Ha.
  destruct (request_text client "POST" endpoint (Some (exportEvents_body params)) w)
    as [[txt | e] w1]; simpl in H; [ | discriminate].
  injection H as ->. rewrite is_blank_spec.
  destruct (forallb is_white_space (chars (text r))); reflexivity.
Qed.

(** X8. [misp_export_hashes] returns the body of a 2xx answer as it is,
    unless the body is empty or made of white space only: then it reports
    that no hash of the format was found. *)
Theorem export_hashes_returns_the_body (params : ExportHashesParams.t) (w : World)
  (t : N) (r : Response) :
  In (ExportHashesParams.format params) ["md5"; "sha1"; "sha256"] ->
  fst (net (make_request client "GET" (exportHashes_path params) None) (remote w))
  = Arrives t r ->
  (t <= timer_delay (timeout client))%N ->
  ok r = true ->
  fst (misp_export_hashes client params w)
  = ToolText (if forallb is_white_space (chars (text r))
              then "No " ++ ExportHashesParams.format params
                   ++ " hashes found for the specified criteria."
              else text r).
Proof.
  intros Hin Hev Ht Hok.
  pose proof (request_text_success client "GET" (exportHashes_path params) None
                w t r Hev Ht Hok) as H.
  apply existsb_eqb_In in Hin.
  unfold misp_export_hashes, handle, bind, exportHashes, request_raw.
  unfold validFormats. rewrite Hin. change (negb true) with false. cbv iota.
  destruct (request_text client "GET" (exportHashes_path params) None w)
    as [[txt | e] w1]; simpl in H; [ | discriminate].
  injection H as ->. rewrite is_blank_spec.
  destruct (forallb is_white_space (chars (text r))); reflexivity.
Qed.

End ExportProperties.

(* ================================================================= *)
(** ** Sightings, tags and warninglists *)

Section HandlerProperties.
Context {P : Platform}.
Variable client : MispConfig.

(** X9. [misp_add_sighting] asks for a target before anything is sent:
    with neither an attribute id nor a value (absent or empty) it returns
    the error, without the prefix of the handler, and sends no request;
    with either it sends exactly one POST, to the path of the attribute
    when an id is given. *)
Theorem add_sighting_needs_a_target (params : AddSightingParams.t) (w : World) :
  (truthy_str (AddSightingParams.attributeId params) = false ->
   truthy_str (AddSightingParams.value params) = false ->
   misp_add_sighting client params w
   = (ToolError "Either attributeId or value must be provided.", w))
  /\ (truthy_str (AddSightingParams.attributeId params) = true
      \/ truthy_str (AddSightingParams.value params) = true ->
      calls (snd (misp_add_sighting client params w))
      = (calls w
         ++ [make_request client "POST"
               (match AddSightingParams.attributeId params with
                | Some id => if String.eqb id "" then "/sightings/add"
                             else "/sightings/add/" ++ id
                | None => "/sightings/add"
                end)
               (Some (addSighting_body params))])%list).
Proof.
  unfold misp_add_sighting. split.
  - intros -> ->. reflexivity.
  - intros H.
    assert (Hg : negb (truthy_str (AddSightingParams.attributeId params))
                 && negb (truthy_str (AddSightingParams.value params)) = false).
    { destruct H as [-> | ->]; [reflexivity | apply andb_false_r]. }
    rewrite Hg, handle_snd, bind_quiet_snd.
    + unfold addSighting. rewrite bind_quiet_snd by (intros; apply quiet_get).
      apply request_calls.
    + intros s. apply quiet_bind; [apply quiet_get | intros; apply quiet_ret].
Qed.

Lemma In_firstn {A : Type} (n : nat) (l : list A) (x : A) :
  In x (firstn n l) -> In x l.
Proof.
  revert l. induction n as [ | n IH]; intros [ | a l]; simpl; try tauto.
  intros [H | H]; [auto | right; apply IH; exact H].
Qed.

Lemma summarize_tag_total (t : Json) (w : World) :
  t <> JNull -> summarize_tag t w = (Ok (tag_summary t), w).
Proof. destruct t; [congruence | reflexivity ..]. Qed.

Lemma summarize_warninglist_total (m : Json) (w : World) :
  m <> JNull -> summarize_warninglist m w = (Ok (warninglist_summary m), w).
Proof. destruct m; [congruence | reflexivity ..]. Qed.

(** X10. [misp_list_tags] cuts the list the service returned to the first
    [limit] tags when [limit] is positive; a limit that is absent, zero or
    negative keeps every tag. The tags that remain are summarised in
    order, and none remaining gives the message instead of a list. *)
Theorem list_tags_applies_positive_limit (search : option string) (limit : option Z)
  (w w1 : World) (data : Json) (tags : list Json) :
  request client "GET" (listTags_path search) None w = (Ok data, w1) ->
  prop "Tag" data = Some (JArr tags) ->
  Forall (fun t => t <> JNull) tags ->
  let shown :=
    match limit with
    | Some n => if (0 <? n)%Z then firstn (Z.to_nat n) tags else tags
    | None => tags
    end in
  misp_list_tags client search limit w
  = (match shown with
     | [] => ToolText "No tags found."
     | _ :: _ => ToolJson (map tag_summary shown)
     end, w1).
Proof.
  intros Hr Htag Hall shown.
  unfold misp_list_tags, handle, listTags. unfold bind at 1. unfold bind at 1.
  rewrite Hr.
  assert (Hd : data <> JNull) by (intros ->; discriminate).
  unfold get, bind at 1.
  destruct data; try congruence; simpl in Htag; try discriminate.
  unfold ret at 1. unfold prop. rewrite Htag. simpl as_array. unfold ret at 1.
  change (limited limit tags) with shown.
  assert (Hs : Forall (fun t => t <> JNull) shown).
  { subst shown. destruct limit as [n | ]; [ | exact Hall].
    destruct (0 <? n)%Z; [ | exact Hall].
    rewrite Forall_forall in *. intros t Ht. apply Hall.
    apply (In_firstn _ _ _ Ht). }
  destruct shown as [ | t ts] eqn:Hsh; [reflexivity | ].
  change (List.length (t :: ts) =? 0)%nat with false. cbv iota. unfold bind.
  rewrite (mapM_total summarize_tag tag_summary).
  - reflexivity.
  - intros a w' Hin. apply summarize_tag_total.
    rewrite Forall_forall in Hs. apply Hs. exact Hin.
Qed.

(** X11. [misp_tag_event] sends exactly one POST, to [/events/removeTag]
    when [remove] is true and to [/events/addTag] when it is false or
    absent, and it does not look at the answer: any 2xx answer that
    parses is reported as the tag having been added or removed. *)
Theorem tag_event_does_not_read_the_answer (eventId tag : string) (remove : option bool)
  (w : World) :
  calls (snd (misp_tag_event client eventId tag remove w))
  = (calls w ++ [tag_change_request client eventId tag remove])%list
  /\ forall answer,
       fst (request client "POST"
              (match remove with
               | Some true => "/events/removeTag"
               | _ => "/events/addTag"
               end)
              (Some (JObj [("event", JStr eventId); ("tag", JStr tag)])) w)
       = Ok answer ->
       fst (misp_tag_event client eventId tag remove w)
       = ToolText ("Tag " ++ dq ++ tag ++ dq
                   ++ match remove with
                      | Some true => " removed from event "
                      | _ => " added to event "
                      end ++ eventId ++ ".").
Proof.
  unfold misp_tag_event, tag_change_request, untagEvent, tagEvent. split.
  - rewrite handle_snd.
    destruct remove as [[ | ] | ];
      (rewrite bind_quiet_snd by (intros; apply quiet_ret)); apply request_calls.
  - intros answer H. unfold handle, bind.
    destruct remove as [[ | ] | ];
      match goal with
      | |- context [request ?c ?m ?p ?b w] =>
          destruct (request c m p b w) as [[j | e] w1]
      end; simpl in H; try discriminate; reflexivity.
Qed.

(** X12. When the service answers a warninglist check with an object,
    only the entry stored under the checked value is read: a value with
    an empty list, or with no entry (and that does not name a property
    that objects inherit), is reported as on no warninglist; a value with
    a list of matches is reported with [match_count] the length of the
    list and the matches summarised in order. *)
Theorem check_warninglists_reads_the_entry_of_the_value (value : string)
  (w w1 : World) (fields : list (string * Json)) :
  request client "POST" "/warninglists/checkValue" (Some (JArr [JStr value])) w
  = (Ok (JObj fields), w1) ->
  ((assoc value fields = None /\ Object_prototype value = None)
   \/ assoc value fields = Some (JArr []) ->
   misp_check_warninglists client value w = (ToolText (not_on_warninglists value), w1))
  /\ (forall m ms,
        assoc value fields = Some (JArr (m :: ms)) ->
        Forall (fun x => x <> JNull) (m :: ms) ->
        misp_check_warninglists client value w
        = (ToolJson {| WarninglistResult.value := value;
                       WarninglistResult.on_warninglists := true;
                       WarninglistResult.match_count := S (List.length ms);
                       WarninglistResult.warninglists :=
                         map warninglist_summary (m :: ms);
                       WarninglistResult.note := warninglist_note |}, w1)).
Proof.
  intros Hr.
  split; [intros H | intros m ms H Hall];
    unfold misp_check_warninglists, handle, checkWarninglists, bind at 1;
    rewrite Hr; unfold js_lookup, prop.
  - destruct H as [[H Hp] | H]; rewrite H; [rewrite Hp | ]; reflexivity.
  - rewrite H.
    change (List.length (m :: ms) =? 0)%nat with false. cbv iota. unfold bind.
    rewrite (mapM_total summarize_warninglist warninglist_summary).
    + reflexivity.
    + intros a w' Hin. apply summarize_warninglist_total.
      rewrite Forall_forall in Hall. apply Hall. exact Hin.
Qed.

End HandlerProperties.

(* ================================================================= *)
(** ** Creation that is not followed up *)

Section CreationProperties.
Context {P : Platform}.
Variable client : MispConfig.

(** X13. [createEvent] sends a second request only after the creating
    call returned an event with an id: when that call fails, or its answer
    carries no id or an empty one, the creating POST is the only request,
    whatever tags were asked for, and a failure of the call is the failure
    of [createEvent]. *)
Theorem createEvent_follows_up_only_with_an_id (params : CreateEventParams.t) (w : World) :
  match fst (request client "POST" "/events/add" (Some (createEvent_body params)) w) with
  | Ok data => truthy_str (as_string (opt_prop "id" (prop "Event" data))) = false
  | Throw _ => True
  end ->
  calls (snd (createEvent client params w)) = (calls w ++ [create_request client params])%list
  /\ forall e,
       fst (request client "POST" "/events/add" (Some (createEvent_body params)) w) = Throw e ->
       fst (createEvent client params w) = Throw e.
Proof.
  intros H.
  pose proof (request_calls client "POST" "/events/add" (Some (createEvent_body params)) w)
    as Hc.
  unfold create_request.
  destruct (request client "POST" "/events/add" (Some (createEvent_body params)) w)
    as [[data | e] w1] eqn:Hr; simpl in H, Hc; simpl fst.
  - split; [ | discriminate].
    unfold createEvent, bind at 1. rewrite Hr, <- Hc. f_equal.
    assert (Ho : forall w2,
               snd ((e <- get "Event" (Some data) ;;
                     ret (option_map as_MispEvent (as_object e))) w2) = w2).
    { intros w2. apply quiet_bind; [apply quiet_get | intros; apply quiet_ret]. }
    destruct (CreateEventParams.tags params) as [[ | t ts] | ]; try apply Ho.
    destruct data; try reflexivity.
    unfold get at 1, bind at 1, ret at 1. simpl prop. simpl in H.
    destruct (assoc "Event" fields) as [ev | ]; [ | reflexivity].
    destruct ev; try reflexivity.
    unfold get at 1, bind at 1, ret at 1. unfold prop. simpl in H.
    destruct (as_string (assoc "id" fields0)) as [id | ]; [ | reflexivity].
    simpl in H. rewrite H. reflexivity.
  - split; [ | intros e' [= <-]]; unfold createEvent, bind at 1; rewrite Hr;
      [exact Hc | reflexivity].
Qed.

(** X14. [addAttribute] tags only an attribute that came back with an id:
    when the answer of the creating call carries no attribute id, or an
    empty one, the tags asked for are dropped without an error, and the
    call behaves as the same call without tags. *)
Theorem addAttribute_without_id_drops_the_tags (eventId : string)
  (params : AddAttributeParams.t) (w : World) :
  match fst (request client "POST" ("/attributes/add/" ++ eventId)
               (Some (addAttribute_body params)) w) with
  | Ok data => truthy_str (as_string (opt_prop "id" (prop "Attribute" data))) = false
  | Throw _ => True
  end ->
  addAttribute client eventId params w = addAttribute client eventId (untagged params) w
  /\ calls (snd (addAttribute client eventId params w))
     = (calls w ++ [add_request client eventId params])%list.
Proof.
  intros H.
  pose proof (request_calls client "POST" ("/attributes/add/" ++ eventId)
                (Some (addAttribute_body params)) w) as Hc.
  assert (Heq : addAttribute client eventId params w
                = addAttribute client eventId (untagged params) w).
  { unfold addAttribute.
    change (addAttribute_body (untagged params)) with (addAttribute_body params).
    destruct (request client "POST" ("/attributes/add/" ++ eventId)
                (Some (addAttribute_body params)) w) as [[data | e] w1] eqn:Hr;
      simpl in H.
    - rewrite !(bind_ok_run _ _ _ _ _ Hr).
      simpl AddAttributeParams.tags.
      destruct (AddAttributeParams.tags params) as [[ | t ts] | ]; try reflexivity.
      destruct data; try reflexivity.
      unfold get at 1, bind at 1, ret at 1. unfold prop at 1. simpl in H.
      destruct (as_string (opt_prop "id" (assoc "Attribute" fields))) as [id | ];
        [ | reflexivity].
      simpl in H. rewrite H. reflexivity.
    - rewrite !(bind_throw_run _ _ _ _ _ Hr). reflexivity. }
  split; [exact Heq | ].
  rewrite Heq. unfold addAttribute. simpl AddAttributeParams.tags.
  rewrite bind_quiet_snd.
  - exact Hc.
  - intros data. apply quiet_bind; [apply quiet_get | intros; apply quiet_ret].
Qed.

End CreationProperties.

(* ================================================================= *)
(** ** What every request carries *)

Section TraceProperties.
Context {P : Platform}.
Variable client : MispConfig.

Lemma make_request_well_addressed (method path : string) (body : option Json) :
  well_addressed client (make_request client method path body).
Proof. split; [exists path | ]; reflexivity. Qed.

Lemma sends_quiet {X : Type} (f : World -> X * World) : quiet f -> sends_well client f.
Proof.
  intros Hq w. exists []. rewrite Hq, app_nil_r. split; [reflexivity | constructor].
Qed.

Lemma sends_ret {A : Type} (a : A) : sends_well client (ret a).
Proof. apply sends_quiet, quiet_ret. Qed.

Lemma sends_throw {A : Type} (e : string) : sends_well client (@throw P A e).
Proof. apply sends_quiet, quiet_throw. Qed.

Lemma sends_get (k : string) (v : option Json) : sends_well client (get k v).
Proof. apply sends_quiet, quiet_get. Qed.

Lemma sends_request_text (method path : string) (body : option Json) :
  sends_well client (request_text client method path body).
Proof.
  intros w. exists [make_request client method path body].
  split; [apply request_text_calls | ].
  constructor; [apply make_request_well_addressed | constructor].
Qed.

Lemma sends_request (method path : string) (body : option Json) :
  sends_well client (request client method path body).
Proof.
  intros w. exists [make_request client method path body].
  split; [apply request_calls | ].
  constructor; [apply make_request_well_addressed | constructor].
Qed.

Lemma sends_bind {A B : Type} (m : M A) (k : A -> M B) :
  sends_well client m -> (forall a, sends_well client (k a)) ->
  sends_well client (bind m k).
Proof.
  intros Hm Hk w. unfold bind. destruct (Hm w) as [s1 [H1 F1]].
  destruct (m w) as [[a | e] w1]; simpl in H1.
  - destruct (Hk a w1) as [s2 [H2 F2]]. exists (s1 ++ s2)%list.
    rewrite H2, H1, app_assoc. split; [reflexivity | apply Forall_app; auto].
  - exists s1. auto.
Qed.

Lemma sends_try_catch {A : Type} (m : M A) (h : string -> M A) :
  sends_well client m -> (forall e, sends_well client (h e)) ->
  sends_well client (try_catch m h).
Proof.
  intros Hm Hh w. unfold try_catch. destruct (Hm w) as [s1 [H1 F1]].
  destruct (m w) as [[a | e] w1]; simpl in H1.
  - exists s1. auto.
  - destruct (Hh e w1) as [s2 [H2 F2]]. exists (s1 ++ s2)%list.
    rewrite H2, H1, app_assoc. split; [reflexivity | apply Forall_app; auto].
Qed.

Lemma sends_forM {A B : Type} (l : list A) (f : A -> M B) :
  (forall a, sends_well client (f a)) -> sends_well client (forM_ l f).
Proof.
  intros Hf. induction l as [ | a r IH]; simpl; [apply sends_ret | ].
  apply sends_bind; [apply Hf | intros _; exact IH].
Qed.

Lemma sends_mapM {A B : Type} (f : A -> M B) (l : list A) :
  (forall a, sends_well client (f a)) -> sends_well client (mapM f l).
Proof.
  intros Hf. induction l as [ | a r IH]; simpl; [apply sends_ret | ].
  apply sends_bind; [apply Hf | intros b].
  apply sends_bind; [exact IH | intros bs; apply sends_ret].
Qed.

Lemma sends_foldM {A S : Type} (f : S -> A -> M S) (l : list A) (s : S) :
  (forall s a, sends_well client (f s a)) -> sends_well client (foldM f l s).
Proof.
  intros Hf. revert s. induction l as [ | a r IH]; intros s; simpl; [apply sends_ret | ].
  apply sends_bind; [apply Hf | intros s'; apply IH].
Qed.

Lemma sends_handle {R : Type} (prefix : string) (m : M (ToolResult R)) :
  sends_well client m -> sends_well client (handle prefix m).
Proof.
  intros Hm w. destruct (Hm w) as [s [H F]]. exists s.
  rewrite handle_snd. auto.
Qed.

Ltac sends :=
  repeat first
    [ apply sends_ret | apply sends_throw | apply sends_get
    | apply sends_request | apply sends_request_text
    | apply sends_handle
    | apply sends_bind; [ | intro ]
    | apply sends_try_catch; [ | intro ]
    | apply sends_forM; intro
    | apply sends_mapM; intro
    | apply sends_foldM; intros
    | match goal with
      | |- sends_well _ (match ?x with _ => _ end) => destruct x
      | |- sends_well _ (if ?x then _ else _) => destruct x
      end ].

Lemma sends_searchAttributes (params : SearchAttributesParams.t) :
  sends_well client (searchAttributes client params).
Proof. unfold searchAttributes. sends. Qed.

Lemma sends_getEvent (eventId : string) : sends_well client (getEvent client eventId).
Proof. unfold getEvent. sends. Qed.

Lemma sends_addAttribute (eventId : string) (params : AddAttributeParams.t) :
  sends_well client (addAttribute client eventId params).
Proof. unfold addAttribute. cbv zeta. sends. Qed.

(** X15. Whatever a tool is called with and whatever the service
    answers, the call only adds requests to the trace, and every request
    it adds goes to a path under the configured base URL and carries the
    API key in [Authorization] with the two JSON headers. *)
Theorem every_request_carries_the_api_key (call : ToolCall) (w : World) :
  exists sent,
    calls (world_after client call w) = (calls w ++ sent)%list
    /\ forall rq, In rq sent ->
         (exists path, rq_url rq = url client ++ path)
         /\ rq_headers rq = [("Authorization", apiKey client);
                             ("Accept", "application/json");
                             ("Content-Type", "application/json")].
Proof.
  assert (H : exists sent,
             calls (world_after client call w) = (calls w ++ sent)%list
             /\ Forall (well_addressed client) sent).
  { destruct call; simpl world_after;
      match goal with
      | |- context [snd (?f w)] => generalize w; change (sends_well client f)
      end.
    - unfold misp_correlate. sends.
    - unfold misp_get_related_events. sends. unfold seed_step. sends.
    - unfold misp_add_attributes_bulk. sends.
    - unfold misp_publish_event. sends.
    - unfold misp_tag_event. sends.
    - unfold misp_delete_attribute. sends.
    - unfold misp_list_tags. sends.
    - unfold misp_add_sighting. sends.
    - unfold misp_check_warninglists. sends.
    - unfold misp_export_iocs. sends. unfold exportEvents. sends.
    - unfold misp_export_hashes. sends. unfold exportHashes. sends. }
  destruct H as [sent [Hc Hf]]. exists sent. split; [exact Hc | ].
  rewrite Forall_forall in Hf. exact Hf.
Qed.

(** X16. The two correlation tools only read: every request that
    [misp_correlate] and [misp_get_related_events] send is the GET of an
    event view or the POST of an attribute search. *)
Theorem correlation_tools_only_read (w : World) :
  (forall value, exists sent,
      calls (snd (misp_correlate client value w)) = (calls w ++ sent)%list
      /\ Forall (is_read client) sent)
  /\ (forall eventId, exists sent,
        calls (snd (misp_get_related_events client eventId w)) = (calls w ++ sent)%list
        /\ Forall (is_read client) sent).
Proof.
  assert (Hs : forall params, is_read client (search_request client params)).
  { intros params. right. split; reflexivity. }
  split.
  - intros value. exists [search_request client (correlate_search value)].
    split; [apply correlate_calls | ].
    constructor; [apply Hs | constructor].
  - intros eventId.
    destruct (discovery_calls client eventId w) as [values [k Hc]].
    eexists. split; [exact Hc | ].
    constructor.
    + left. split; [reflexivity | exists eventId; reflexivity].
    + apply Forall_forall. intros rq Hin. apply In_firstn in Hin.
      apply in_map_iff in Hin as [v [<- _]]. apply Hs.
Qed.

End TraceProperties.

(* ================================================================= *)
(** ** Failures of the service, and counting *)

Lemma count_one_key (k : option string) (ks : list (option string)) :
  NoDup ks -> In k ks ->
  list_sum (map (fun k' => if opt_string_eqb k k' then 1 else 0) ks) = 1.
Proof.
  induction ks as [ | k0 r IH]; simpl; [tauto | ].
  intros Hnd Hin. inversion Hnd as [ | ? ? Hnot Hr]; subst.
  destruct (opt_string_eqb_spec k k0) as [-> | Hne].
  - assert (Hz : list_sum (map (fun k' => if opt_string_eqb k0 k' then 1 else 0) r) = 0).
    { clear IH Hnd Hin Hr. induction r as [ | k1 r IH]; simpl; [reflexivity | ].
      destruct (opt_string_eqb_spec k0 k1) as [-> | _].
      - exfalso. apply Hnot. left. reflexivity.
      - apply IH. intros H. apply Hnot. right. exact H. }
    rewrite Hz. reflexivity.
  - destruct Hin as [-> | Hin]; [congruence | ].
    rewrite (IH Hr Hin). reflexivity.
Qed.

Lemma list_sum_map_add {A : Type} (f g : A -> nat) (l : list A) :
  list_sum (map (fun x => f x + g x) l) = list_sum (map f l) + list_sum (map g l).
Proof. induction l as [ | a r IH]; simpl; [reflexivity | rewrite IH; lia]. Qed.

(** Groups by key cover a list: over keys without repetition that hold
    the key of every element, the sizes of the groups add up to the size
    of the list. *)
Lemma groups_cover (attributes : list MispAttribute.t) (ks : list (option string)) :
  NoDup ks ->
  (forall a, In a attributes -> In (MispAttribute.event_id a) ks) ->
  list_sum (map (fun k => List.length (filter (of_event k) attributes)) ks)
  = List.length attributes.
Proof.
  intros Hnd. induction attributes as [ | a r IH]; intros Hin.
  - clear Hnd Hin. induction ks as [ | k ks' IHk]; simpl; auto.
  - rewrite (map_ext _ (fun k => (if opt_string_eqb (MispAttribute.event_id a) k then 1 else 0)
                                 + List.length (filter (of_event k) r))).
    + rewrite list_sum_map_add, IH by (intros; apply Hin; right; assumption).
      rewrite count_one_key; [reflexivity | exact Hnd | apply Hin; left; reflexivity].
    + intros k. simpl. unfold of_event at 1.
      destruct (opt_string_eqb (MispAttribute.event_id a) k); reflexivity.
Qed.

Section FurtherProperties.
Context {P : Platform}.
Variable client : MispConfig.

(** X17. A non-2xx answer that arrives in time is always an error of the
    client, for the JSON and for the text requests alike: the message is
    the text of the status followed by a detail, it never is the message
    of a response that does not parse, and a body that is not JSON is the
    detail as it is. *)
Theorem non_2xx_answer_is_an_error (method path : string) (body : option Json)
  (w : World) (t : N) (r : Response) :
  fst (net (make_request client method path body) (remote w)) = Arrives t r ->
  (t <= timer_delay (timeout client))%N ->
  ok r = false ->
  exists detail,
    fst (request client method path body w)
    = Throw (status_prefix (status r) ++ ": " ++ detail)
    /\ fst (request_raw client method path body w)
       = Throw (status_prefix (status r) ++ ": " ++ detail)
    /\ (JSON_parse (text r) = None -> detail = text r)
    /\ (forall parsed m,
          JSON_parse (text r) = Some parsed ->
          prop "message" parsed = Some (JStr m) -> m <> "" -> detail = m).
Proof.
  intros Hev Ht Hok. exists (error_detail (text r)).
  assert (Hraw : fst (request_text client method path body w)
                 = Throw (status_prefix (status r) ++ ": " ++ error_detail (text r))).
  { unfold request_text.
    destruct (net (make_request client method path body) (remote w)) as [ev r'].
    simpl in Hev. subst ev. simpl. apply N.ltb_ge in Ht. rewrite Ht, Hok. reflexivity. }
  split; [ | split; [exact Hraw | split]].
  - unfold request. apply bind_fst_throw. exact Hraw.
  - intros Hn. unfold error_detail. rewrite Hn. reflexivity.
  - intros parsed m Hp Hm Hne. unfold error_detail. rewrite Hp.
    destruct parsed; simpl in Hm; try discriminate.
    simpl prop. rewrite Hm. simpl.
    destruct (String.eqb_spec m ""); [contradiction | reflexivity].
Qed.

(** X18. [misp_add_attributes_bulk] never returns an error result,
    whatever the service does: it reports one entry per item, and it sends
    exactly one request per item, in the order of the items, the creating
    POST of each (no tag is ever sent). *)
Theorem bulk_sends_one_request_per_item (eventId : string)
  (attributes : list BulkItem.t) (w : World) :
  (exists r,
     fst (misp_add_attributes_bulk client eventId attributes w) = ToolJson r
     /\ List.length (BulkResult.results r) = List.length attributes)
  /\ calls (snd (misp_add_attributes_bulk client eventId attributes w))
     = (calls w ++ map (fun attr => add_request client eventId (bulk_params attr))
                     attributes)%list.
Proof.
  rewrite bulk_result. simpl fst. simpl snd. split.
  - eexists. split; [reflexivity | ]. simpl.
    unfold entries_of. rewrite length_map, length_combine, unit_runs_length. lia.
  - apply after_units_calls.
Qed.

(** X19. In a result of [misp_correlate] the groups cover the response:
    [total_attributes] is the sum of the sizes of the groups of
    [found_in_events], and [total_events] is the number of groups. *)
Theorem correlate_totals_add_up (value : string) (w w' : World) (r : CorrelateResult.t) :
  misp_correlate client value w = (ToolJson r, w') ->
  CorrelateResult.total_attributes r
  = list_sum (map (fun g => List.length (EventGroup.attributes g))
                (CorrelateResult.found_in_events r))
  /\ CorrelateResult.total_events r = List.length (CorrelateResult.found_in_events r).
Proof.
  intros H. apply correlate_run in H as [attributes [_ ->]].
  unfold correlate_result. simpl. split.
  - rewrite found_in_events_closed_form, map_map. simpl.
    rewrite (map_ext _ (fun k => List.length (filter (of_event k) attributes)))
      by (intros; apply length_map).
    symmetry. apply groups_cover; [apply first_seen_NoDup | ].
    intros a Hin. apply first_seen_In, in_map. exact Hin.
  - unfold map_size, map_values. symmetry. apply length_map.
Qed.

End FurtherProperties.

(* ================================================================= *)
(** ** The further properties on the example exchanges *)

Lemma getConfig_strips_trailing_slashes_witness :
  getConfig example_env = Ok example_settings
  /\ exists n,
       example_env "MISP_URL" = Some (EnvConfig.url example_settings ++ slashes n)
       /\ last_char (EnvConfig.url example_settings) <> Some "/"%char.
Proof.
  split; [vm_compute; reflexivity | ].
  apply (getConfig_strips_trailing_slashes example_env example_settings).
  vm_compute. reflexivity.
Defined.

Lemma getConfig_timeout_in_milliseconds_witness :
  example_env "MISP_TIMEOUT" = Some "45s"
  /\ EnvConfig.timeout example_settings = Some 45000%Z.
Proof.
  split; [reflexivity | ].
  apply (getConfig_timeout_in_milliseconds example_env example_settings 45 "s").
  - vm_compute. reflexivity.
  - reflexivity.
  - reflexivity.
  - vm_compute. reflexivity.
Defined.

Lemma listTags_search_is_one_path_segment_witness :
  calls (snd (listTags (P := constant_remote tags_answer) example_config
                (Some "tlp:white/x") (constant_start tags_answer)))
  = [make_request example_config "GET" "/tags/search/tlp%3Awhite%2Fx" None]
  /\ forall ch,
       In ch (chars "tlp%3Awhite%2Fx") -> is_unreserved ch = true \/ ch = "%"%char.
Proof.
  destruct (listTags_search_is_one_path_segment (P := constant_remote tags_answer)
              example_config "tlp:white/x" (constant_start tags_answer))
    as [Hc [_ Hs]].
  - discriminate.
  - split; [rewrite Hc; reflexivity | exact Hs].
Defined.


Lemma exportEvents_sends_nothing_iff_witness :
  exportEvents (P := text_lab) example_config (export_as "zip")
    (text_start [replies_text "uuid,event_id"])
  = (Throw "Unsupported export format: zip. Supported: csv, stix, suricata, snort, text, rpz",
     text_start [replies_text "uuid,event_id"])
  /\ calls (snd (exportEvents (P := text_lab) example_config (export_as "constructor")
                   (text_start [replies_text "uuid,event_id"])))
     <> calls (text_start [replies_text "uuid,event_id"]).
Proof.
  split.
  - destruct (exportEvents_sends_nothing_iff (P := text_lab) example_config
                (export_as "zip") (text_start [replies_text "uuid,event_id"]))
      as [[_ H1] H2].
    apply H2, H1. split; reflexivity.
  - destruct (exportEvents_sends_nothing_iff (P := text_lab) example_config
                (export_as "constructor") (text_start [replies_text "uuid,event_id"]))
      as [[H1 _] _].
    intros H. apply H1 in H. destruct H as [_ H]. vm_compute in H. discriminate H.
Defined.

Lemma export_iocs_returns_the_body_witness :
  fst (misp_export_iocs (P := text_lab) example_config (export_as "csv")
         (text_start [replies_text " uuid,event_id "]))
  = ToolText " uuid,event_id "
  /\ fst (misp_export_iocs (P := text_lab) example_config (export_as "csv")
            (text_start [replies_text "   "]))
     = ToolText "No IOCs found for the specified criteria in csv format.".
Proof.
  split.
  - apply (export_iocs_returns_the_body (P := text_lab) example_config (export_as "csv")
             (text_start [replies_text " uuid,event_id "]) "/events/csv/download"
             0%N {| status := 200; text := " uuid,event_id " |});
      vm_compute; try reflexivity; discriminate.
  - apply (export_iocs_returns_the_body (P := text_lab) example_config (export_as "csv")
             (text_start [replies_text "   "]) "/events/csv/download"
             0%N {| status := 200; text := "   " |});
      vm_compute; try reflexivity; discriminate.
Defined.

Lemma export_hashes_returns_the_body_witness :
  fst (misp_export_hashes (P := text_lab) example_config md5_export
         (text_start [replies_text "d41d8cd98f00b204e9800998ecf8427e"]))
  = ToolText "d41d8cd98f00b204e9800998ecf8427e"
  /\ fst (misp_export_hashes (P := text_lab) example_config md5_export
            (text_start [replies_text ""]))
     = ToolText "No md5 hashes found for the specified criteria.".
Proof.
  split.
  - apply (export_hashes_returns_the_body (P := text_lab) example_config md5_export
             (text_start [replies_text "d41d8cd98f00b204e9800998ecf8427e"])
             0%N {| status := 200; text := "d41d8cd98f00b204e9800998ecf8427e" |});
      [simpl; auto | vm_compute; reflexivity | vm_compute; discriminate | reflexivity].
  - apply (export_hashes_returns_the_body (P := text_lab) example_config md5_export
             (text_start [replies_text ""])
             0%N {| status := 200; text := "" |});
      [simpl; auto | vm_compute; reflexivity | vm_compute; discriminate | reflexivity].
Defined.

Lemma add_sighting_needs_a_target_witness :
  misp_add_sighting (P := lab) example_config (sighting_of None (Some ""))
    (lab_start [replies empty_object])
  = (ToolError "Either attributeId or value must be provided.",
     lab_start [replies empty_object])
  /\ calls (snd (misp_add_sighting (P := lab) example_config
                   (sighting_of (Some "300") None) (lab_start [replies empty_object])))
     = [make_request example_config "POST" "/sightings/add/300"
          (Some (JObj [("type", JNum 0)]))].
Proof.
  split.
  - apply (proj1 (add_sighting_needs_a_target (P := lab) example_config
                    (sighting_of None (Some "")) (lab_start [replies empty_object])));
      reflexivity.
  - apply (proj2 (add_sighting_needs_a_target (P := lab) example_config
                    (sighting_of (Some "300") None) (lab_start [replies empty_object]))).
    left. reflexivity.
Defined.

Lemma list_tags_applies_positive_limit_witness :
  fst (misp_list_tags (P := constant_remote tags_answer) example_config None (Some 2%Z)
         (constant_start tags_answer))
  = ToolJson [tag_summary (tag_json "1" "tlp:white"); tag_summary (tag_json "2" "tlp:green")]
  /\ fst (misp_list_tags (P := constant_remote tags_answer) example_config None (Some 0%Z)
            (constant_start tags_answer))
     = ToolJson (map tag_summary three_tags).
Proof.
  split.
  - rewrite (list_tags_applies_positive_limit (P := constant_remote tags_answer)
               example_config None (Some 2%Z) (constant_start tags_answer)
               (snd (request (P := constant_remote tags_answer) example_config "GET"
                       "/tags" None (constant_start tags_answer)))
               tags_answer three_tags).
    + reflexivity.
    + vm_compute. reflexivity.
    + reflexivity.
    + repeat constructor; discriminate.
  - rewrite (list_tags_applies_positive_limit (P := constant_remote tags_answer)
               example_config None (Some 0%Z) (constant_start tags_answer)
               (snd (request (P := constant_remote tags_answer) example_config "GET"
                       "/tags" None (constant_start tags_answer)))
               tags_answer three_tags).
    + reflexivity.
    + vm_compute. reflexivity.
    + reflexivity.
    + repeat constructor; discriminate.
Defined.

Lemma tag_event_does_not_read_the_answer_witness :
  fst (misp_tag_event (P := lab) example_config "42" "tlp:white" (Some true)
         (lab_start [replies forbidden]))
  = ToolText ("Tag " ++ dq ++ "tlp:white" ++ dq ++ " removed from event 42.")
  /\ calls (snd (misp_tag_event (P := lab) example_config "42" "tlp:white" (Some true)
                   (lab_start [replies forbidden])))
     = [make_request example_config "POST" "/events/removeTag"
          (Some (JObj [("event", JStr "42"); ("tag", JStr "tlp:white")]))].
Proof.
  destruct (tag_event_does_not_read_the_answer (P := lab) example_config "42" "tlp:white"
              (Some true) (lab_start [replies forbidden])) as [Hc Hr].
  split.
  - apply (Hr forbidden). vm_compute. reflexivity.
  - exact Hc.
Defined.

Lemma check_warninglists_reads_the_entry_of_the_value_witness :
  fst (misp_check_warninglists (P := constant_remote warninglist_answer) example_config
         "8.8.8.8" (constant_start warninglist_answer))
  = ToolJson {| WarninglistResult.value := "8.8.8.8";
                WarninglistResult.on_warninglists := true;
                WarninglistResult.match_count := 1;
                WarninglistResult.warninglists := [warninglist_summary resolver_list];
                WarninglistResult.note := warninglist_note |}
  /\ fst (misp_check_warninglists (P := constant_remote empty_object) example_config
            "8.8.8.8" (constant_start empty_object))
     = ToolText (not_on_warninglists "8.8.8.8").
Proof.
  split.
  - destruct (check_warninglists_reads_the_entry_of_the_value
                (P := constant_remote warninglist_answer) example_config "8.8.8.8"
                (constant_start warninglist_answer)
                (snd (request (P := constant_remote warninglist_answer) example_config
                        "POST" "/warninglists/checkValue" (Some (JArr [JStr "8.8.8.8"]))
                        (constant_start warninglist_answer)))
                [("8.8.8.8", JArr [resolver_list])]) as [_ H].
    + vm_compute. reflexivity.
    + rewrite (H resolver_list []); [reflexivity | reflexivity | ].
      repeat constructor; discriminate.
  - destruct (check_warninglists_reads_the_entry_of_the_value
                (P := constant_remote empty_object) example_config "8.8.8.8"
                (constant_start empty_object)
                (snd (request (P := constant_remote empty_object) example_config
                        "POST" "/warninglists/checkValue" (Some (JArr [JStr "8.8.8.8"]))
                        (constant_start empty_object)))
                []) as [H _].
    + vm_compute. reflexivity.
    + rewrite H; [reflexivity | left; split; reflexivity].
Defined.

Lemma createEvent_follows_up_only_with_an_id_witness :
  calls (snd (createEvent (P := constant_remote event_without_id) example_config
                tagged_event_params (constant_start event_without_id)))
  = [create_request (P := constant_remote event_without_id) example_config
       tagged_event_params]
  /\ fst (createEvent (P := lab) example_config tagged_event_params
            (lab_start [refuses 403 forbidden; replies tag_saved]))
     = Throw "Insufficient permissions: Duplicate value".
Proof.
  split.
  - apply (createEvent_follows_up_only_with_an_id
             (P := constant_remote event_without_id) example_config
             tagged_event_params (constant_start event_without_id)).
    vm_compute. reflexivity.
  - apply (createEvent_follows_up_only_with_an_id (P := lab) example_config
             tagged_event_params (lab_start [refuses 403 forbidden; replies tag_saved])).
    + vm_compute. exact I.
    + vm_compute. reflexivity.
Defined.

Lemma addAttribute_without_id_drops_the_tags_witness :
  addAttribute (P := lab) example_config "42" tagged_attribute_params
    (lab_start [replies attribute_without_id; replies tag_saved])
  = addAttribute (P := lab) example_config "42" (untagged tagged_attribute_params)
      (lab_start [replies attribute_without_id; replies tag_saved])
  /\ calls (snd (addAttribute (P := lab) example_config "42" tagged_attribute_params
                   (lab_start [replies attribute_without_id; replies tag_saved])))
     = [add_request (P := lab) example_config "42" tagged_attribute_params].
Proof.
  apply (addAttribute_without_id_drops_the_tags (P := lab) example_config "42"
           tagged_attribute_params
           (lab_start [replies attribute_without_id; replies tag_saved])).
  vm_compute. reflexivity.
Defined.

Lemma non_2xx_answer_is_an_error_witness :
  exists detail,
    fst (request (P := lab) example_config "POST" "/events/add" None
           (lab_start [refuses 403 forbidden]))
    = Throw ("Insufficient permissions: " ++ detail)
    /\ fst (request_raw (P := lab) example_config "POST" "/events/add" None
              (lab_start [refuses 403 forbidden]))
       = Throw ("Insufficient permissions: " ++ detail)
    /\ detail = "Duplicate value".
Proof.
  destruct (non_2xx_answer_is_an_error (P := lab) example_config "POST" "/events/add" None
              (lab_start [refuses 403 forbidden]) 0%N
              {| status := 403; text := stringify forbidden |})
    as [detail [H1 [H2 [_ H3]]]].
  - reflexivity.
  - vm_compute. discriminate.
  - reflexivity.
  - exists detail. split; [exact H1 | split; [exact H2 | ]].
    apply (H3 forbidden "Duplicate value").
    + vm_compute. reflexivity.
    + reflexivity.
    + discriminate.
Defined.

Lemma correlate_totals_add_up_witness :
  exists r,
    fst (misp_correlate (P := lab) example_config "10.0.0.1"
           (lab_start [replies hits_10_0_0_1])) = ToolJson r
    /\ CorrelateResult.total_attributes r = 2
    /\ map (fun g => List.length (EventGroup.attributes g))
         (CorrelateResult.found_in_events r) = [1; 1].
Proof.
  destruct (misp_correlate (P := lab) example_config "10.0.0.1"
              (lab_start [replies hits_10_0_0_1])) as [res w'] eqn:Hrun.
  assert (Hres : exists r, res = ToolJson r
                           /\ map (fun g => List.length (EventGroup.attributes g))
                                (CorrelateResult.found_in_events r) = [1; 1]).
  { apply (f_equal fst) in Hrun. simpl in Hrun. subst res.
    eexists. split; [vm_compute; reflexivity | vm_compute; reflexivity]. }
  destruct Hres as [r [-> Hg]].
  exists r. split; [reflexivity | split; [ | exact Hg]].
  destruct (correlate_totals_add_up (P := lab) example_config "10.0.0.1"
              (lab_start [replies hits_10_0_0_1]) w' r Hrun) as [Ht _].
  rewrite Ht, Hg. reflexivity.
Defined.

